(** * GPU filter channel allocation (src/utils/gpu-filter-utils.js)

    A shallow embedding of the channel allocator of kepler.gl and the
    properties its specification states about it.

    JavaScript values are modelled as follows.
    - Numbers that the allocator handles (channel indices, counters, filter
      values and domains) are integers, in [Z] or [nat].
    - An array of channel indices is a [list slot]: a slot is an empty slot
      of a sparse array ([Hole]), a stored value that is not a finite number
      such as [null], [undefined] or [NaN] ([Unset]), or a finite number
      ([Num c]).
    - A property that may be missing on an object is an [option].
    - The plain object [gpuPerDataset] is the finite map of its own
      properties together with what [Object.prototype] gives for a key that
      it does not own: reading [constructor], [toString], [__proto__] and
      the like gives a value that is not a number.
    - The [triggers] object is only written, at the keys [gpuFilter_i]; it
      is the finite map of its own properties.
    - Distinct filter records are assumed to own distinct [gpuChannel]
      arrays, so that the in-place writes of [assignGpuChannel] are visible
      only through the filter they are made for. *)

From Stdlib Require Import ZArith String List DecimalString DecimalNat DecimalFacts.
From stdpp Require Import gmap strings list.

Local Open Scope string_scope.
Local Open Scope Z_scope.

(** ** Data model *)

(** An entry of an array of channel indices. *)
Inductive slot : Type :=
  | Hole
  | Unset
  | Num (c : Z).

(** A field value of a data row: [undefined], [null] or a number. *)
Inductive cell : Type :=
  | CUndefined
  | CNull
  | CNum (v : Z).

(** A filter record, with the fields the allocator reads. [gpuChannel] and
    [mappedValue] may be missing; [name] has one entry per dataset, and
    [domain] and [value] are pairs of numbers. *)
Record Filter : Type := mkFilter {
  id : string;
  dataId : list string;
  gpu : bool;
  gpuChannel : option (list slot);
  domain : Z * Z;
  value : Z * Z;
  fieldIdx : nat;
  mappedValue : option (list cell);
  name : list string
}.

(** ** JavaScript array primitives on channel arrays *)

(** [a[i]]: reading an empty slot or past the end gives [undefined]. *)
Definition js_get (a : list slot) (i : nat) : slot :=
  match a !! i with
  | Some (Num c) => Num c
  | _ => Unset
  end.

(** [a[i] = v]: writing past the end grows the array, leaving empty slots. *)
Definition js_set (a : list slot) (i : nat) (v : slot) : list slot :=
  if decide (i < length a)%nat then <[i:=v]> a
  else a ++ replicate (i - length a) Hole ++ [v].

(** [Number.isFinite]. *)
Definition isFinite (s : slot) : bool :=
  match s with Num _ => true | _ => false end.

(** [a.every(Number.isFinite)]: [every] does not visit empty slots. *)
Definition every_isFinite (a : list slot) : bool :=
  forallb (fun s => match s with Hole => true | _ => isFinite s end) a.

(** [s === channel] for a number [channel]. *)
Definition strict_eq_num (s : slot) (channel : Z) : bool :=
  match s with Num c => Z.eqb c channel | _ => false end.

(** [l.indexOf(x)]: the first position of [x], or [-1]. *)
Fixpoint indexOf (l : list string) (x : string) : Z :=
  match l with
  | [] => -1
  | y :: l' =>
      if String.eqb y x then 0
      else let r := indexOf l' x in if r <? 0 then -1 else r + 1
  end.

(** [l.includes(x)]. *)
Definition includes (l : list string) (x : string) : bool :=
  existsb (String.eqb x) l.

(** [l.forEach((x, idx) => ...)] threading the state the callback updates;
    whatever the callback returns is dropped. *)
Fixpoint forEach_from {A S : Type} (body : A -> nat -> S -> S)
    (l : list A) (idx : nat) (s : S) : S :=
  match l with
  | [] => s
  | x :: l' => forEach_from body l' (Datatypes.S idx) (body x idx s)
  end.

Definition forEach {A S : Type} (body : A -> nat -> S -> S)
    (l : list A) (s : S) : S :=
  forEach_from body l 0%nat s.

(** [{...filter, gpuChannel}] *)
Definition set_gpuChannel (gc : option (list slot)) (f : Filter) : Filter :=
  {| id := id f; dataId := dataId f; gpu := gpu f; gpuChannel := gc;
     domain := domain f; value := value f; fieldIdx := fieldIdx f;
     mappedValue := mappedValue f; name := name f |}.

(** [Number.MIN_SAFE_INTEGER] *)
Definition MIN_SAFE_INTEGER : Z := - (2 ^ 53 - 1).

(** ** Helpers imported from modules that are not part of the sources *)

(** Modelled from the spec: [arrayfy] of ./utils is missing; the sequences it
    is applied to ([dataId], [gpuChannel]) are arrays, which it returns as
    they are, and a missing value has no element to read. *)
Definition arrayfy (a : option (list slot)) : list slot :=
  match a with Some l => l | None => [] end.

(** Modelled from the spec: [set] of ./utils is missing; each entry point
    returns a new filter and never changes one in place, so
    [set(['gpu'], v, f)] is a copy of [f] with [gpu] replaced. *)
Definition set_gpu (v : bool) (f : Filter) : Filter :=
  {| id := id f; dataId := dataId f; gpu := v; gpuChannel := gpuChannel f;
     domain := domain f; value := value f; fieldIdx := fieldIdx f;
     mappedValue := mappedValue f; name := name f |}.

(** Modelled from the spec: [notNullorUndefined] of ./data-utils is missing;
    a value is present unless it is [null] or [undefined]. *)
Definition notNullorUndefined (c : cell) : bool :=
  match c with CNum _ => true | _ => false end.

(** ** Results of getGpuFilterProps *)

(** A call returns a value or throws a [TypeError]. *)
Inductive result (A : Type) : Type :=
  | Ok (a : A)
  | TypeError.
Arguments Ok {A} a.
Arguments TypeError {A}.

(** The value stored under an update-trigger key. *)
Inductive trigger : Type :=
  | TNull
  | TUndefined
  | TName (n : string).

(** The values the loop of [getGpuFilterProps] builds: [filterRange],
    [triggers] and [channels]. *)
Record propsState : Type := {
  stRange : list (Z * Z);
  stTriggers : gmap string trigger;
  stChannels : list (option Filter)
}.

(** The object [getGpuFilterProps] returns; rows have type [D]. *)
Record GpuFilterProps (D : Type) : Type := {
  filterRange : list (Z * Z);
  filterValueUpdateTriggers : gmap string trigger;
  filterValueAccessor : (D -> nat) -> (D -> list cell) -> D -> list Z
}.
Arguments filterRange {D} _.
Arguments filterValueUpdateTriggers {D} _.
Arguments filterValueAccessor {D} _ _ _ _.

(** The default layout of a row, [{index, data}], and its two readers. *)
Record datum : Type := { index : nat; data : list cell }.
Definition defaultGetIndex (d : datum) : nat := index d.
Definition defaultGetData (d : datum) : list cell := data d.

Section Allocator.

(** The constant of constants/default-settings, which is not part of the
    sources: the number of channels of a dataset. *)
Variable MAX_GPU_FILTERS : nat.

(** ** setFilterGpuMode *)

Definition setFilterGpuMode (filter : Filter) (filters : list Filter) : Filter :=
  let _ :=
    forEach (fun did (datasetIdx : nat) (_ : unit) =>
      let gpuFilters :=
        List.filter (fun f => includes (dataId f) did && gpu f) filters in
      let _ :=
        if gpu filter && (length gpuFilters =? MAX_GPU_FILTERS)%nat
        then Some (set_gpu false filter)
        else None in
      tt) (dataId filter) tt in
  filter.

(** ** assignGpuChannel *)

(** The predicate [findGpuChannel(channel)] built for one dataset id [did]. *)
Definition findGpuChannel (filter : Filter) (did : string) (channel : Z)
    (f : Filter) : bool :=
  let dataIdx := indexOf (dataId f) did in
  negb (String.eqb (id f) (id filter))
  && (-1 <? dataIdx)
  && gpu f
  && strict_eq_num (js_get (arrayfy (gpuChannel f)) (Z.to_nat dataIdx)) channel.

(** [filters.find(findGpuChannel(channel))] read as a truth value. *)
Definition conflict (filter : Filter) (filters : list Filter)
    (did : string) (channel : Z) : bool :=
  match List.find (findGpuChannel filter did channel) filters with
  | Some _ => true
  | None => false
  end.

(** The [while (i < MAX_GPU_FILTERS)] loop: [n] iterations are left. *)
Fixpoint firstFree (occupied : Z -> bool) (i n : nat) : option nat :=
  match n with
  | O => None
  | Datatypes.S n' =>
      if negb (occupied (Z.of_nat i)) then Some i
      else firstFree occupied (Datatypes.S i) n'
  end.

(** The callback of [filter.dataId.forEach], on the array [gc] that the
    source calls [gpuChannel]. *)
Definition placeChannel (filter : Filter) (filters : list Filter)
    (did : string) (datasetIdx : nat) (gc : list slot) : list slot :=
  let keep :=
    match js_get gc datasetIdx with
    | Num c => negb (conflict filter filters did c)
    | _ => false
    end in
  if keep then gc
  else
    match firstFree (conflict filter filters did) 0 MAX_GPU_FILTERS with
    | Some i => js_set gc datasetIdx (Num (Z.of_nat i))
    | None => gc
    end.

(** The array [gpuChannel] once the [forEach] is over. *)
Definition placedChannels (filter : Filter) (filters : list Filter) : list slot :=
  forEach (placeChannel filter filters) (dataId filter)
    (arrayfy (gpuChannel filter)).

(** The local array is [filter.gpuChannel] itself when the filter has one, so
    the writes of the loop show in [{...filter, gpu: false}] too; a fresh
    array is dropped there. *)
Definition assignGpuChannel (filter : Filter) (filters : list Filter) : Filter :=
  if negb (gpu filter) then filter
  else
    let gc := placedChannels filter filters in
    if (length gc =? 0)%nat || negb (every_isFinite gc) then
      set_gpu false
        (set_gpuChannel
           (match gpuChannel filter with
            | Some _ => Some gc
            | None => None
            end) filter)
    else set_gpuChannel (Some gc) filter.

(** ** assignGpuChannels *)

(** [allFilters.reduce((accu, f, index) => ..., allFilters)] *)
Fixpoint assignGpuChannels_from (l : list Filter) (index : nat)
    (accu : list Filter) : list Filter :=
  match l with
  | [] => accu
  | f :: l' =>
      let filters :=
        if gpu f then <[index := assignGpuChannel f accu]> accu else accu in
      assignGpuChannels_from l' (Datatypes.S index) filters
  end.

Definition assignGpuChannels (allFilters : list Filter) : list Filter :=
  assignGpuChannels_from allFilters 0 allFilters.

(** ** resetFilterGpuMode *)

(** What a property of [gpuPerDataset] holds: a number stored by the loop,
    or a value that is not a number: a function or an object that
    [Object.prototype] gives, or the string that [count + 1] makes of one.
    Such a value is truthy and never [===] a number. *)
Inductive counter : Type :=
  | CountNum (c : nat)
  | CountOther.

#[global] Instance counter_eq_dec : EqDecision counter.
Proof. solve_decision. Defined.

(** The names of the properties of [Object.prototype], which the object
    literal [{}] inherits. *)
Definition objectPrototypeNames : list string :=
  [ "constructor"; "hasOwnProperty"; "isPrototypeOf"; "propertyIsEnumerable";
    "toLocaleString"; "toString"; "valueOf"; "__proto__";
    "__defineGetter__"; "__defineSetter__";
    "__lookupGetter__"; "__lookupSetter__" ].

Definition inherited (key : string) : bool :=
  includes objectPrototypeNames key.

(** [gpuPerDataset[dataId]]: the own property if the loop stored one, else
    what [Object.prototype] gives, else [undefined]. *)
Definition readCounter (gpuPerDataset : gmap string counter) (did : string)
    : option counter :=
  match gpuPerDataset !! did with
  | Some v => Some v
  | None => if inherited did then Some CountOther else None
  end.

(** [gpuPerDataset[dataId] = v]: an own property is made or replaced, but for
    [__proto__], whose setter drops a value that is not an object. *)
Definition writeCounter (did : string) (v : counter)
    (gpuPerDataset : gmap string counter) : gmap string counter :=
  if String.eqb did "__proto__" then gpuPerDataset
  else <[did := v]> gpuPerDataset.

(** The callback of [arrayfy(f.dataId).forEach], on the flag [gpu] and the
    counters [gpuPerDataset]: [count ? count + 1 : 1] is [count + 1] on a
    number that is not zero, a string on a value that is not a number, and
    [1] on [undefined] and on zero. *)
Definition countDataset (did : string) (_ : nat)
    (st : bool * gmap string counter) : bool * gmap string counter :=
  let '(g, gpuPerDataset) := st in
  let count := readCounter gpuPerDataset did in
  if decide (count = Some (CountNum MAX_GPU_FILTERS)) then (false, gpuPerDataset)
  else
    (g, writeCounter did
          match count with
          | Some (CountNum (Datatypes.S c)) => CountNum (Datatypes.S (Datatypes.S c))
          | Some CountOther => CountOther
          | _ => CountNum 1
          end gpuPerDataset).

(** The callback of [filters.map], returning the counters with the filter. *)
Definition resetOne (f : Filter) (gpuPerDataset : gmap string counter)
    : Filter * gmap string counter :=
  if gpu f then
    let '(g, counts) := forEach countDataset (dataId f) (true, gpuPerDataset) in
    if negb g then (set_gpu false f, counts) else (f, counts)
  else (f, gpuPerDataset).

Fixpoint resetFilterGpuMode_from (filters : list Filter)
    (gpuPerDataset : gmap string counter) : list Filter :=
  match filters with
  | [] => []
  | f :: rest =>
      let '(f', counts) := resetOne f gpuPerDataset in
      f' :: resetFilterGpuMode_from rest counts
  end.

Definition resetFilterGpuMode (filters : list Filter) : list Filter :=
  resetFilterGpuMode_from filters ∅.

(** ** getGpuFilterProps *)

(** [new Array(MAX_GPU_FILTERS).fill(0).map(d => [0, 0])] *)
Definition getEmptyFilterRange : list (Z * Z) :=
  replicate MAX_GPU_FILTERS (0, 0).

(** [channels.map(filter => ...)] of [getFilterValueAccessor], for the row
    [d]; a channel without a filter holds [None]. *)
Definition getFilterValueAccessor {D : Type} (channels : list (option Filter))
    (getIndex : D -> nat) (getData : D -> list cell) (d : D) : list Z :=
  List.map (fun ch =>
    match ch with
    | None => 0
    | Some filter =>
        let value :=
          match mappedValue filter with
          | Some mapped => default CUndefined (mapped !! getIndex d)
          | None => default CUndefined (getData d !! fieldIdx filter)
          end in
        if notNullorUndefined value
        then match value with CNum v => v - fst (domain filter) | _ => 0 end
        else MIN_SAFE_INTEGER
    end) channels.

(** [filters.find(f => f.gpu && f.dataId.includes(dataId) &&
    f.gpuChannel[f.dataId.indexOf(dataId)] === i)]: reading an index of a
    missing [gpuChannel] throws. *)
Fixpoint findChannelFilter (filters : list Filter) (did : string) (i : nat)
    : result (option Filter) :=
  match filters with
  | [] => Ok None
  | f :: rest =>
      if gpu f && includes (dataId f) did then
        match gpuChannel f with
        | None => TypeError
        | Some gc =>
            if strict_eq_num (js_get gc (Z.to_nat (indexOf (dataId f) did)))
                 (Z.of_nat i)
            then Ok (Some f)
            else findChannelFilter rest did i
        end
      else findChannelFilter rest did i
  end.

(** The key [`gpuFilter_${i}`]. *)
Definition triggerKey (i : nat) : string :=
  "gpuFilter_" ++ NilZero.string_of_uint (Nat.to_uint i).

(** The body of the [for] loop, on the three values it updates. *)
Definition propsStep (did : string) (i : nat) (filter : option Filter)
    (st : propsState) : propsState :=
  {| stRange :=
       <[i := match filter with
              | Some f => (fst (value f) - fst (domain f),
                           snd (value f) - fst (domain f))
              | None => (0, 0)
              end]> (stRange st);
     stTriggers :=
       <[triggerKey i :=
           match filter with
           | Some f =>
               match name f !! Z.to_nat (indexOf (dataId f) did) with
               | Some n => TName n
               | None => TUndefined
               end
           | None => TNull
           end]> (stTriggers st);
     stChannels := stChannels st ++ [filter] |}.

(** [for (let i = 0; i < MAX_GPU_FILTERS; i++)]: [n] iterations are left. *)
Fixpoint propsLoop (filters : list Filter) (did : string) (i n : nat)
    (st : propsState) : result propsState :=
  match n with
  | O => Ok st
  | Datatypes.S n' =>
      match findChannelFilter filters did i with
      | TypeError => TypeError
      | Ok filter => propsLoop filters did (Datatypes.S i) n' (propsStep did i filter st)
      end
  end.

Definition getGpuFilterProps (D : Type) (filters : list Filter) (did : string)
    : result (GpuFilterProps D) :=
  match propsLoop filters did 0 MAX_GPU_FILTERS
          {| stRange := getEmptyFilterRange; stTriggers := ∅; stChannels := [] |} with
  | TypeError => TypeError
  | Ok st =>
      Ok {| filterRange := stRange st;
            filterValueUpdateTriggers := stTriggers st;
            filterValueAccessor := getFilterValueAccessor (stChannels st) |}
  end.

End Allocator.

(** Modelled from the spec: the value of [MAX_GPU_FILTERS] is set in
    constants/default-settings, which is missing; the scenario of the
    specification runs with four channels. *)
Definition MAX_GPU_FILTERS_default : nat := 4.

(** ** Specification-side notions *)

(** [k] is the position of dataset [did] in [l]: its first occurrence. *)
Definition positionOf (l : list string) (did : string) (k : nat) : Prop :=
  l !! k = Some did /\ forall j, (j < k)%nat -> l !! j <> Some did.

(** The number of filters among the first [i] of [filters] that ask for GPU
    mode and include dataset [did]. *)
Definition gpuBefore (filters : list Filter) (i : nat) (did : string) : nat :=
  length (List.filter (fun g => gpu g && includes (dataId g) did) (take i filters)).

(** The field value the accessor reads for filter [f] on row [d]. *)
Definition rowValue {D : Type} (f : Filter) (getIndex : D -> nat)
    (getData : D -> list cell) (d : D) : cell :=
  match mappedValue f with
  | Some mapped => default CUndefined (mapped !! getIndex d)
  | None => default CUndefined (getData d !! fieldIdx f)
  end.

(** A filter record built from the fields the examples vary. *)
Definition sampleFilter (i : string) (ds : list string) (g : bool)
    (gc : option (list slot)) : Filter :=
  {| id := i; dataId := ds; gpu := g; gpuChannel := gc;
     domain := (0, 100); value := (10, 20); fieldIdx := 0;
     mappedValue := None; name := ds |}.

(** ** Properties and inputs of the examples *)

(** Four filters in GPU mode on dataset [d1], one per channel. *)
Definition fullDataset (did : string) : list Filter :=
  [ sampleFilter "a" [did] true (Some [Num 0]);
    sampleFilter "b" [did] true (Some [Num 1]);
    sampleFilter "c" [did] true (Some [Num 2]);
    sampleFilter "d" [did] true (Some [Num 3]) ].

(** [f'] is [f], or [f] with [gpu] lowered from true to false. *)
Definition gpuOnlyLowered (f f' : Filter) : Prop :=
  (f' = f \/ (gpu f = true /\ f' = set_gpu false f))
  /\ (gpu f = false -> gpu f' = false)
  /\ id f' = id f /\ dataId f' = dataId f /\ gpuChannel f' = gpuChannel f
  /\ domain f' = domain f /\ value f' = value f /\ fieldIdx f' = fieldIdx f
  /\ mappedValue f' = mappedValue f /\ name f' = name f.

(** A filter of the scenario: in GPU mode on dataset [d1], without channels;
    [x], [m] and [n] stand for the fields the scenario leaves open. *)
Definition scenarioFilter (i : string) (dom val : Z * Z) (x : nat)
    (m : option (list cell)) (n : list string) : Filter :=
  {| id := i; dataId := ["d1"]; gpu := true; gpuChannel := None;
     domain := dom; value := val; fieldIdx := x; mappedValue := m; name := n |}.

(** The two filters of the scenario, reading raw fields [0] and [1]. *)
Definition scenarioF1 : Filter :=
  scenarioFilter "F1" (0, 100) (10, 20) 0 None ["price"].

Definition scenarioF2 : Filter :=
  scenarioFilter "F2" (0, 50) (5, 15) 1 None ["size"].

(** The scenario after channel allocation. *)
Definition scenarioAssigned : list Filter :=
  assignGpuChannels MAX_GPU_FILTERS_default [scenarioF1; scenarioF2].

(** The properties of dataset [d1] in the scenario, with an empty object
    standing for a call that throws. *)
Definition scenarioProps : GpuFilterProps datum :=
  match getGpuFilterProps MAX_GPU_FILTERS_default datum scenarioAssigned "d1" with
  | Ok props => props
  | TypeError =>
      {| filterRange := []; filterValueUpdateTriggers := ∅;
         filterValueAccessor := fun _ _ _ => [] |}
  end.

(** Filter [f] holds channel [c] at the position of dataset [did]. *)
Definition channelAt (f : Filter) (did : string) (c : Z) : Prop :=
  exists k, positionOf (dataId f) did k
            /\ arrayfy (gpuChannel f) !! k = Some (Num c).

(** No two filters in GPU mode with different ids hold the same channel of
    one dataset. *)
Definition injectiveChannels (filters : list Filter) : Prop :=
  forall did c f g,
    f ∈ filters -> g ∈ filters -> id f <> id g ->
    gpu f = true -> gpu g = true ->
    channelAt f did c -> channelAt g did c -> False.

(** Every channel index stored in the collection is below [MAX]. *)
Definition channelsInRange (MAX : nat) (filters : list Filter) : Prop :=
  forall f k c, f ∈ filters -> arrayfy (gpuChannel f) !! k = Some (Num c) ->
                0 <= c < Z.of_nat MAX.

(** Five filters in GPU mode on dataset [d1]; the last one repeats the
    channel of the third. *)
Definition crowdedDataset : list Filter :=
  (fullDataset "d1" ++ [sampleFilter "e" ["d1"] true (Some [Num 2])])%list.

(** Five filters on datasets [d1] and [d2]; the first two hold the same
    channel of [d1] and the last one has no channel of [d2] yet. *)
Definition unsettledCollection : list Filter :=
  [ sampleFilter "f" ["d1"; "d2"] true (Some [Num 0; Num 0]);
    sampleFilter "g1" ["d1"; "d2"] true (Some [Num 0; Num 1]);
    sampleFilter "g2" ["d1"; "d2"] true (Some [Num 1; Num 2]);
    sampleFilter "g3" ["d1"; "d2"] true (Some [Num 2; Num 3]);
    sampleFilter "g" ["d1"; "d2"] true (Some [Num 3; Unset]) ].

(** The number of filters of [pre] that ask for GPU mode and include [did]. *)
Definition gpuCount (pre : list Filter) (did : string) : nat :=
  length (List.filter (fun g => gpu g && includes (dataId g) did) pre).

(** The number that the loop reads for dataset [did]; a counter that is
    missing or is not a number reads as zero. *)
Definition counterValue (m : gmap string counter) (did : string) : nat :=
  match readCounter m did with
  | Some (CountNum c) => c
  | _ => 0%nat
  end.

(** The counters hold numbers for the dataset ids that [Object.prototype]
    does not name, and read as a value that is not a number for those it
    names. *)
Definition numericCounters (m : gmap string counter) : Prop :=
  forall did, readCounter m did = Some CountOther <-> inherited did = true.

(** No dataset id of the collection is the name of a property of
    [Object.prototype]. *)
Definition plainDatasets (filters : list Filter) : Prop :=
  Forall (fun f => Forall (fun did => inherited did = false) (dataId f)) filters.

(** The counters after the filters of [pre]: a counter stops at [MAX]. *)
Definition countsFor (MAX : nat) (pre : list Filter) (m : gmap string counter)
    : Prop :=
  numericCounters m
  /\ forall did, inherited did = false ->
       counterValue m did = Nat.min MAX (gpuCount pre did).

(** The admission rule as the specification words it: a filter keeps [gpu]
    true exactly when it asked for it and, for each of its datasets, fewer
    than [MAX] filters before it asked for GPU mode on that dataset. *)
Definition firstComeKeepsGpu (MAX : nat) (filters : list Filter) : Prop :=
  forall i f, filters !! i = Some f ->
    exists f', resetFilterGpuMode MAX filters !! i = Some f'
      /\ (gpu f' = true <->
          gpu f = true
          /\ forall did, did ∈ dataId f -> (gpuBefore filters i did < MAX)%nat).

(** Three filters on dataset [d]; the first lists it three times. *)
Definition repeatedDataset : list Filter :=
  [ sampleFilter "A" ["d"; "d"; "d"] true None;
    sampleFilter "B" ["d"] true None;
    sampleFilter "C" ["d"] true None ].

(** Position [k] of the array [gc] can be served for dataset [did]: it holds
    a finite channel that no other filter holds, or some channel below
    [MAX] is free. *)
Definition placeable (MAX : nat) (filter : Filter) (filters : list Filter)
    (did : string) (gc : list slot) (k : nat) : Prop :=
  (exists c, js_get gc k = Num c /\ conflict filter filters did c = false)
  \/ (exists i, (i < MAX)%nat /\ conflict filter filters did (Z.of_nat i) = false).

(** The all-or-nothing rule as the specification words it, for a filter in
    GPU mode: when [dataId] is empty or a position of [dataId] ends without
    a finite channel, the result has [gpu] false and no channels; otherwise
    [gpu] stays true and every position of [dataId] has a finite channel. *)
Definition allOrNothing (MAX : nat) (filter : Filter) (filters : list Filter)
    : Prop :=
  let W := placedChannels MAX filter filters in
  let r := assignGpuChannel MAX filter filters in
  let unserved :=
    dataId filter = []
    \/ exists k, (k < length (dataId filter))%nat /\ isFinite (js_get W k) = false in
  (unserved ->
     gpu r = false /\ (gpuChannel r = None \/ gpuChannel r = Some []))
  /\ (~ unserved ->
     gpu r = true
     /\ exists gc, gpuChannel r = Some gc
          /\ forall k, (k < length (dataId filter))%nat ->
               exists c, gc !! k = Some (Num c)).

(** A filter on [d1] and [d2] whose two channels are still unset. *)
Definition halfServedFilter : Filter :=
  sampleFilter "x" ["d1"; "d2"] true (Some [Unset; Unset]).

(** No dataset is asked for by more than [MAX] filters in GPU mode. *)
Definition withinCapacity (MAX : nat) (filters : list Filter) : Prop :=
  forall did, (gpuCount filters did <= MAX)%nat.

(** [a] stands where [f] stood: same id and datasets, and in GPU mode only
    if [f] was. *)
Definition sameShape (f a : Filter) : Prop :=
  id a = id f /\ dataId a = dataId f /\ (gpu a = true -> gpu f = true).

(** No two filters at different positions of [accu], both in GPU mode, hold
    the same channel of one dataset. *)
Definition placedInjective (n : nat) (accu : list Filter) : Prop :=
  forall j1 j2 a1 a2 did c,
    (j1 < n)%nat -> (j2 < n)%nat -> j1 <> j2 ->
    accu !! j1 = Some a1 -> accu !! j2 = Some a2 ->
    gpu a1 = true -> gpu a2 = true ->
    channelAt a1 did c -> channelAt a2 did c -> False.

(** Filter [a] is settled in [accu]: if it is in GPU mode, its channel array
    passes the final test of [assignGpuChannel] and holds, at every position
    of [dataId], a finite channel that no other filter of [accu] holds. *)
Definition settled (a : Filter) (accu : list Filter) : Prop :=
  gpu a = true ->
  exists W, gpuChannel a = Some W /\ W <> [] /\ every_isFinite W = true
    /\ forall k did, dataId a !! k = Some did ->
          exists c, W !! k = Some (Num c) /\ conflict a accu did c = false.

(** Two filters on dataset [d]; the first lists it twice, with a channel for
    each occurrence. *)
Definition twiceListedDataset : list Filter :=
  [ sampleFilter "f" ["d"; "d"] true (Some [Num 1; Num 0]);
    sampleFilter "h" ["d"] true None ].

(** What [assignGpuChannels] may change in a filter: [a] stands where [f]
    stood with every field but [gpu] and [gpuChannel] as in [f]; [gpu] is
    never raised, and a filter in CPU mode is returned as it is. *)
Definition allocFrame (f a : Filter) : Prop :=
  id a = id f /\ dataId a = dataId f /\ domain a = domain f
  /\ value a = value f /\ fieldIdx a = fieldIdx f
  /\ mappedValue a = mappedValue f /\ name a = name f
  /\ (gpu a = true -> gpu f = true)
  /\ (gpu f = false -> a = f).

(** The array of a filter passes the final test of [assignGpuChannel]: it is
    there, it is not empty and it stores no value that is not a finite
    number. *)
Definition passesFinalTest (a : Filter) : Prop :=
  exists gc, gpuChannel a = Some gc /\ gc <> [] /\ Unset ∉ gc.

(** The entry of the range table for a channel, from the filter found for
    it. *)
Definition rangeOf (flt : option Filter) : Z * Z :=
  match flt with
  | Some f => (fst (value f) - fst (domain f), snd (value f) - fst (domain f))
  | None => (0, 0)
  end.

(** The update trigger of a channel, from the filter found for it. *)
Definition triggerOf (did : string) (flt : option Filter) : trigger :=
  match flt with
  | Some f =>
      match name f !! Z.to_nat (indexOf (dataId f) did) with
      | Some n => TName n
      | None => TUndefined
      end
  | None => TNull
  end.

(** ** Basic facts on lists of dataset ids *)

Lemma includes_elem_of (l : list string) (x : string) :
  includes l x = true <-> x ∈ l.
Proof.
  unfold includes. rewrite existsb_exists. split.
  - intros (y & Hy & Heq). apply String.eqb_eq in Heq. subst y.
    now apply list_elem_of_In.
  - intros Hx. exists x. split; [now apply list_elem_of_In | apply String.eqb_refl].
Qed.

Lemma indexOf_lower (l : list string) (x : string) : -1 <= indexOf l x.
Proof.
  induction l as [|y l IH]; simpl; [lia|].
  destruct (String.eqb y x); [lia|].
  destruct (indexOf l x <? 0) eqn:E; [lia|]. apply Z.ltb_ge in E. lia.
Qed.

Lemma indexOf_position (l : list string) (x : string) (k : nat) :
  indexOf l x = Z.of_nat k <-> positionOf l x k.
Proof.
  revert k. induction l as [|y l IH]; intros k; simpl.
  - split; [lia|]. intros [H _]. now rewrite lookup_nil in H.
  - destruct (String.eqb y x) eqn:E.
    + apply String.eqb_eq in E. subst y. split.
      * intros Hk. assert (k = 0%nat) as -> by lia.
        split; [reflexivity|]. intros j Hj. lia.
      * intros [Hk Hmin]. destruct k as [|k]; [reflexivity|].
        exfalso. apply (Hmin 0%nat); [lia|reflexivity].
    + apply String.eqb_neq in E.
      pose proof (indexOf_lower l x) as Hlow.
      destruct (indexOf l x <? 0) eqn:E0.
      * apply Z.ltb_lt in E0. split; [lia|].
        intros [Hk Hmin]. destruct k as [|k]; [simpl in Hk; congruence|].
        simpl in Hk.
        assert (positionOf l x k) as Hp.
        { split; [exact Hk|]. intros j Hj. apply (Hmin (Datatypes.S j)). lia. }
        apply IH in Hp. lia.
      * apply Z.ltb_ge in E0. split.
        -- intros Hk. destruct k as [|k]; [lia|].
           assert (indexOf l x = Z.of_nat k) as Hk' by lia.
           apply IH in Hk'. destruct Hk' as [Hk1 Hk2]. split; [exact Hk1|].
           intros [|j] Hj; simpl; [congruence|]. apply Hk2. lia.
        -- intros [Hk Hmin]. destruct k as [|k]; [simpl in Hk; congruence|].
           simpl in Hk.
           assert (positionOf l x k) as Hp.
           { split; [exact Hk|]. intros j Hj. apply (Hmin (Datatypes.S j)). lia. }
           apply IH in Hp. lia.
Qed.

Lemma indexOf_absent (l : list string) (x : string) :
  indexOf l x = -1 <-> x ∉ l.
Proof.
  induction l as [|y l IH]; simpl.
  - split; [intros _; apply not_elem_of_nil | reflexivity].
  - destruct (String.eqb y x) eqn:E.
    + apply String.eqb_eq in E. subst y. split; [lia|].
      intros H. exfalso. apply H. left.
    + apply String.eqb_neq in E. pose proof (indexOf_lower l x) as Hlow.
      rewrite not_elem_of_cons.
      destruct (indexOf l x <? 0) eqn:E0.
      * apply Z.ltb_lt in E0. split; [|reflexivity].
        intros _. split; [congruence|]. apply IH. lia.
      * apply Z.ltb_ge in E0. split; [lia|]. intros [_ H]. apply IH in H. lia.
Qed.

Lemma js_get_Num (a : list slot) (i : nat) (c : Z) :
  js_get a i = Num c <-> a !! i = Some (Num c).
Proof.
  unfold js_get. destruct (a !! i) as [[| |c']|]; split; congruence.
Qed.

(** ** The channel conflict check *)

Lemma findGpuChannel_spec (filter : Filter) (did : string) (channel : Z)
    (f : Filter) :
  findGpuChannel filter did channel f = true <->
  id f <> id filter /\ gpu f = true /\ did ∈ dataId f /\
  exists k, positionOf (dataId f) did k /\
            arrayfy (gpuChannel f) !! k = Some (Num channel).
Proof.
  unfold findGpuChannel. rewrite !andb_true_iff, negb_true_iff.
  rewrite String.eqb_neq, Z.ltb_lt.
  pose proof (indexOf_lower (dataId f) did) as Hlow.
  split.
  - intros [[[Hid Hidx] Hgpu] Heq].
    assert (indexOf (dataId f) did = Z.of_nat (Z.to_nat (indexOf (dataId f) did)))
      as Hk by lia.
    apply indexOf_position in Hk.
    split; [exact Hid|]. split; [exact Hgpu|]. split.
    + destruct Hk as [Hk _]. apply list_elem_of_lookup. eauto.
    + exists (Z.to_nat (indexOf (dataId f) did)). split; [exact Hk|].
      unfold strict_eq_num in Heq.
      destruct (js_get _ _) as [| |c] eqn:Hget; try discriminate.
      apply Z.eqb_eq in Heq. subst c. now apply js_get_Num.
  - intros (Hid & Hgpu & _ & k & Hk & Hch).
    apply indexOf_position in Hk. rewrite Hk, Nat2Z.id.
    apply js_get_Num in Hch. rewrite Hch. simpl.
    rewrite Z.eqb_refl. repeat split; try assumption. lia.
Qed.

Lemma conflict_true_iff (filter : Filter) (filters : list Filter)
    (did : string) (channel : Z) :
  conflict filter filters did channel = true <->
  exists f, f ∈ filters /\ findGpuChannel filter did channel f = true.
Proof.
  unfold conflict. split.
  - destruct (find _ filters) as [f|] eqn:E; [|discriminate].
    intros _. apply find_some in E. destruct E as [Hin Hf].
    exists f. split; [now apply list_elem_of_In | exact Hf].
  - intros (f & Hin & Hf). destruct (find _ filters) as [g|] eqn:E; [reflexivity|].
    apply list_elem_of_In in Hin.
    pose proof (find_none _ _ E f Hin) as Hno. congruence.
Qed.

Lemma conflict_false_iff (filter : Filter) (filters : list Filter)
    (did : string) (channel : Z) :
  conflict filter filters did channel = false <->
  forall f, f ∈ filters -> findGpuChannel filter did channel f = false.
Proof.
  rewrite <- not_true_iff_false, conflict_true_iff. split.
  - intros Hno f Hin. apply not_true_iff_false. intros Hf. apply Hno. eauto.
  - intros Hall (f & Hin & Hf). rewrite (Hall f Hin) in Hf. discriminate.
Qed.

(** C7. The conflict check of the allocator, for a dataset, a candidate
    channel, the filter collection and the filter being placed, answers true
    exactly when some filter of the collection with another id asks for GPU
    mode, includes the dataset, and holds the candidate channel at the
    position of that dataset; a collection made of filters with the id of
    the one being placed, the filter itself above all, never conflicts. *)
Theorem conflict_iff_other_filter_holds_channel (filter : Filter)
    (filters : list Filter) (did : string) (channel : Z) :
  (conflict filter filters did channel = true <->
   exists f, f ∈ filters /\ id f <> id filter /\ gpu f = true /\
             did ∈ dataId f /\
             exists k, positionOf (dataId f) did k /\
                       arrayfy (gpuChannel f) !! k = Some (Num channel))
  /\ conflict filter [filter] did channel = false
  /\ conflict filter
       (List.filter (fun f => String.eqb (id f) (id filter)) filters)
       did channel = false.
Proof.
  split; [|split].
  - rewrite conflict_true_iff. split.
    + intros (f & Hin & Hf). exists f. split; [exact Hin|].
      now apply findGpuChannel_spec.
    + intros (f & Hin & Hf). exists f. split; [exact Hin|].
      now apply findGpuChannel_spec.
  - apply conflict_false_iff. intros f Hin.
    apply list_elem_of_singleton in Hin. subst f.
    unfold findGpuChannel. now rewrite String.eqb_refl.
  - apply conflict_false_iff. intros f Hin.
    apply list_elem_of_In, filter_In in Hin. destruct Hin as [_ Heq].
    unfold findGpuChannel. now rewrite Heq.
Qed.

(** ** setFilterGpuMode on a dataset whose channels are all taken *)

Lemma setFilterGpuMode_id (MAX : nat) (filter : Filter) (filters : list Filter) :
  setFilterGpuMode MAX filter filters = filter.
Proof. reflexivity. Qed.

(** C4. A filter that asks for GPU mode on dataset [d1], while four other
    filters in GPU mode already touch [d1] and [MAX_GPU_FILTERS] is four,
    comes back from [setFilterGpuMode] with [gpu] still true: the copy with
    [gpu] false is made inside the [forEach] callback and dropped, and the
    function returns its argument whatever the collection is. *)
Theorem setFilterGpuMode_full_dataset_keeps_gpu :
  let filter := sampleFilter "e" ["d1"] true None in
  let filters := fullDataset "d1" in
  length (List.filter (fun f => includes (dataId f) "d1" && gpu f) filters)
    = MAX_GPU_FILTERS_default
  /\ gpu filter = true
  /\ gpu (setFilterGpuMode MAX_GPU_FILTERS_default filter filters) = true
  /\ setFilterGpuMode MAX_GPU_FILTERS_default filter filters = filter.
Proof. repeat split. Qed.

(** ** resetFilterGpuMode only lowers [gpu] *)

Lemma resetOne_lowered (MAX : nat) (f : Filter) (m : gmap string counter) :
  gpuOnlyLowered f (fst (resetOne MAX f m)).
Proof.
  unfold resetOne. destruct (gpu f) eqn:Hg.
  - destruct (forEach (countDataset MAX) (dataId f) (true, m)) as [g counts].
    destruct g; simpl.
    + unfold gpuOnlyLowered. rewrite Hg. repeat split; auto.
    + unfold gpuOnlyLowered. rewrite Hg. repeat split; auto.
  - simpl. unfold gpuOnlyLowered. repeat split; auto.
Qed.

Lemma resetFilterGpuMode_from_lowered (MAX : nat) (filters : list Filter) :
  forall m, Forall2 gpuOnlyLowered filters (resetFilterGpuMode_from MAX filters m).
Proof.
  induction filters as [|f rest IH]; intros m; simpl; [constructor|].
  pose proof (resetOne_lowered MAX f m) as H1.
  destruct (resetOne MAX f m) as [f' counts]. simpl in H1.
  constructor; [exact H1 | apply IH].
Qed.

(** C10. [resetFilterGpuMode] returns a collection of the same length and
    order whose elements are the original filters, some with [gpu] lowered
    from true to false: [gpu] never goes from false to true and no other
    field of any filter changes. *)
Theorem resetFilterGpuMode_frame (MAX : nat) (filters : list Filter) :
  length (resetFilterGpuMode MAX filters) = length filters
  /\ Forall2 gpuOnlyLowered filters (resetFilterGpuMode MAX filters).
Proof.
  pose proof (resetFilterGpuMode_from_lowered MAX filters ∅) as H.
  split; [|exact H]. symmetry. exact (Forall2_length _ _ _ H).
Qed.

(** ** The loop of getGpuFilterProps *)

Lemma propsLoop_channels (filters : list Filter) (did : string) (n : nat) :
  forall i st st',
    propsLoop filters did i n st = Ok st' ->
    length (stChannels st') = (length (stChannels st) + n)%nat
    /\ (forall j, (j < length (stChannels st))%nat ->
          stChannels st' !! j = stChannels st !! j)
    /\ (forall j, (j < n)%nat ->
          exists flt, findChannelFilter filters did (i + j) = Ok flt
                      /\ stChannels st' !! (length (stChannels st) + j)%nat = Some flt).
Proof.
  induction n as [|n IH]; intros i st st' H; simpl in H.
  - inversion H; subst st'. split; [lia|]. split; [reflexivity|]. intros j Hj. lia.
  - destruct (findChannelFilter filters did i) as [flt|] eqn:Hfind; [|discriminate].
    apply IH in H. destruct H as (Hlen & Hold & Hnew).
    simpl in Hlen, Hold, Hnew. rewrite length_app in Hlen, Hold, Hnew.
    simpl in Hlen, Hold, Hnew.
    split; [lia|]. split.
    + intros j Hj. rewrite Hold by lia. now apply lookup_app_l.
    + intros [|j] Hj.
      * exists flt. rewrite Nat.add_0_r. split; [exact Hfind|].
        rewrite Nat.add_0_r, Hold by lia.
        rewrite lookup_app_r by lia. now rewrite Nat.sub_diag.
      * destruct (Hnew j ltac:(lia)) as (flt' & Hf' & Hl').
        exists flt'. split.
        -- now replace (i + Datatypes.S j)%nat with (Datatypes.S i + j)%nat by lia.
        -- now replace (length (stChannels st) + Datatypes.S j)%nat
             with (length (stChannels st) + 1 + j)%nat by lia.
Qed.

Lemma propsLoop_no_filters (did : string) (n : nat) :
  forall i st,
    exists st',
      propsLoop [] did i n st = Ok st'
      /\ stChannels st' = (stChannels st ++ replicate n None)%list
      /\ length (stRange st') = length (stRange st)
      /\ (Forall (fun r => r = (0, 0)) (stRange st) ->
          Forall (fun r => r = (0, 0)) (stRange st'))
      /\ (forall k, is_Some (stTriggers st !! k) -> is_Some (stTriggers st' !! k))
      /\ (forall j, (i <= j < i + n)%nat -> is_Some (stTriggers st' !! triggerKey j))
      /\ ((forall k v, stTriggers st !! k = Some v -> v = TNull) ->
          forall k v, stTriggers st' !! k = Some v -> v = TNull).
Proof.
  induction n as [|n IH]; intros i st; simpl.
  - exists st. rewrite app_nil_r. repeat split; auto. intros j Hj. lia.
  - destruct (IH (Datatypes.S i) (propsStep did i None st))
      as (st' & Hrun & Hch & Hlen & Hzero & Hkeep & Hkeys & Hnull).
    exists st'. split; [exact Hrun|]. simpl in *. split.
    { rewrite Hch, <- app_assoc. reflexivity. }
    split. { rewrite Hlen. apply length_insert. }
    split.
    { intros Hall. apply Hzero.
      apply Forall_forall. intros r Hr.
      apply list_elem_of_lookup in Hr.
      destruct Hr as [j Hj].
      destruct (decide (i = j)) as [->|Hne].
      - destruct (decide (j < length (stRange st))%nat) as [Hlt|Hge].
        + rewrite list_lookup_insert_eq in Hj by exact Hlt. congruence.
        + rewrite list_insert_ge in Hj by lia.
          rewrite Forall_forall in Hall. apply Hall.
          apply list_elem_of_lookup. eauto.
      - rewrite list_lookup_insert_ne in Hj by exact Hne.
        rewrite Forall_forall in Hall. apply Hall.
        apply list_elem_of_lookup. eauto. }
    split.
    { intros k Hk. apply Hkeep. rewrite lookup_insert.
      case_decide; [eauto | exact Hk]. }
    split.
    { intros j Hj. destruct (decide (j = i)) as [->|Hne].
      - apply Hkeep. rewrite lookup_insert_eq. eauto.
      - apply Hkeys. lia. }
    intros Hall. apply Hnull. intros k v. rewrite lookup_insert.
    case_decide; [congruence | apply Hall].
Qed.

Lemma accessor_no_filters {D : Type} (n : nat) (getIndex : D -> nat)
    (getData : D -> list cell) (d : D) :
  getFilterValueAccessor (replicate n None) getIndex getData d = replicate n 0.
Proof.
  unfold getFilterValueAccessor. induction n as [|n IH]; simpl; [reflexivity|].
  now rewrite IH.
Qed.

(** C8. [getGpuFilterProps] on the empty collection, for any dataset id,
    returns a range table of [MAX_GPU_FILTERS] entries, all [[0, 0]], maps
    every key [gpuFilter_0] .. [gpuFilter_(MAX_GPU_FILTERS - 1)] to the null
    marker (and nothing to anything else), and a value accessor that yields
    [MAX_GPU_FILTERS] zeros for every row, with any pair of readers. *)
Theorem getGpuFilterProps_no_filters (MAX : nat) (D : Type) (did : string) :
  exists props,
    getGpuFilterProps MAX D [] did = Ok props
    /\ length (filterRange props) = MAX
    /\ filterRange props = replicate MAX (0, 0)
    /\ (forall i, (i < MAX)%nat ->
          filterValueUpdateTriggers props !! triggerKey i = Some TNull)
    /\ (forall k v, filterValueUpdateTriggers props !! k = Some v -> v = TNull)
    /\ (forall getIndex getData d,
          filterValueAccessor props getIndex getData d = replicate MAX 0).
Proof.
  unfold getGpuFilterProps.
  destruct (propsLoop_no_filters did MAX 0
              {| stRange := getEmptyFilterRange MAX; stTriggers := ∅;
                 stChannels := [] |})
    as (st' & Hrun & Hch & Hlen & Hzero & _ & Hkeys & Hnull).
  rewrite Hrun. simpl in *. eexists. split; [reflexivity|]. simpl.
  unfold getEmptyFilterRange in *. rewrite length_replicate in Hlen.
  assert (forall k v, stTriggers st' !! k = Some v -> v = TNull) as Hnull'.
  { apply Hnull. intros k v Hk. now rewrite lookup_empty in Hk. }
  split; [exact Hlen|]. split.
  { symmetry. apply replicate_as_Forall. split; [exact Hlen|].
    specialize (Hzero (Forall_replicate _ _ _ eq_refl)).
    eapply Forall_impl; [exact Hzero|]. intros r Hr. now symmetry. }
  split.
  { intros i Hi. destruct (Hkeys i ltac:(lia)) as [v Hv].
    rewrite Hv. f_equal. eapply Hnull'. exact Hv. }
  split; [exact Hnull'|].
  intros getIndex getData d. rewrite Hch. apply accessor_no_filters.
Qed.

(** ** The value accessor on an occupied channel *)

Lemma accessor_lookup {D : Type} (channels : list (option Filter))
    (getIndex : D -> nat) (getData : D -> list cell) (d : D) (i : nat)
    (f : Filter) :
  channels !! i = Some (Some f) ->
  getFilterValueAccessor channels getIndex getData d !! i =
    Some (match rowValue f getIndex getData d with
          | CNum v => v - fst (domain f)
          | _ => MIN_SAFE_INTEGER
          end).
Proof.
  unfold getFilterValueAccessor. revert i.
  induction channels as [|ch channels IH]; intros [|i] H; simpl in *;
    try discriminate.
  - inversion H; subst ch. unfold rowValue.
    destruct (mappedValue f) as [mapped|].
    + destruct (default CUndefined (mapped !! getIndex d)); reflexivity.
    + destruct (default CUndefined (getData d !! fieldIdx f)); reflexivity.
  - now apply IH.
Qed.

Lemma accessor_length {D : Type} (channels : list (option Filter))
    (getIndex : D -> nat) (getData : D -> list cell) (d : D) :
  length (getFilterValueAccessor channels getIndex getData d) = length channels.
Proof. unfold getFilterValueAccessor. apply length_map. Qed.

Lemma findChannelFilter_found (filters : list Filter) (did : string) (i : nat)
    (f : Filter) :
  findChannelFilter filters did i = Ok (Some f) ->
  f ∈ filters /\ gpu f = true /\ did ∈ dataId f
  /\ exists k, positionOf (dataId f) did k
               /\ arrayfy (gpuChannel f) !! k = Some (Num (Z.of_nat i)).
Proof.
  induction filters as [|g rest IH]; simpl; [discriminate|].
  destruct (gpu g && includes (dataId g) did) eqn:Hg.
  - destruct (gpuChannel g) as [gc|] eqn:Hgc; [|discriminate].
    destruct (strict_eq_num _ _) eqn:Heq.
    + intros H. injection H as <-.
      apply andb_true_iff in Hg. destruct Hg as [Hgpu Hinc].
      apply includes_elem_of in Hinc.
      split; [left|]. split; [exact Hgpu|]. split; [exact Hinc|].
      pose proof (indexOf_lower (dataId g) did) as Hlow.
      assert (indexOf (dataId g) did <> -1) as Hpres
        by (intros Habs; apply indexOf_absent in Habs; contradiction).
      exists (Z.to_nat (indexOf (dataId g) did)). split.
      * apply indexOf_position. lia.
      * rewrite Hgc. simpl. unfold strict_eq_num in Heq.
        destruct (js_get gc _) as [| |c] eqn:Hget; try discriminate.
        apply Z.eqb_eq in Heq. subst c. now apply js_get_Num.
    + intros H. destruct (IH H) as (Hin & Hrest). split; [now right | exact Hrest].
  - intros H. destruct (IH H) as (Hin & Hrest). split; [now right | exact Hrest].
Qed.

(** C9. When channel [i] of a dataset is occupied by filter [f] (the filter
    that [getGpuFilterProps] finds for it: one in GPU mode that holds channel
    [i] of the dataset), the value accessor that [getGpuFilterProps] returns
    yields at position [i], for a row whose field value (read from
    [mappedValue] when the filter has one, from the raw fields at [fieldIdx]
    otherwise) is null or undefined, the sentinel [Number.MIN_SAFE_INTEGER],
    whatever the domain; for a row with a value, the value minus the lower
    end of the domain of [f]. It is total: every row gets a sequence of
    [MAX_GPU_FILTERS] numbers. *)
Theorem accessor_occupied_channel (MAX : nat) (D : Type)
    (filters : list Filter) (did : string) (props : GpuFilterProps D)
    (i : nat) (f : Filter) (getIndex : D -> nat) (getData : D -> list cell)
    (d : D) :
  getGpuFilterProps MAX D filters did = Ok props ->
  (i < MAX)%nat ->
  findChannelFilter filters did i = Ok (Some f) ->
  (f ∈ filters /\ gpu f = true /\ channelAt f did (Z.of_nat i))
  /\ length (filterValueAccessor props getIndex getData d) = MAX
  /\ (rowValue f getIndex getData d = CUndefined \/
      rowValue f getIndex getData d = CNull ->
      filterValueAccessor props getIndex getData d !! i = Some MIN_SAFE_INTEGER)
  /\ (forall v, rowValue f getIndex getData d = CNum v ->
      filterValueAccessor props getIndex getData d !! i
        = Some (v - fst (domain f))).
Proof.
  unfold getGpuFilterProps. intros Hprops Hi Hocc.
  destruct (propsLoop filters did 0 MAX _) as [st|] eqn:Hrun; [|discriminate].
  inversion Hprops; subst props; clear Hprops. simpl.
  apply propsLoop_channels in Hrun. simpl in Hrun.
  destruct Hrun as (Hlen & _ & Hnew).
  destruct (Hnew i Hi) as (flt & Hfind & Hlook). simpl in Hfind, Hlook.
  rewrite Hocc in Hfind. inversion Hfind; subst flt; clear Hfind.
  pose proof (accessor_lookup (stChannels st) getIndex getData d i f Hlook) as Hval.
  split.
  { destruct (findChannelFilter_found filters did i f Hocc) as (H1 & H2 & _ & H3).
    split; [exact H1|]. split; [exact H2 | exact H3]. }
  split; [now rewrite accessor_length|]. split.
  - intros [Hu|Hn]; rewrite Hval; [now rewrite Hu | now rewrite Hn].
  - intros v Hv. now rewrite Hval, Hv.
Qed.

(** ** The scenario of the specification *)

(** C6. In the scenario of the specification, with [MAX_GPU_FILTERS] four
    and no channel assigned beforehand, [assignGpuChannels] gives [F1] the
    channels [[0]] and [F2] the channels [[1]], and [getGpuFilterProps] for
    dataset [d1] then returns the range table [[10,20]], [[5,15]], [[0,0]],
    [[0,0]]; this holds whatever the names, field indices and mapped values
    of the two filters are. *)
Theorem scenario_channels_and_ranges (D : Type) (x1 x2 : nat)
    (m1 m2 : option (list cell)) (n1 n2 : list string) :
  let F1 := scenarioFilter "F1" (0, 100) (10, 20) x1 m1 n1 in
  let F2 := scenarioFilter "F2" (0, 50) (5, 15) x2 m2 n2 in
  assignGpuChannels MAX_GPU_FILTERS_default [F1; F2]
    = [ set_gpuChannel (Some [Num 0]) F1; set_gpuChannel (Some [Num 1]) F2 ]
  /\ exists props,
       getGpuFilterProps MAX_GPU_FILTERS_default D
         (assignGpuChannels MAX_GPU_FILTERS_default [F1; F2]) "d1"
         = Ok props
       /\ filterRange props = [(10, 20); (5, 15); (0, 0); (0, 0)].
Proof.
  intros F1 F2.
  assert (assignGpuChannels MAX_GPU_FILTERS_default [F1; F2]
          = [ set_gpuChannel (Some [Num 0]) F1;
              set_gpuChannel (Some [Num 1]) F2 ]) as Hassign
    by (vm_compute; reflexivity).
  split; [exact Hassign|]. rewrite Hassign.
  eexists. split; [vm_compute; reflexivity | reflexivity].
Qed.

Lemma accessor_occupied_channel_witness :
  let d := {| index := 0; data := [CNull; CNum 7] |} in
  getGpuFilterProps MAX_GPU_FILTERS_default datum scenarioAssigned "d1"
    = Ok scenarioProps
  /\ (0 < MAX_GPU_FILTERS_default)%nat
  /\ findChannelFilter scenarioAssigned "d1" 0
       = Ok (Some (set_gpuChannel (Some [Num 0]) scenarioF1))
  /\ length (filterValueAccessor scenarioProps defaultGetIndex defaultGetData d)
       = MAX_GPU_FILTERS_default
  /\ filterValueAccessor scenarioProps defaultGetIndex defaultGetData d !! 0%nat
       = Some MIN_SAFE_INTEGER.
Proof.
  intros d.
  assert (getGpuFilterProps MAX_GPU_FILTERS_default datum scenarioAssigned "d1"
            = Ok scenarioProps) as H1 by (vm_compute; reflexivity).
  assert (0 < MAX_GPU_FILTERS_default)%nat as H2 by (unfold MAX_GPU_FILTERS_default; lia).
  assert (findChannelFilter scenarioAssigned "d1" 0
            = Ok (Some (set_gpuChannel (Some [Num 0]) scenarioF1))) as H3
    by reflexivity.
  destruct (accessor_occupied_channel MAX_GPU_FILTERS_default datum
              scenarioAssigned "d1" scenarioProps 0
              (set_gpuChannel (Some [Num 0]) scenarioF1)
              defaultGetIndex defaultGetData d H1 H2 H3) as (_ & Hlen & Hnull & _).
  split; [exact H1|]. split; [exact H2|]. split; [exact H3|].
  split; [exact Hlen|]. apply Hnull. right. reflexivity.
Defined.

(** ** Channels shared on a dataset with more GPU filters than channels *)

Lemma channelAt_single (f : Filter) (did : string) (c : Z) :
  dataId f = [did] -> gpuChannel f = Some [Num c] -> channelAt f did c.
Proof.
  intros Hd Hc. exists 0%nat. rewrite Hd, Hc. split; [|reflexivity].
  split; [reflexivity|]. intros j Hj. lia.
Qed.

(** C1. On [crowdedDataset], whose ids are pairwise distinct and whose
    channel indices all lie below four, [assignGpuChannels] with four
    channels returns the collection as it is: the scan for a free channel
    fails for the third and for the fifth filter, their old channel [2]
    stays in place and passes the final test, so both keep [gpu] true and
    share channel [2] of dataset [d1]. *)
Theorem assignGpuChannels_crowded_dataset_shares_channel :
  NoDup (List.map id crowdedDataset)
  /\ channelsInRange MAX_GPU_FILTERS_default crowdedDataset
  /\ assignGpuChannels MAX_GPU_FILTERS_default crowdedDataset = crowdedDataset
  /\ ~ injectiveChannels (assignGpuChannels MAX_GPU_FILTERS_default crowdedDataset).
Proof.
  split; [|split; [|split]].
  - apply (bool_decide_unpack _). vm_compute. exact I.
  - intros f k c Hf Hk. unfold crowdedDataset, fullDataset in Hf. simpl in Hf.
    unfold MAX_GPU_FILTERS_default.
    repeat (apply elem_of_cons in Hf; destruct Hf as [->|Hf];
            [destruct k as [|k]; simpl in Hk; [inversion Hk; lia | discriminate]|]).
    now apply not_elem_of_nil in Hf.
  - reflexivity.
  - intros Hinj.
    replace (assignGpuChannels MAX_GPU_FILTERS_default crowdedDataset)
      with crowdedDataset in Hinj by reflexivity.
    apply (Hinj "d1" 2
             (sampleFilter "c" ["d1"] true (Some [Num 2]))
             (sampleFilter "e" ["d1"] true (Some [Num 2]))).
    + unfold crowdedDataset, fullDataset. set_solver.
    + unfold crowdedDataset, fullDataset. set_solver.
    + simpl. discriminate.
    + reflexivity.
    + reflexivity.
    + now apply channelAt_single.
    + now apply channelAt_single.
Qed.

(** ** A second pass that moves a channel *)

(** On [unsettledCollection], where five filters in GPU mode share two
    datasets of four channels, a second pass of [assignGpuChannels] changes
    the result of the first. The first pass leaves filter [f] on channel [0]
    of [d1], which [g1] holds too, because every channel of [d1] is taken,
    and turns [g] to CPU mode; that frees channel [3] of [d1], and the
    second pass moves [f] there. *)
Lemma assignGpuChannels_second_pass_moves_channel :
  let once := assignGpuChannels MAX_GPU_FILTERS_default unsettledCollection in
  let twice := assignGpuChannels MAX_GPU_FILTERS_default once in
  (gpuChannel <$> once !! 0%nat) = Some (Some [Num 0; Num 0])
  /\ (gpuChannel <$> twice !! 0%nat) = Some (Some [Num 3; Num 0])
  /\ (gpu <$> once !! 4%nat) = Some false
  /\ twice <> once.
Proof.
  repeat split. vm_compute. discriminate.
Qed.

(** ** resetFilterGpuMode: first come, first served *)

Lemma gpuCount_snoc (pre : list Filter) (f : Filter) (did : string) :
  gpuCount (pre ++ [f]) did =
    (gpuCount pre did + if gpu f && includes (dataId f) did then 1 else 0)%nat.
Proof.
  unfold gpuCount. rewrite List.filter_app, length_app. simpl.
  destruct (gpu f && includes (dataId f) did); reflexivity.
Qed.

Lemma inherited_proto : inherited "__proto__" = true.
Proof. reflexivity. Qed.

Lemma readCounter_write (m : gmap string counter) (did d : string)
    (v : counter) :
  readCounter (writeCounter did v m) d
  = if decide (d = did)
    then (if String.eqb did "__proto__" then readCounter m did else Some v)
    else readCounter m d.
Proof.
  unfold writeCounter. destruct (String.eqb_spec did "__proto__") as [->|Hne].
  - now destruct (decide (d = "__proto__")) as [->|].
  - unfold readCounter. destruct (decide (d = did)) as [->|Hd].
    + now rewrite lookup_insert_eq.
    + now rewrite lookup_insert_ne by congruence.
Qed.

Lemma numericCounters_empty : numericCounters ∅.
Proof.
  intros did. unfold readCounter. rewrite lookup_empty.
  destruct (inherited did); split; congruence.
Qed.

Lemma counterValue_empty (did : string) : counterValue ∅ did = 0%nat.
Proof.
  unfold counterValue, readCounter. rewrite lookup_empty.
  now destruct (inherited did).
Qed.

Lemma numericCounters_write (m : gmap string counter) (did : string)
    (v : counter) :
  numericCounters m -> (v = CountOther <-> inherited did = true) ->
  numericCounters (writeCounter did v m).
Proof.
  intros Hm Hv d. rewrite readCounter_write.
  destruct (decide (d = did)) as [->|Hd]; [|apply Hm].
  destruct (String.eqb did "__proto__"); [apply Hm|].
  rewrite <- Hv. split; congruence.
Qed.

Lemma counterValue_write_number (m : gmap string counter) (did d : string)
    (n : nat) :
  inherited did = false ->
  counterValue (writeCounter did (CountNum n) m) d
  = if decide (d = did) then n else counterValue m d.
Proof.
  intros Hplain. unfold counterValue. rewrite readCounter_write.
  destruct (decide (d = did)) as [->|Hd]; [|reflexivity].
  destruct (String.eqb_spec did "__proto__") as [->|_]; [|reflexivity].
  rewrite inherited_proto in Hplain. discriminate.
Qed.

Lemma counterValue_write_other (m : gmap string counter) (did d : string) :
  numericCounters m -> inherited did = true ->
  counterValue (writeCounter did CountOther m) d = counterValue m d.
Proof.
  intros Hm Hinh. unfold counterValue. rewrite readCounter_write.
  destruct (decide (d = did)) as [->|Hd]; [|reflexivity].
  destruct (String.eqb did "__proto__"); [reflexivity|].
  apply Hm in Hinh. now rewrite Hinh.
Qed.

(** One turn of the loop over [dataId]: the dataset is full and the flag
    goes down, or the counter of the dataset goes up by one; on an id that
    [Object.prototype] names nothing is counted. *)
Lemma countDataset_step (MAX : nat) (did : string) (idx : nat) (g : bool)
    (m : gmap string counter) :
  (0 < MAX)%nat -> numericCounters m ->
  (inherited did = false /\ counterValue m did = MAX
   /\ countDataset MAX did idx (g, m) = (false, m))
  \/ (exists m1,
        countDataset MAX did idx (g, m) = (g, m1)
        /\ numericCounters m1
        /\ (inherited did = false -> counterValue m did <> MAX)
        /\ forall d,
             counterValue m1 d
             = (counterValue m d
                + if decide (d = did)
                  then (if inherited did then 0 else 1) else 0)%nat).
Proof.
  intros Hpos Hm. unfold countDataset.
  pose proof (Hm did) as Hdid.
  assert (counterValue m did
          = match readCounter m did with
            | Some (CountNum c) => c | _ => 0%nat end) as Hcv by reflexivity.
  destruct (readCounter m did) as [[c|]|] eqn:E.
  - assert (inherited did = false) as Hplain.
    { destruct (inherited did); [|reflexivity].
      destruct Hdid as [_ H]. specialize (H eq_refl). discriminate. }
    destruct (decide (Some (CountNum c) = Some (CountNum MAX))) as [Hfull|Hroom].
    + left. injection Hfull as ->. now rewrite Hcv.
    + right. eexists. split; [reflexivity|]. split; [|split].
      * apply numericCounters_write; [exact Hm|].
        rewrite Hplain. destruct c; split; discriminate.
      * intros _. rewrite Hcv. congruence.
      * intros d. rewrite Hplain.
        destruct c as [|c]; rewrite counterValue_write_number by exact Hplain;
          destruct (decide (d = did)) as [->|Hd]; rewrite ?Hcv; lia.
  - assert (inherited did = true) as Hinh by now apply Hdid.
    rewrite decide_False by discriminate.
    right. eexists. split; [reflexivity|]. split; [|split].
    + apply numericCounters_write; [exact Hm|]. now rewrite Hinh.
    + congruence.
    + intros d. rewrite counterValue_write_other by assumption.
      rewrite Hinh. destruct (decide (d = did)); lia.
  - assert (inherited did = false) as Hplain.
    { destruct (inherited did); [|reflexivity].
      destruct Hdid as [_ H]. specialize (H eq_refl). discriminate. }
    rewrite decide_False by discriminate.
    right. eexists. split; [reflexivity|]. split; [|split].
    + apply numericCounters_write; [exact Hm|].
      rewrite Hplain. split; discriminate.
    + intros _. rewrite Hcv. lia.
    + intros d. rewrite Hplain.
      rewrite counterValue_write_number by exact Hplain.
      destruct (decide (d = did)) as [->|Hd]; rewrite ?Hcv; lia.
Qed.

Lemma includes_cons (d0 did : string) (l : list string) :
  includes (d0 :: l) did = String.eqb did d0 || includes l did.
Proof. reflexivity. Qed.

Lemma forEach_countDataset (MAX : nat) (l : list string) :
  (0 < MAX)%nat ->
  forall idx g m,
    NoDup l -> numericCounters m ->
    (forall did, (counterValue m did <= MAX)%nat) ->
    exists g' m',
      forEach_from (countDataset MAX) l idx (g, m) = (g', m')
      /\ numericCounters m'
      /\ (g' = true <->
          g = true
          /\ forall did, did ∈ l -> inherited did = false ->
               (counterValue m did < MAX)%nat)
      /\ (forall did, inherited did = false ->
            counterValue m' did
            = Nat.min MAX (counterValue m did
                           + if includes l did then 1 else 0)).
Proof.
  intros Hpos. induction l as [|d0 l IH]; intros idx g m Hnd Hm Hle;
    cbn [forEach_from].
  - exists g, m. split; [reflexivity|]. split; [exact Hm|]. split.
    + split; [intros ->; split; [reflexivity|] | tauto].
      intros did Hin. now apply not_elem_of_nil in Hin.
    + intros did _. simpl. specialize (Hle did). lia.
  - apply NoDup_cons in Hnd. destruct Hnd as [Hnotin Hnd].
    assert (includes l d0 = false) as Hinc0.
    { apply not_true_iff_false. intros H. now apply includes_elem_of in H. }
    destruct (countDataset_step MAX d0 idx g m Hpos Hm)
      as [(Hplain & Hfull & Hstep)|(m1 & Hstep & Hm1 & Hroom & Hcv)];
      rewrite Hstep.
    + destruct (IH (Datatypes.S idx) false m Hnd Hm Hle)
        as (g' & m' & Hrun & Hm' & Hg & Hcount).
      exists g', m'. split; [exact Hrun|]. split; [exact Hm'|]. split.
      * split.
        -- intros Hg'. apply Hg in Hg'. destruct Hg' as [Hf _]. discriminate.
        -- intros [_ Hall]. specialize (Hall d0 ltac:(left) Hplain). lia.
      * intros did Hd. rewrite (Hcount did Hd), includes_cons.
        destruct (String.eqb_spec did d0) as [->|Hne]; [|reflexivity].
        rewrite Hinc0. simpl. lia.
    + assert (forall did, (counterValue m1 did <= MAX)%nat) as Hle1.
      { intros did. rewrite Hcv. specialize (Hle did).
        destruct (decide (did = d0)) as [->|Hne]; [|lia].
        destruct (inherited d0) eqn:Hinh; [lia|]. specialize (Hroom eq_refl). lia. }
      destruct (IH (Datatypes.S idx) g m1 Hnd Hm1 Hle1)
        as (g' & m' & Hrun & Hm' & Hg & Hcount).
      exists g', m'. split; [exact Hrun|]. split; [exact Hm'|].
      assert (forall did, did ∈ l -> counterValue m1 did = counterValue m did)
        as Hsame.
      { intros did Hd. rewrite Hcv.
        destruct (decide (did = d0)) as [->|Hne]; [contradiction | lia]. }
      split.
      * rewrite Hg. split.
        -- intros [-> Hall]. split; [reflexivity|]. intros did Hd Hplain.
           apply elem_of_cons in Hd. destruct Hd as [->|Hd].
           ++ specialize (Hroom Hplain). specialize (Hle d0). lia.
           ++ rewrite <- Hsame by exact Hd. now apply Hall.
        -- intros [-> Hall]. split; [reflexivity|]. intros did Hd Hplain.
           rewrite Hsame by exact Hd. apply Hall; [now right | exact Hplain].
      * intros did Hd. rewrite (Hcount did Hd), includes_cons, Hcv.
        destruct (String.eqb_spec did d0) as [->|Hne].
        -- rewrite Hinc0, Hd, decide_True by reflexivity. simpl. f_equal. lia.
        -- rewrite decide_False by exact Hne. simpl. f_equal. lia.
Qed.

Lemma resetOne_spec (MAX : nat) (pre : list Filter) (m : gmap string counter)
    (f : Filter) :
  (0 < MAX)%nat -> countsFor MAX pre m -> NoDup (dataId f) ->
  countsFor MAX (pre ++ [f]) (snd (resetOne MAX f m))
  /\ (gpu (fst (resetOne MAX f m)) = true <->
      gpu f = true
      /\ forall did, did ∈ dataId f -> inherited did = false ->
           (gpuCount pre did < MAX)%nat).
Proof.
  intros Hpos [Hm Hinv] Hnd. unfold resetOne.
  assert (forall did, (counterValue m did <= MAX)%nat) as Hle.
  { intros did. destruct (inherited did) eqn:Hinh.
    - unfold counterValue. apply Hm in Hinh. rewrite Hinh. lia.
    - rewrite (Hinv did Hinh). lia. }
  destruct (gpu f) eqn:Hgpu.
  - destruct (forEach_countDataset MAX (dataId f) Hpos 0 true m Hnd Hm Hle)
      as (g' & m' & Hrun & Hm' & Hg & Hcount).
    unfold forEach. rewrite Hrun.
    assert (g' = true <->
            forall did, did ∈ dataId f -> inherited did = false ->
              (gpuCount pre did < MAX)%nat) as Hg'.
    { rewrite Hg. split.
      - intros [_ Hall] did Hd Hplain. specialize (Hall did Hd Hplain).
        rewrite (Hinv did Hplain) in Hall. lia.
      - intros Hall. split; [reflexivity|]. intros did Hd Hplain.
        rewrite (Hinv did Hplain). specialize (Hall did Hd Hplain). lia. }
    assert (countsFor MAX (pre ++ [f]) m') as Hcounts.
    { split; [exact Hm'|]. intros did Hplain.
      rewrite (Hcount did Hplain), (Hinv did Hplain), gpuCount_snoc, Hgpu. simpl.
      destruct (includes (dataId f) did); lia. }
    split.
    + destruct g'; exact Hcounts.
    + destruct g'; simpl.
      * rewrite Hgpu. split; [intros _|reflexivity].
        split; [reflexivity|]. now apply Hg'.
      * split; [discriminate|]. intros [_ Hall]. now apply Hg'.
  - simpl. split.
    + split; [exact Hm|]. intros did Hplain.
      rewrite gpuCount_snoc, Hgpu. simpl. rewrite Nat.add_0_r. now apply Hinv.
    + rewrite Hgpu. split; [discriminate | intros [H _]; discriminate].
Qed.

Lemma resetFilterGpuMode_from_spec (MAX : nat) (rest : list Filter) :
  (0 < MAX)%nat ->
  forall pre m,
    countsFor MAX pre m ->
    Forall (fun f => NoDup (dataId f)) rest ->
    forall i f, rest !! i = Some f ->
      exists f', resetFilterGpuMode_from MAX rest m !! i = Some f'
        /\ (gpu f' = true <->
            gpu f = true
            /\ forall did, did ∈ dataId f -> inherited did = false ->
                 (gpuCount (pre ++ take i rest) did < MAX)%nat).
Proof.
  intros Hpos. induction rest as [|f0 rest IH]; intros pre m Hinv Hnd i f Hi.
  - now rewrite lookup_nil in Hi.
  - apply Forall_cons in Hnd. destruct Hnd as [Hnd0 Hnd]. simpl.
    pose proof (resetOne_spec MAX pre m f0 Hpos Hinv Hnd0) as [Hinv' Hflag].
    destruct (resetOne MAX f0 m) as [f0' counts]. simpl in Hinv', Hflag.
    destruct i as [|i]; simpl in Hi |- *.
    + inversion Hi; subst f0. exists f0'. split; [reflexivity|].
      now rewrite app_nil_r.
    + destruct (IH (pre ++ [f0])%list counts Hinv' Hnd i f Hi) as (f' & Hf' & Hiff).
      exists f'. split; [exact Hf'|].
      now rewrite <- app_assoc in Hiff.
Qed.

Lemma countsFor_empty (MAX : nat) : countsFor MAX [] ∅.
Proof.
  split; [apply numericCounters_empty|]. intros did _.
  rewrite counterValue_empty. unfold gpuCount. simpl. lia.
Qed.

(** The admission rule of the code, for every collection without a repeated
    dataset: the datasets that count are those whose id [Object.prototype]
    does not name. *)
Lemma resetFilterGpuMode_admission (MAX : nat) (filters : list Filter) :
  (0 < MAX)%nat ->
  Forall (fun f => NoDup (dataId f)) filters ->
  forall i f, filters !! i = Some f ->
    exists f', resetFilterGpuMode MAX filters !! i = Some f'
      /\ (gpu f' = true <->
          gpu f = true
          /\ forall did, did ∈ dataId f -> inherited did = false ->
               (gpuBefore filters i did < MAX)%nat).
Proof.
  intros Hpos Hnd i f Hi.
  exact (resetFilterGpuMode_from_spec MAX filters Hpos [] ∅
           (countsFor_empty MAX) Hnd i f Hi).
Qed.

Lemma plainDatasets_lookup (filters : list Filter) (i : nat) (f : Filter)
    (did : string) :
  plainDatasets filters -> filters !! i = Some f -> did ∈ dataId f ->
  inherited did = false.
Proof.
  intros Hplain Hf Hd. unfold plainDatasets in Hplain.
  rewrite Forall_lookup in Hplain. specialize (Hplain i f Hf).
  rewrite Forall_forall in Hplain. now apply Hplain.
Qed.

Lemma resetFilterGpuMode_first_come (MAX : nat) (filters : list Filter) :
  (0 < MAX)%nat ->
  Forall (fun f => NoDup (dataId f)) filters ->
  plainDatasets filters ->
  firstComeKeepsGpu MAX filters.
Proof.
  intros Hpos Hnd Hplain i f Hi.
  destruct (resetFilterGpuMode_admission MAX filters Hpos Hnd i f Hi)
    as (f' & Hf' & Hiff).
  exists f'. split; [exact Hf'|]. rewrite Hiff. split.
  - intros [Hg Hall]. split; [exact Hg|]. intros did Hd.
    apply Hall; [exact Hd|]. exact (plainDatasets_lookup filters i f did Hplain Hi Hd).
  - intros [Hg Hall]. split; [exact Hg|]. intros did Hd _. now apply Hall.
Qed.

Lemma resetFilterGpuMode_lookup_lowered (MAX : nat) (filters : list Filter)
    (i : nat) (f f' : Filter) :
  filters !! i = Some f ->
  resetFilterGpuMode MAX filters !! i = Some f' ->
  gpuOnlyLowered f f'.
Proof.
  intros Hf Hf'.
  pose proof (resetFilterGpuMode_from_lowered MAX filters ∅) as Hall.
  destruct (Forall2_lookup_l _ _ _ _ _ Hall Hf) as (g & Hg & Hlow).
  unfold resetFilterGpuMode in Hf'. congruence.
Qed.

Lemma resetFilterGpuMode_three (A B C : Filter) (did : string) :
  Forall (fun f => NoDup (dataId f)) [A; B; C] ->
  plainDatasets [A; B; C] ->
  gpu A = true -> gpu B = true -> gpu C = true ->
  did ∈ dataId A -> did ∈ dataId B -> did ∈ dataId C ->
  resetFilterGpuMode 2 [A; B; C] = [A; B; set_gpu false C].
Proof.
  intros Hnd Hplain HgA HgB HgC HdA HdB HdC.
  assert (0 < 2)%nat as Hpos by lia.
  pose proof (resetFilterGpuMode_first_come 2 [A; B; C] Hpos Hnd Hplain) as Hspec.
  unfold firstComeKeepsGpu in Hspec.
  pose proof (resetFilterGpuMode_from_lowered 2 [A; B; C] ∅) as Hall.
  fold (resetFilterGpuMode 2 [A; B; C]) in Hall.
  destruct (resetFilterGpuMode 2 [A; B; C]) as [|A' [|B' [|C' [|X out]]]];
    try (apply Forall2_length in Hall; simpl in Hall; lia).
  destruct (Hspec 0%nat A eq_refl) as (fA & HA & HiffA).
  destruct (Hspec 1%nat B eq_refl) as (fB & HB & HiffB).
  destruct (Hspec 2%nat C eq_refl) as (fC & HC & HiffC).
  simpl in HA, HB, HC.
  injection HA as <-. injection HB as <-. injection HC as <-.
  apply Forall2_cons in Hall. destruct Hall as [[HlA _] Hall].
  apply Forall2_cons in Hall. destruct Hall as [[HlB _] Hall].
  apply Forall2_cons in Hall. destruct Hall as [[HlC _] _].
  apply includes_elem_of in HdA, HdB, HdC.
  assert (gpu A' = true) as HA'.
  { apply HiffA. split; [exact HgA|]. intros d _. unfold gpuBefore. simpl. lia. }
  assert (gpu B' = true) as HB'.
  { apply HiffB. split; [exact HgB|]. intros d _. unfold gpuBefore. simpl.
    destruct (gpu A && includes (dataId A) d); simpl; lia. }
  assert (gpu C' = false) as HC'.
  { apply not_true_iff_false. intros Ht. apply HiffC in Ht.
    destruct Ht as [_ Hlt]. apply includes_elem_of in HdC.
    specialize (Hlt did HdC). unfold gpuBefore in Hlt. simpl in Hlt.
    rewrite HgA, HgB, HdA, HdB in Hlt. simpl in Hlt. lia. }
  f_equal; [|f_equal; [|f_equal]].
  - destruct HlA as [->|[_ ->]]; [reflexivity | discriminate].
  - destruct HlB as [->|[_ ->]]; [reflexivity | discriminate].
  - destruct HlC as [->|[_ ->]]; [congruence | reflexivity].
Qed.

(** With two channels, the first filter of [repeatedDataset] asks for GPU
    mode before any other filter does and still loses it: each occurrence of
    [d] in its [dataId] takes a place of its own, and so do the places of
    the two filters after it. *)
Lemma resetFilterGpuMode_repeated_dataset :
  Forall (fun f => gpu f = true /\ "d" ∈ dataId f) repeatedDataset
  /\ gpu <$> resetFilterGpuMode 2 repeatedDataset = [false; false; false]
  /\ ~ firstComeKeepsGpu 2 repeatedDataset.
Proof.
  split; [|split].
  - unfold repeatedDataset. repeat constructor.
  - reflexivity.
  - intros H.
    destruct (H 0%nat (sampleFilter "A" ["d"; "d"; "d"] true None) eq_refl)
      as (f' & Hf' & Hiff).
    vm_compute in Hf'. inversion Hf'; subst f'; clear Hf'.
    assert (false = true) as Habs; [|discriminate].
    apply Hiff. split; [reflexivity|]. intros did _.
    unfold gpuBefore. simpl. lia.
Qed.

(** C3 (amended). When [MAX_GPU_FILTERS] is positive, no filter lists a
    dataset twice in its [dataId] and no dataset id is the name of a
    property of [Object.prototype], a filter keeps [gpu] true in the result
    of [resetFilterGpuMode] exactly when it asked for GPU mode and, for each
    of its datasets, it is among the first [MAX_GPU_FILTERS] filters of the
    collection that asked for GPU mode on that dataset; a filter over the
    cap on one of its datasets loses GPU mode altogether. With two channels
    and filters [A], [B], [C] in GPU mode that all touch one dataset, [A]
    and [B] stay as they are and [C] gets [gpu] false. *)
Theorem resetFilterGpuMode_admits_first_comers (MAX : nat)
    (filters : list Filter) :
  (0 < MAX)%nat ->
  Forall (fun f => NoDup (dataId f)) filters ->
  plainDatasets filters ->
  firstComeKeepsGpu MAX filters
  /\ (forall A B C did,
        MAX = 2%nat -> filters = [A; B; C] ->
        gpu A = true -> gpu B = true -> gpu C = true ->
        did ∈ dataId A -> did ∈ dataId B -> did ∈ dataId C ->
        resetFilterGpuMode MAX filters = [A; B; set_gpu false C]).
Proof.
  intros Hpos Hnd Hplain. split.
  - now apply resetFilterGpuMode_first_come.
  - intros A B C did -> -> HgA HgB HgC HdA HdB HdC.
    now apply (resetFilterGpuMode_three A B C did).
Qed.

Lemma resetFilterGpuMode_admits_first_comers_witness :
  let A := sampleFilter "A" ["d"] true None in
  let B := sampleFilter "B" ["d"; "e"] true None in
  let C := sampleFilter "C" ["d"] true None in
  (0 < 2)%nat
  /\ Forall (fun f => NoDup (dataId f)) [A; B; C]
  /\ plainDatasets [A; B; C]
  /\ firstComeKeepsGpu 2 [A; B; C]
  /\ resetFilterGpuMode 2 [A; B; C] = [A; B; set_gpu false C].
Proof.
  intros A B C.
  assert (0 < 2)%nat as Hpos by lia.
  assert (Forall (fun f => NoDup (dataId f)) [A; B; C]) as Hnd
    by (apply (bool_decide_unpack _); vm_compute; exact I).
  assert (plainDatasets [A; B; C]) as Hplain
    by (repeat constructor).
  destruct (resetFilterGpuMode_admits_first_comers 2 [A; B; C] Hpos Hnd Hplain)
    as [Hfirst Hthree].
  split; [exact Hpos|]. split; [exact Hnd|]. split; [exact Hplain|].
  split; [exact Hfirst|].
  apply (Hthree A B C "d"); try reflexivity; subst A B C; simpl; set_solver.
Defined.

(** ** Writes to a channel array *)

Lemma js_get_set_eq (a : list slot) (i : nat) (c : Z) :
  js_get (js_set a i (Num c)) i = Num c.
Proof.
  apply js_get_Num. unfold js_set.
  destruct (decide (i < length a)%nat) as [Hlt|Hge].
  - now apply list_lookup_insert_eq.
  - rewrite lookup_app_r by lia. rewrite lookup_app_r; rewrite length_replicate; [|lia].
    now rewrite Nat.sub_diag.
Qed.

Lemma js_get_set_ne (a : list slot) (i j : nat) (v : slot) :
  i <> j -> js_get (js_set a i v) j = js_get a j.
Proof.
  intros Hne. unfold js_get, js_set.
  destruct (decide (i < length a)%nat) as [Hlt|Hge].
  - now rewrite list_lookup_insert_ne.
  - destruct (decide (j < length a)%nat) as [Hj|Hj].
    + now rewrite lookup_app_l.
    + rewrite (lookup_ge_None_2 a j) by lia.
      rewrite lookup_app_r by lia.
      destruct (decide (j - length a < i - length a)%nat) as [Hin|Hout].
      * rewrite lookup_app_l by (rewrite length_replicate; lia).
        now rewrite lookup_replicate_2.
      * rewrite lookup_app_r by (rewrite length_replicate; lia).
        rewrite length_replicate.
        destruct (j - length a - (i - length a))%nat as [|n] eqn:E; [lia|].
        reflexivity.
Qed.

Lemma length_js_set (a : list slot) (i : nat) (v : slot) :
  length (js_set a i v) = Nat.max (length a) (Datatypes.S i).
Proof.
  unfold js_set. destruct (decide (i < length a)%nat) as [Hlt|Hge].
  - rewrite length_insert. lia.
  - rewrite !length_app, length_replicate. simpl. lia.
Qed.

Lemma every_isFinite_false (a : list slot) :
  every_isFinite a = false <-> Unset ∈ a.
Proof.
  unfold every_isFinite. induction a as [|s a IH]; simpl.
  - split; [discriminate|]. intros H. now apply not_elem_of_nil in H.
  - rewrite elem_of_cons. destruct s; simpl.
    + rewrite IH. split; [now right|]. intros [H|H]; [discriminate | exact H].
    + split; [now left | reflexivity].
    + rewrite IH. split; [now right|]. intros [H|H]; [discriminate | exact H].
Qed.

Lemma every_isFinite_all_Num (a : list slot) :
  (forall k, (k < length a)%nat -> exists c, a !! k = Some (Num c)) ->
  every_isFinite a = true.
Proof.
  intros Hall. apply not_false_iff_true. intros Hf.
  apply every_isFinite_false, list_elem_of_lookup in Hf. destruct Hf as [k Hk].
  destruct (Hall k (lookup_lt_Some _ _ _ Hk)) as [c Hc]. congruence.
Qed.

(** ** The scan for a free channel *)

Lemma firstFree_Some (occupied : Z -> bool) (n : nat) :
  forall start i,
    firstFree occupied start n = Some i ->
    (start <= i < start + n)%nat /\ occupied (Z.of_nat i) = false
    /\ forall j, (start <= j < i)%nat -> occupied (Z.of_nat j) = true.
Proof.
  induction n as [|n IH]; intros start i H; simpl in H; [discriminate|].
  destruct (occupied (Z.of_nat start)) eqn:E; simpl in H.
  - apply IH in H. destruct H as (Hr & Hfree & Hbefore).
    split; [lia|]. split; [exact Hfree|]. intros j Hj.
    destruct (decide (j = start)) as [->|Hne]; [exact E | apply Hbefore; lia].
  - inversion H; subst i. split; [lia|]. split; [exact E|]. intros j Hj. lia.
Qed.

Lemma firstFree_None (occupied : Z -> bool) (n : nat) :
  forall start,
    firstFree occupied start n = None <->
    forall j, (start <= j < start + n)%nat -> occupied (Z.of_nat j) = true.
Proof.
  induction n as [|n IH]; intros start; simpl.
  - split; [intros _ j Hj; lia | reflexivity].
  - destruct (occupied (Z.of_nat start)) eqn:E; simpl.
    + rewrite IH. split.
      * intros H j Hj. destruct (decide (j = start)) as [->|Hne];
          [exact E | apply H; lia].
      * intros H j Hj. apply H. lia.
    + split; [discriminate|]. intros H. specialize (H start ltac:(lia)). congruence.
Qed.

(** ** One step of the allocation loop *)

Lemma placeChannel_get_ne (MAX : nat) (filter : Filter) (filters : list Filter)
    (did : string) (idx j : nat) (gc : list slot) :
  idx <> j -> js_get (placeChannel MAX filter filters did idx gc) j = js_get gc j.
Proof.
  intros Hne. unfold placeChannel.
  destruct (match js_get gc idx with
            | Num c => negb (conflict filter filters did c)
            | _ => false
            end); [reflexivity|].
  destruct (firstFree _ 0 MAX) as [i|]; [|reflexivity].
  now apply js_get_set_ne.
Qed.

Lemma placeChannel_length (MAX : nat) (filter : Filter) (filters : list Filter)
    (did : string) (idx : nat) (gc : list slot) :
  (length gc <= length (placeChannel MAX filter filters did idx gc)
   <= Nat.max (length gc) (Datatypes.S idx))%nat.
Proof.
  unfold placeChannel.
  destruct (match js_get gc idx with
            | Num c => negb (conflict filter filters did c)
            | _ => false
            end); [lia|].
  destruct (firstFree _ 0 MAX) as [i|]; [|lia].
  rewrite length_js_set. lia.
Qed.

Lemma placeChannel_placed (MAX : nat) (filter : Filter) (filters : list Filter)
    (did : string) (idx : nat) (gc : list slot) :
  placeable MAX filter filters did gc idx ->
  exists c, js_get (placeChannel MAX filter filters did idx gc) idx = Num c
            /\ conflict filter filters did c = false.
Proof.
  intros Hp. unfold placeChannel.
  destruct (js_get gc idx) as [| |c] eqn:Hget.
  1, 2: destruct Hp as [(c & Hc & _)|(i & Hi & Hfree)]; [congruence|];
    destruct (firstFree _ 0 MAX) as [i0|] eqn:Hscan;
    [ apply firstFree_Some in Hscan; destruct Hscan as (_ & Hfree0 & _);
      exists (Z.of_nat i0); split; [apply js_get_set_eq | exact Hfree0]
    | exfalso; rewrite firstFree_None in Hscan;
      specialize (Hscan i ltac:(lia)); congruence ].
  destruct (conflict filter filters did c) eqn:Hc; simpl.
  - destruct Hp as [(c' & Hc' & Hfree')|(i & Hi & Hfree)]; [congruence|].
    destruct (firstFree _ 0 MAX) as [i0|] eqn:Hscan.
    + apply firstFree_Some in Hscan. destruct Hscan as (_ & Hfree0 & _).
      exists (Z.of_nat i0). split; [apply js_get_set_eq | exact Hfree0].
    + exfalso. rewrite firstFree_None in Hscan.
      specialize (Hscan i ltac:(lia)). congruence.
  - exists c. split; [exact Hget | exact Hc].
Qed.

Lemma placeChannel_full (MAX : nat) (filter : Filter) (filters : list Filter)
    (did : string) (idx : nat) :
  (forall i, (i < MAX)%nat -> conflict filter filters did (Z.of_nat i) = true) ->
  placeChannel MAX filter filters did idx [] = [].
Proof.
  intros Hfull. unfold placeChannel. simpl.
  destruct (firstFree _ 0 MAX) as [i0|] eqn:Hscan; [|reflexivity].
  apply firstFree_Some in Hscan. destruct Hscan as (Hr & Hfree & _).
  rewrite Hfull in Hfree by lia. discriminate.
Qed.

(** ** The whole loop *)

Lemma forEach_placeChannel (MAX : nat) (filter : Filter) (filters : list Filter)
    (l : list string) :
  forall idx gc,
    let W := forEach_from (placeChannel MAX filter filters) l idx gc in
    (forall j, (j < idx)%nat -> js_get W j = js_get gc j)
    /\ (length gc <= length W <= Nat.max (length gc) (idx + length l))%nat
    /\ (forall k did, l !! k = Some did ->
          placeable MAX filter filters did gc (idx + k) ->
          exists c, js_get W (idx + k) = Num c
                    /\ conflict filter filters did c = false).
Proof.
  induction l as [|d0 l IH]; intros idx gc; simpl.
  - split; [reflexivity|]. split; [lia|]. intros k did Hk. now rewrite lookup_nil in Hk.
  - destruct (IH (Datatypes.S idx) (placeChannel MAX filter filters d0 idx gc))
      as (Hbelow & Hlen & Hplaced).
    pose proof (placeChannel_length MAX filter filters d0 idx gc) as Hlen0.
    split.
    + intros j Hj. rewrite Hbelow by lia. apply placeChannel_get_ne. lia.
    + split; [lia|]. intros [|k] did Hk Hp; simpl in Hk.
      * inversion Hk; subst d0. rewrite Nat.add_0_r in *.
        rewrite Hbelow by lia. now apply placeChannel_placed.
      * replace (idx + Datatypes.S k)%nat with (Datatypes.S idx + k)%nat in * by lia.
        apply (Hplaced k did Hk).
        destruct Hp as [(c & Hc & Hfree)|Hp]; [left | now right].
        exists c. split; [|exact Hfree].
        rewrite placeChannel_get_ne by lia. exact Hc.
Qed.

Lemma forEach_placeChannel_full (MAX : nat) (filter : Filter)
    (filters : list Filter) (l : list string) :
  (forall did i, did ∈ l -> (i < MAX)%nat ->
     conflict filter filters did (Z.of_nat i) = true) ->
  forall idx, forEach_from (placeChannel MAX filter filters) l idx [] = [].
Proof.
  induction l as [|d0 l IH]; intros Hfull idx; simpl; [reflexivity|].
  rewrite placeChannel_full.
  - apply IH. intros did i Hd. apply Hfull. now right.
  - intros i. apply Hfull. left.
Qed.

(** ** assignGpuChannel: all or nothing *)

(** When every channel of [d2] is taken, [halfServedFilter] obtains channel
    [0] of [d1] and nothing for [d2]; it comes back with [gpu] false and
    with its array, where the channel of [d1] has been written. *)
Lemma assignGpuChannel_keeps_partial_channels :
  gpu halfServedFilter = true
  /\ assignGpuChannel MAX_GPU_FILTERS_default halfServedFilter (fullDataset "d2")
     = sampleFilter "x" ["d1"; "d2"] false (Some [Num 0; Unset])
  /\ ~ allOrNothing MAX_GPU_FILTERS_default halfServedFilter (fullDataset "d2").
Proof.
  split; [reflexivity|]. split; [reflexivity|].
  intros [Hfail _].
  destruct Hfail as [_ [Hc|Hc]]; try discriminate Hc.
  right. exists 1%nat. split; [simpl; lia | reflexivity].
Qed.

(** When every channel of [d2] is taken, a filter on [d1] and [d2] without
    channels obtains channel [0] of [d1] and nothing for [d2]; the array has
    one entry, the final test does not see the position left out, and the
    filter keeps [gpu] true. The same happens when the position left out
    comes first: the array starts with an empty slot. *)
Lemma assignGpuChannel_short_array_keeps_gpu :
  assignGpuChannel MAX_GPU_FILTERS_default
    (sampleFilter "x" ["d1"; "d2"] true None) (fullDataset "d2")
  = sampleFilter "x" ["d1"; "d2"] true (Some [Num 0])
  /\ assignGpuChannel MAX_GPU_FILTERS_default
       (sampleFilter "x" ["d2"; "d1"] true None) (fullDataset "d2")
     = sampleFilter "x" ["d2"; "d1"] true (Some [Hole; Num 0]).
Proof. split; reflexivity. Qed.

Lemma assignGpuChannel_gpu_unfold (MAX : nat) (filter : Filter)
    (filters : list Filter) :
  gpu filter = true ->
  assignGpuChannel MAX filter filters =
    let gc := placedChannels MAX filter filters in
    if (length gc =? 0)%nat || negb (every_isFinite gc) then
      set_gpu false
        (set_gpuChannel
           (match gpuChannel filter with Some _ => Some gc | None => None end)
           filter)
    else set_gpuChannel (Some gc) filter.
Proof. intros Hg. unfold assignGpuChannel. now rewrite Hg. Qed.

(** C2 (amended). For a filter with [gpu] true, let [W] be the channel array
    once every entry of [dataId] has been processed (the array of the
    filter, written in place, or a fresh one when the filter has none).
    - If [W] is empty or holds a stored value that is not a finite number,
      the result has [gpu] false and the [gpuChannel] of the filter: still
      absent when it was absent, and otherwise its array [W], not cleared.
    - If the filter has no [gpuChannel] and every channel of every dataset
      of [dataId] is taken ([dataId] may be empty), the result is the filter
      with [gpu] false and [gpuChannel] absent.
    - If [dataId] is not empty, the array of the filter is not longer than
      [dataId], and every position can be served (it holds a finite channel
      that no other filter holds, or its dataset has a free channel), the
      result has [gpu] true and a [gpuChannel] with exactly one finite
      channel for every position of [dataId], held by no other filter. *)
Theorem assignGpuChannel_all_or_nothing (MAX : nat) (filter : Filter)
    (filters : list Filter) :
  gpu filter = true ->
  let W := placedChannels MAX filter filters in
  ((W = [] \/ Unset ∈ W) ->
     assignGpuChannel MAX filter filters =
       set_gpu false
         (set_gpuChannel
            (match gpuChannel filter with Some _ => Some W | None => None end)
            filter))
  /\ (gpuChannel filter = None ->
      (forall did i, did ∈ dataId filter -> (i < MAX)%nat ->
         conflict filter filters did (Z.of_nat i) = true) ->
      assignGpuChannel MAX filter filters = set_gpu false filter)
  /\ (dataId filter <> [] ->
      (length (arrayfy (gpuChannel filter)) <= length (dataId filter))%nat ->
      (forall k did, dataId filter !! k = Some did ->
         placeable MAX filter filters did (arrayfy (gpuChannel filter)) k) ->
      gpu (assignGpuChannel MAX filter filters) = true
      /\ exists gc,
           assignGpuChannel MAX filter filters = set_gpuChannel (Some gc) filter
           /\ length gc = length (dataId filter)
           /\ forall k did, dataId filter !! k = Some did ->
                exists c, gc !! k = Some (Num c)
                          /\ conflict filter filters did c = false).
Proof.
  intros Hg W. rewrite (assignGpuChannel_gpu_unfold MAX filter filters Hg).
  fold W. simpl. split; [|split].
  - intros [Hempty|Hunset].
    + now rewrite Hempty.
    + apply every_isFinite_false in Hunset. rewrite Hunset.
      now rewrite orb_true_r.
  - intros Hnone Hfull.
    assert (W = []) as ->.
    { unfold W, placedChannels, forEach. rewrite Hnone. simpl.
      now apply forEach_placeChannel_full. }
    simpl. unfold set_gpu, set_gpuChannel. simpl. now rewrite Hnone.
  - intros Hne Hlen Hserve.
    destruct (forEach_placeChannel MAX filter filters (dataId filter) 0
                (arrayfy (gpuChannel filter))) as (_ & HlenW & Hplaced).
    fold (forEach (placeChannel MAX filter filters) (dataId filter)
            (arrayfy (gpuChannel filter))) in HlenW, Hplaced.
    fold (placedChannels MAX filter filters) in HlenW, Hplaced.
    fold W in HlenW, Hplaced. simpl in HlenW, Hplaced.
    assert (forall k did, dataId filter !! k = Some did ->
              exists c, W !! k = Some (Num c)
                        /\ conflict filter filters did c = false) as Hall.
    { intros k did Hk. destruct (Hplaced k did Hk (Hserve k did Hk)) as (c & Hc & Hfree).
      exists c. split; [now apply js_get_Num | exact Hfree]. }
    assert (length W = length (dataId filter)) as HlenEq.
    { apply Nat.le_antisymm; [lia|].
      destruct (length (dataId filter)) as [|n] eqn:Hn.
      - destruct (dataId filter); [contradiction | discriminate].
      - destruct (lookup_lt_is_Some_2 (dataId filter) n ltac:(lia)) as [did Hd].
        destruct (Hall n did Hd) as (c & Hc & _).
        apply lookup_lt_Some in Hc. lia. }
    assert (every_isFinite W = true) as Hevery.
    { apply every_isFinite_all_Num. intros k Hk. rewrite HlenEq in Hk.
      destruct (lookup_lt_is_Some_2 (dataId filter) k Hk) as [did Hd].
      destruct (Hall k did Hd) as (c & Hc & _). eauto. }
    assert ((length W =? 0)%nat = false) as Hnz.
    { apply Nat.eqb_neq. rewrite HlenEq.
      destruct (dataId filter); [contradiction | discriminate]. }
    rewrite Hnz, Hevery. simpl. split; [exact Hg|].
    exists W. split; [reflexivity|]. split; [exact HlenEq | exact Hall].
Qed.

Lemma assignGpuChannel_all_or_nothing_witness :
  let placed := set_gpuChannel (Some [Num 0]) scenarioF1 in
  gpu scenarioF2 = true
  /\ gpu (assignGpuChannel MAX_GPU_FILTERS_default scenarioF2 [placed; scenarioF2])
     = true
  /\ exists gc,
       assignGpuChannel MAX_GPU_FILTERS_default scenarioF2 [placed; scenarioF2]
         = set_gpuChannel (Some gc) scenarioF2
       /\ length gc = length (dataId scenarioF2)
       /\ forall k did, dataId scenarioF2 !! k = Some did ->
            exists c, gc !! k = Some (Num c)
                      /\ conflict scenarioF2 [placed; scenarioF2] did c = false.
Proof.
  intros placed.
  assert (gpu scenarioF2 = true) as Hg by reflexivity.
  destruct (assignGpuChannel_all_or_nothing MAX_GPU_FILTERS_default scenarioF2
              [placed; scenarioF2] Hg) as (_ & _ & Hserved).
  split; [exact Hg|]. apply Hserved.
  - simpl. discriminate.
  - simpl. lia.
  - intros [|k] did Hk; simpl in Hk; [|destruct k; discriminate].
    inversion Hk; subst did. right. exists 1%nat.
    split; [unfold MAX_GPU_FILTERS_default; lia | reflexivity].
Defined.

(** ** Channels stay apart when every dataset has room *)

Lemma positionOf_unique (l : list string) (did : string) (k k' : nat) :
  positionOf l did k -> positionOf l did k' -> k = k'.
Proof.
  intros [Hk Hmin] [Hk' Hmin'].
  destruct (lt_eq_lt_dec k k') as [[Hlt|Heq]|Hgt]; [|exact Heq|].
  - exfalso. now apply (Hmin' k Hlt).
  - exfalso. now apply (Hmin k' Hgt).
Qed.

Lemma channelAt_functional (g : Filter) (did : string) (c c' : Z) :
  channelAt g did c -> channelAt g did c' -> c = c'.
Proof.
  intros (k & Hk & Hc) (k' & Hk' & Hc').
  rewrite (positionOf_unique _ _ _ _ Hk Hk') in Hc. congruence.
Qed.

Lemma channelAt_includes (g : Filter) (did : string) (c : Z) :
  channelAt g did c -> did ∈ dataId g.
Proof. intros (k & [Hk _] & _). apply list_elem_of_lookup. eauto. Qed.

Lemma channelAt_conflict (filter a : Filter) (accu : list Filter)
    (did : string) (c : Z) :
  a ∈ accu -> id a <> id filter -> gpu a = true -> channelAt a did c ->
  conflict filter accu did c = true.
Proof.
  intros Hin Hid Hgpu Hch. apply conflict_true_iff. exists a.
  split; [exact Hin|]. apply findGpuChannel_spec.
  split; [exact Hid|]. split; [exact Hgpu|].
  split; [now apply (channelAt_includes a did c) | exact Hch].
Qed.

Lemma gpuCount_sameShape (fs accu : list Filter) (did : string) :
  Forall2 sameShape fs accu -> (gpuCount accu did <= gpuCount fs did)%nat.
Proof.
  unfold gpuCount. induction 1 as [|f a fs accu (_ & Hd & Hg) _ IH]; simpl; [lia|].
  rewrite Hd. destruct (gpu a) eqn:Ha; simpl.
  - rewrite (Hg eq_refl). simpl.
    destruct (includes (dataId f) did); simpl; lia.
  - destruct (gpu f && includes (dataId f) did); simpl; lia.
Qed.

Lemma channel_holders (filter : Filter) (accu : list Filter) (did : string)
    (n : nat) :
  (forall i, (i < n)%nat -> conflict filter accu did (Z.of_nat i) = true) ->
  exists L : list Filter,
    NoDup L /\ length L = n
    /\ forall g, g ∈ L ->
         g ∈ accu /\ id g <> id filter /\ gpu g = true
         /\ exists i, (i < n)%nat /\ channelAt g did (Z.of_nat i).
Proof.
  induction n as [|n IH]; intros Hall.
  - exists []. split; [constructor|]. split; [reflexivity|].
    intros g Hg. now apply not_elem_of_nil in Hg.
  - destruct IH as (L & Hnd & Hlen & HL); [intros i Hi; apply Hall; lia|].
    pose proof (Hall n ltac:(lia)) as Hn. apply conflict_true_iff in Hn.
    destruct Hn as (g & Hin & Hg). apply findGpuChannel_spec in Hg.
    destruct Hg as (Hid & Hgpu & _ & Hch).
    exists (g :: L). split; [|split].
    + apply NoDup_cons. split; [|exact Hnd]. intros HgL.
      destruct (HL g HgL) as (_ & _ & _ & i & Hi & Hchi).
      pose proof (channelAt_functional g did _ _ Hch Hchi). lia.
    + simpl. now rewrite Hlen.
    + intros h Hh. apply elem_of_cons in Hh. destruct Hh as [->|Hh].
      * split; [exact Hin|]. split; [exact Hid|]. split; [exact Hgpu|].
        exists n. split; [lia | exact Hch].
      * destruct (HL h Hh) as (H1 & H2 & H3 & i & Hi & H4).
        split; [exact H1|]. split; [exact H2|]. split; [exact H3|].
        exists i. split; [lia | exact H4].
Qed.

Lemma free_channel (MAX : nat) (filter : Filter) (accu : list Filter)
    (did : string) :
  (gpuCount accu did <= MAX)%nat ->
  filter ∈ accu -> gpu filter = true -> did ∈ dataId filter ->
  exists i, (i < MAX)%nat /\ conflict filter accu did (Z.of_nat i) = false.
Proof.
  intros Hcap Hin Hgpu Hdid.
  destruct (firstFree (conflict filter accu did) 0 MAX) as [i|] eqn:Hscan.
  - apply firstFree_Some in Hscan. destruct Hscan as (Hr & Hfree & _).
    exists i. split; [lia | exact Hfree].
  - exfalso. rewrite firstFree_None in Hscan.
    destruct (channel_holders filter accu did MAX) as (L & Hnd & Hlen & HL).
    { intros i Hi. apply Hscan. lia. }
    assert (NoDup (filter :: L)) as Hnd'.
    { apply NoDup_cons. split; [|exact Hnd]. intros HfL.
      destruct (HL filter HfL) as (_ & Hid & _). now apply Hid. }
    assert ((filter :: L) ⊆+
            List.filter (fun g => gpu g && includes (dataId g) did) accu) as Hsub.
    { apply NoDup_submseteq; [exact Hnd'|]. intros g Hg.
      apply list_elem_of_In, filter_In. apply elem_of_cons in Hg.
      destruct Hg as [->|Hg].
      - split; [now apply list_elem_of_In|]. rewrite Hgpu. simpl.
        now apply includes_elem_of.
      - destruct (HL g Hg) as (Hga & _ & Hgg & i & _ & Hch).
        split; [now apply list_elem_of_In|]. rewrite Hgg. simpl.
        apply includes_elem_of. now apply (channelAt_includes g did _ Hch). }
    apply submseteq_length in Hsub. simpl in Hsub. rewrite Hlen in Hsub.
    unfold gpuCount in Hcap. lia.
Qed.

Lemma assignGpuChannel_shape (MAX : nat) (filter : Filter) (accu : list Filter) :
  sameShape filter (assignGpuChannel MAX filter accu).
Proof.
  unfold assignGpuChannel, sameShape.
  destruct (gpu filter) eqn:Hg; simpl; [|now rewrite Hg].
  destruct ((length _ =? 0)%nat || negb _); simpl; auto.
Qed.

Lemma assignGpuChannel_served_channel (MAX : nat) (filter : Filter)
    (accu : list Filter) (did : string) (c : Z) :
  gpu filter = true ->
  (forall d, d ∈ dataId filter ->
     exists i, (i < MAX)%nat /\ conflict filter accu d (Z.of_nat i) = false) ->
  gpu (assignGpuChannel MAX filter accu) = true ->
  channelAt (assignGpuChannel MAX filter accu) did c ->
  conflict filter accu did c = false.
Proof.
  intros Hg Hroom. rewrite (assignGpuChannel_gpu_unfold MAX filter accu Hg). simpl.
  destruct ((length _ =? 0)%nat || negb _); simpl; [discriminate|].
  intros _ (k & Hk & Hc). simpl in Hk, Hc.
  destruct (forEach_placeChannel MAX filter accu (dataId filter) 0
              (arrayfy (gpuChannel filter))) as (_ & _ & Hplaced).
  destruct Hk as [Hk Hmin].
  destruct (Hplaced k did Hk) as (c' & Hc' & Hfree).
  { right. apply Hroom. apply list_elem_of_lookup. eauto. }
  simpl in Hc'. apply js_get_Num in Hc'.
  unfold placedChannels, forEach in Hc. congruence.
Qed.

Lemma assignGpuChannels_from_placedInjective (MAX : nat) (fs : list Filter) :
  NoDup (id <$> fs) -> withinCapacity MAX fs ->
  forall l pre accu,
    fs = (pre ++ l)%list ->
    Forall2 sameShape fs accu ->
    (forall j, (length pre <= j)%nat -> accu !! j = fs !! j) ->
    placedInjective (length pre) accu ->
    placedInjective (length fs) (assignGpuChannels_from MAX l (length pre) accu).
Proof.
  intros Hnd Hcap. induction l as [|f l IH]; intros pre accu Hfs Hshape Hrest Hinj.
  - simpl. rewrite Hfs, app_nil_r. exact Hinj.
  - simpl.
    assert (fs !! length pre = Some f) as Hf.
    { rewrite Hfs. rewrite lookup_app_r by lia. now rewrite Nat.sub_diag. }
    assert (accu !! length pre = Some f) as Hf' by (rewrite Hrest by lia; exact Hf).
    assert (forall j a, j <> length pre -> accu !! j = Some a -> id a <> id f)
      as Hids.
    { intros j a Hj Ha Heq.
      destruct (Forall2_lookup_r _ _ _ _ _ Hshape Ha) as (fj & Hfj & Hida & _).
      apply Hj. apply (NoDup_lookup (id <$> fs) j (length pre) (id f) Hnd).
      - rewrite list_lookup_fmap, Hfj. simpl. congruence.
      - now rewrite list_lookup_fmap, Hf. }
    replace (Datatypes.S (length pre)) with (length (pre ++ [f])%list)
      by (rewrite length_app; simpl; lia).
    assert (fs = ((pre ++ [f]) ++ l)%list) as Hfs'
      by (rewrite <- app_assoc; exact Hfs).
    destruct (gpu f) eqn:Hg.
    + set (f' := assignGpuChannel MAX f accu).
      apply IH; [exact Hfs'| | |].
      * rewrite <- (list_insert_id fs (length pre) f Hf).
        apply Forall2_insert; [exact Hshape|]. apply assignGpuChannel_shape.
      * intros j Hj. rewrite length_app in Hj. simpl in Hj.
        rewrite list_lookup_insert_ne by lia. apply Hrest. lia.
      * assert (forall d, d ∈ dataId f ->
                  exists i, (i < MAX)%nat
                            /\ conflict f accu d (Z.of_nat i) = false) as Hroom.
        { intros d Hd. apply free_channel; [|apply list_elem_of_lookup; eauto| |];
            [|exact Hg|exact Hd].
          pose proof (gpuCount_sameShape fs accu d Hshape).
          specialize (Hcap d). lia. }
        assert (forall j a did c,
                  j <> length pre -> accu !! j = Some a -> gpu a = true ->
                  gpu f' = true -> channelAt a did c -> channelAt f' did c ->
                  False) as Hnew.
        { intros j a did c Hj Ha Hga Hgf Hca Hcf.
          pose proof (assignGpuChannel_served_channel MAX f accu did c Hg Hroom
                        Hgf Hcf) as Hfree.
          rewrite (channelAt_conflict f a accu did c) in Hfree;
            [discriminate| |now apply (Hids j)|exact Hga|exact Hca].
          apply list_elem_of_lookup. eauto. }
        intros j1 j2 a1 a2 did c Hj1 Hj2 Hne H1 H2 Hg1 Hg2 Hc1 Hc2.
        rewrite length_app in Hj1, Hj2. simpl in Hj1, Hj2.
        assert (length pre < length accu)%nat as Hlt
          by (apply lookup_lt_Some in Hf'; exact Hf').
        destruct (decide (j1 = length pre)) as [->|Hn1];
          destruct (decide (j2 = length pre)) as [->|Hn2].
        -- contradiction.
        -- rewrite list_lookup_insert_eq in H1 by exact Hlt.
           rewrite list_lookup_insert_ne in H2 by congruence.
           injection H1 as <-.
           exact (Hnew j2 a2 did c Hn2 H2 Hg2 Hg1 Hc2 Hc1).
        -- rewrite list_lookup_insert_eq in H2 by exact Hlt.
           rewrite list_lookup_insert_ne in H1 by congruence.
           injection H2 as <-.
           exact (Hnew j1 a1 did c Hn1 H1 Hg1 Hg2 Hc1 Hc2).
        -- rewrite list_lookup_insert_ne in H1 by congruence.
           rewrite list_lookup_insert_ne in H2 by congruence.
           apply (Hinj j1 j2 a1 a2 did c); try assumption; lia.
    + apply IH; [exact Hfs'|exact Hshape| |].
      * intros j Hj. rewrite length_app in Hj. simpl in Hj. apply Hrest. lia.
      * intros j1 j2 a1 a2 did c Hj1 Hj2 Hne H1 H2 Hg1 Hg2 Hc1 Hc2.
        rewrite length_app in Hj1, Hj2. simpl in Hj1, Hj2.
        destruct (decide (j1 = length pre)) as [->|Hn1];
          [rewrite Hf' in H1; injection H1 as <-; congruence|].
        destruct (decide (j2 = length pre)) as [->|Hn2];
          [rewrite Hf' in H2; injection H2 as <-; congruence|].
        apply (Hinj j1 j2 a1 a2 did c); try assumption; lia.
Qed.

Lemma length_assignGpuChannels_from (MAX : nat) (l : list Filter) :
  forall n accu, length (assignGpuChannels_from MAX l n accu) = length accu.
Proof.
  induction l as [|x l IH]; intros n accu; simpl; [reflexivity|].
  destruct (gpu x); rewrite IH; [apply length_insert | reflexivity].
Qed.

Lemma sameShape_refl (fs : list Filter) : Forall2 sameShape fs fs.
Proof. induction fs; constructor; [now unfold sameShape | assumption]. Qed.

(** X16. When ids are pairwise distinct and no dataset is asked for by more
    than [MAX_GPU_FILTERS] filters in GPU mode, no two filters in GPU mode
    of the result of [assignGpuChannels] hold the same channel of a
    dataset. *)
Lemma assignGpuChannels_injective_within_capacity (MAX : nat)
    (fs : list Filter) :
  NoDup (id <$> fs) -> withinCapacity MAX fs ->
  injectiveChannels (assignGpuChannels MAX fs).
Proof.
  intros Hnd Hcap.
  pose proof (assignGpuChannels_from_placedInjective MAX fs Hnd Hcap fs [] fs
                eq_refl (sameShape_refl fs) (fun j _ => eq_refl)) as Hinj.
  simpl in Hinj. fold (assignGpuChannels MAX fs) in Hinj.
  assert (placedInjective (length fs) (assignGpuChannels MAX fs)) as Hall.
  { apply Hinj. intros j1 j2 a1 a2 did c Hj1. lia. }
  clear Hinj. intros did c f g Hf Hgin Hid Hgf Hgg Hcf Hcg.
  apply list_elem_of_lookup in Hf, Hgin.
  destruct Hf as [j1 H1]. destruct Hgin as [j2 H2].
  assert (j1 <> j2) as Hne by (intros ->; congruence).
  pose proof (length_assignGpuChannels_from MAX fs 0 fs) as Hlen.
  fold (assignGpuChannels MAX fs) in Hlen.
  apply (Hall j1 j2 f g did c); try assumption.
  - apply lookup_lt_Some in H1. lia.
  - apply lookup_lt_Some in H2. lia.
Qed.

(** ** A second pass over settled filters *)

Lemma findGpuChannel_id_only (f f' : Filter) (did : string) (c : Z) (g : Filter) :
  id f = id f' -> findGpuChannel f did c g = findGpuChannel f' did c g.
Proof. intros Hid. unfold findGpuChannel. now rewrite Hid. Qed.

Lemma conflict_id_only (f f' : Filter) (accu : list Filter) (did : string)
    (c : Z) :
  id f = id f' -> conflict f accu did c = conflict f' accu did c.
Proof.
  intros Hid. apply eq_iff_eq_true. rewrite !conflict_true_iff.
  split; intros (g & Hin & Hg); exists g; (split; [exact Hin|]).
  - now rewrite <- (findGpuChannel_id_only f f' did c g Hid).
  - now rewrite (findGpuChannel_id_only f f' did c g Hid).
Qed.

Lemma conflict_insert (a x : Filter) (accu : list Filter) (i : nat)
    (did : string) (c : Z) :
  conflict a (<[i := x]> accu) did c = true ->
  conflict a accu did c = true \/ findGpuChannel a did c x = true.
Proof.
  rewrite !conflict_true_iff. intros (g & Hin & Hg).
  apply list_elem_of_lookup in Hin. destruct Hin as [j Hj].
  destruct (decide (i = j)) as [->|Hne].
  - destruct (decide (j < length accu)%nat) as [Hlt|Hge].
    + rewrite list_lookup_insert_eq in Hj by exact Hlt. injection Hj as ->.
      now right.
    + rewrite list_insert_ge in Hj by lia. left. exists g.
      split; [apply list_elem_of_lookup; eauto | exact Hg].
  - rewrite list_lookup_insert_ne in Hj by exact Hne. left. exists g.
    split; [apply list_elem_of_lookup; eauto | exact Hg].
Qed.

Lemma conflict_insert_own (a x y : Filter) (accu : list Filter) (i : nat)
    (did : string) (c : Z) :
  accu !! i = Some y -> id y = id a -> id x = id a ->
  conflict a accu did c = false ->
  conflict a (<[i := x]> accu) did c = false.
Proof.
  intros Hy Hidy Hidx Hfree. apply not_true_iff_false. intros Hc.
  apply conflict_insert in Hc. destruct Hc as [Hc|Hc]; [congruence|].
  apply findGpuChannel_spec in Hc. destruct Hc as [Hne _]. now apply Hne.
Qed.

Lemma forEach_placeChannel_keep (MAX : nat) (filter : Filter)
    (accu : list Filter) (l : list string) :
  forall idx gc,
    (forall k did, l !! k = Some did ->
       exists c, gc !! (idx + k)%nat = Some (Num c)
                 /\ conflict filter accu did c = false) ->
    forEach_from (placeChannel MAX filter accu) l idx gc = gc.
Proof.
  induction l as [|d0 l IH]; intros idx gc Hall; simpl; [reflexivity|].
  destruct (Hall 0%nat d0 eq_refl) as (c & Hc & Hfree).
  rewrite Nat.add_0_r in Hc. apply js_get_Num in Hc.
  assert (placeChannel MAX filter accu d0 idx gc = gc) as ->.
  { unfold placeChannel. rewrite Hc, Hfree. reflexivity. }
  apply IH. intros k did Hk.
  replace (Datatypes.S idx + k)%nat with (idx + Datatypes.S k)%nat by lia.
  now apply (Hall (Datatypes.S k)).
Qed.

Lemma settled_fixed (MAX : nat) (a : Filter) (accu : list Filter) :
  settled a accu -> assignGpuChannel MAX a accu = a.
Proof.
  intros Hs. destruct (gpu a) eqn:Hg.
  - destruct (Hs Hg) as (W & HW & Hne & Hfin & Hall).
    rewrite (assignGpuChannel_gpu_unfold MAX a accu Hg). simpl.
    assert (placedChannels MAX a accu = W) as ->.
    { unfold placedChannels, forEach. rewrite HW. simpl.
      now apply forEach_placeChannel_keep. }
    rewrite Hfin. destruct W as [|s W]; [contradiction|]. simpl.
    destruct a. simpl in *. now subst.
  - unfold assignGpuChannel. now rewrite Hg.
Qed.

Lemma assignGpuChannels_from_fixed (MAX : nat) (l : list Filter) :
  forall n accu,
    (forall k f, l !! k = Some f ->
       accu !! (n + k)%nat = Some f /\ assignGpuChannel MAX f accu = f) ->
    assignGpuChannels_from MAX l n accu = accu.
Proof.
  induction l as [|f l IH]; intros n accu Hall; simpl; [reflexivity|].
  destruct (Hall 0%nat f eq_refl) as [Hf Hfix]. rewrite Nat.add_0_r in Hf.
  assert ((if gpu f then <[n := assignGpuChannel MAX f accu]> accu else accu)
          = accu) as ->.
  { destruct (gpu f); [|reflexivity]. rewrite Hfix. now apply list_insert_id. }
  apply IH. intros k g Hk.
  replace (Datatypes.S n + k)%nat with (n + Datatypes.S k)%nat by lia.
  now apply (Hall (Datatypes.S k)).
Qed.

Lemma positionOf_NoDup (l : list string) (did : string) (k : nat) :
  NoDup l -> l !! k = Some did -> positionOf l did k.
Proof.
  intros Hnd Hk. split; [exact Hk|]. intros j Hj Hl.
  pose proof (NoDup_lookup l j k did Hnd Hl Hk). lia.
Qed.

Lemma assignGpuChannel_settled (MAX : nat) (f : Filter) (accu : list Filter)
    (i : nat) :
  accu !! i = Some f -> gpu f = true ->
  (forall d, d ∈ dataId f ->
     exists c, (c < MAX)%nat /\ conflict f accu d (Z.of_nat c) = false) ->
  settled (assignGpuChannel MAX f accu)
    (<[i := assignGpuChannel MAX f accu]> accu).
Proof.
  intros Hf Hg Hroom Hgpu'.
  pose proof (assignGpuChannel_shape MAX f accu) as (Hid & _ & _).
  revert Hgpu' Hid.
  rewrite (assignGpuChannel_gpu_unfold MAX f accu Hg). simpl.
  set (W := placedChannels MAX f accu).
  destruct (length W =? 0)%nat eqn:Hlen; simpl; [discriminate|].
  destruct (every_isFinite W) eqn:Hfin; simpl; [|discriminate].
  intros _ Hid. exists W. split; [reflexivity|]. split.
  { intros ->. discriminate. }
  split; [exact Hfin|]. intros k did Hk.
  destruct (forEach_placeChannel MAX f accu (dataId f) 0
              (arrayfy (gpuChannel f))) as (_ & _ & Hplaced).
  destruct (Hplaced k did Hk) as (c & Hc & Hfree).
  { right. apply Hroom. apply list_elem_of_lookup. eauto. }
  simpl in Hc. apply js_get_Num in Hc. exists c. split; [exact Hc|].
  rewrite (conflict_id_only (set_gpuChannel (Some W) f) f _ did c eq_refl).
  now apply (conflict_insert_own f _ f accu i did c Hf).
Qed.

Lemma assignGpuChannels_from_settled (MAX : nat) (fs : list Filter) :
  Forall (fun f => NoDup (dataId f)) fs ->
  withinCapacity MAX fs ->
  forall l pre accu,
    fs = (pre ++ l)%list ->
    Forall2 sameShape fs accu ->
    (forall j, (length pre <= j)%nat -> accu !! j = fs !! j) ->
    (forall j a, (j < length pre)%nat -> accu !! j = Some a -> settled a accu) ->
    forall j a,
      assignGpuChannels_from MAX l (length pre) accu !! j = Some a ->
      settled a (assignGpuChannels_from MAX l (length pre) accu).
Proof.
  intros Hdata Hcap.
  induction l as [|f l IH]; intros pre accu Hfs Hshape Hrest Hset.
  - simpl. intros j a Ha. apply (Hset j a); [|exact Ha].
    apply lookup_lt_Some in Ha. apply Forall2_length in Hshape.
    rewrite Hfs, app_nil_r in Hshape. lia.
  - simpl.
    assert (fs !! length pre = Some f) as Hf.
    { rewrite Hfs. rewrite lookup_app_r by lia. now rewrite Nat.sub_diag. }
    assert (accu !! length pre = Some f) as Hf' by (rewrite Hrest by lia; exact Hf).
    assert (forall j a, accu !! j = Some a -> NoDup (dataId a)) as Hother.
    { intros j a Ha.
      destruct (Forall2_lookup_r _ _ _ _ _ Hshape Ha) as (fj & Hfj & _ & Hda & _).
      rewrite Hda. rewrite Forall_forall in Hdata. apply Hdata.
      apply list_elem_of_lookup. eauto. }
    replace (Datatypes.S (length pre)) with (length (pre ++ [f])%list)
      by (rewrite length_app; simpl; lia).
    assert (fs = ((pre ++ [f]) ++ l)%list) as Hfs'
      by (rewrite <- app_assoc; exact Hfs).
    destruct (gpu f) eqn:Hg.
    + set (f' := assignGpuChannel MAX f accu).
      assert (forall d, d ∈ dataId f ->
                exists i, (i < MAX)%nat
                          /\ conflict f accu d (Z.of_nat i) = false) as Hroom.
      { intros d Hd. apply free_channel; [|apply list_elem_of_lookup; eauto| |];
          [|exact Hg|exact Hd].
        pose proof (gpuCount_sameShape fs accu d Hshape).
        specialize (Hcap d). lia. }
      apply IH; [exact Hfs'| | |].
      * rewrite <- (list_insert_id fs (length pre) f Hf).
        apply Forall2_insert; [exact Hshape|]. apply assignGpuChannel_shape.
      * intros j Hj. rewrite length_app in Hj. simpl in Hj.
        rewrite list_lookup_insert_ne by lia. apply Hrest. lia.
      * intros j a Hj Ha. rewrite length_app in Hj. simpl in Hj.
        assert (length pre < length accu)%nat as Hlt
          by (apply lookup_lt_Some in Hf'; exact Hf').
        destruct (decide (j = length pre)) as [->|Hne].
        -- rewrite list_lookup_insert_eq in Ha by exact Hlt. injection Ha as <-.
           now apply assignGpuChannel_settled.
        -- rewrite list_lookup_insert_ne in Ha by congruence.
           pose proof (Hother j a Ha) as Hnda.
           intros Hga.
           destruct (Hset j a ltac:(lia) Ha Hga) as (W & HW & HWne & Hfin & Hall).
           exists W. split; [exact HW|]. split; [exact HWne|].
           split; [exact Hfin|]. intros k did Hk.
           destruct (Hall k did Hk) as (c & Hc & Hfree).
           exists c. split; [exact Hc|].
           apply not_true_iff_false. intros Hconf.
           apply conflict_insert in Hconf.
           destruct Hconf as [Hconf|Hconf]; [congruence|].
           apply findGpuChannel_spec in Hconf.
           destruct Hconf as (Hida & Hgf' & _ & Hch).
           pose proof (assignGpuChannel_shape MAX f accu) as (Hidf & _ & _).
           fold f' in Hidf.
           pose proof (assignGpuChannel_served_channel MAX f accu did c Hg Hroom
                         Hgf' Hch) as Hfree'.
           rewrite (channelAt_conflict f a accu did c) in Hfree';
             [discriminate| |congruence|exact Hga|].
           ++ apply list_elem_of_lookup. eauto.
           ++ exists k. split; [now apply positionOf_NoDup|].
              now rewrite HW.
    + apply IH; [exact Hfs'|exact Hshape| |].
      * intros j Hj. rewrite length_app in Hj. simpl in Hj. apply Hrest. lia.
      * intros j a Hj Ha. rewrite length_app in Hj. simpl in Hj.
        destruct (decide (j = length pre)) as [->|Hne].
        -- rewrite Hf' in Ha. injection Ha as <-. intros Hga. congruence.
        -- apply (Hset j a); [lia | exact Ha].
Qed.

(** When no filter lists a dataset twice and no dataset is asked for by more
    than [MAX_GPU_FILTERS] filters in GPU mode, every filter of the result
    of [assignGpuChannels] is settled in it, and a second pass returns the
    result of the first. *)
Lemma assignGpuChannels_settles (MAX : nat) (fs : list Filter) :
  Forall (fun f => NoDup (dataId f)) fs ->
  withinCapacity MAX fs ->
  (forall a, a ∈ assignGpuChannels MAX fs -> settled a (assignGpuChannels MAX fs))
  /\ assignGpuChannels MAX (assignGpuChannels MAX fs) = assignGpuChannels MAX fs.
Proof.
  intros Hdata Hcap.
  assert (forall a, a ∈ assignGpuChannels MAX fs ->
            settled a (assignGpuChannels MAX fs)) as Hset.
  { intros a Ha. apply list_elem_of_lookup in Ha. destruct Ha as [j Ha].
    apply (assignGpuChannels_from_settled MAX fs Hdata Hcap fs [] fs
             eq_refl (sameShape_refl fs) (fun j _ => eq_refl)) with (j := j).
    - intros j' a' Hj'. simpl in Hj'. lia.
    - exact Ha. }
  split; [exact Hset|].
  unfold assignGpuChannels at 1. apply assignGpuChannels_from_fixed.
  intros k f Hk. split; [exact Hk|]. apply settled_fixed. apply Hset.
  apply list_elem_of_lookup. eauto.
Qed.

Lemma withinCapacity_short (MAX : nat) (fs : list Filter) :
  (length fs <= MAX)%nat -> withinCapacity MAX fs.
Proof.
  intros Hlen did. unfold gpuCount.
  pose proof (filter_length_le (fun g => gpu g && includes (dataId g) did) fs).
  lia.
Qed.

(** On [twiceListedDataset], two filters with distinct ids on one dataset of
    four channels, a second pass of [assignGpuChannels] changes the result
    of the first: filter [h] takes channel [0], which [f] holds for the
    second occurrence of [d] in its [dataId], where the other filters do not
    look; the second pass finds the two in conflict and moves [f]. *)
Lemma assignGpuChannels_twice_listed_moves_channel :
  let once := assignGpuChannels MAX_GPU_FILTERS_default twiceListedDataset in
  let twice := assignGpuChannels MAX_GPU_FILTERS_default once in
  withinCapacity MAX_GPU_FILTERS_default twiceListedDataset
  /\ (gpuChannel <$> once !! 0%nat) = Some (Some [Num 1; Num 0])
  /\ (gpuChannel <$> twice !! 0%nat) = Some (Some [Num 1; Num 1])
  /\ twice <> once.
Proof.
  split; [|split; [|split]].
  - apply withinCapacity_short. unfold MAX_GPU_FILTERS_default. simpl. lia.
  - reflexivity.
  - reflexivity.
  - vm_compute. discriminate.
Qed.

(** C5 (amended). When no filter lists a dataset twice in its [dataId] and
    no dataset is included by more than [MAX_GPU_FILTERS] filters in GPU
    mode, [assignGpuChannels] applied to its own result returns that result:
    the [gpuChannel] and the [gpu] flag of every filter are those of the
    first pass. The reason is that every filter of the result is settled in
    it, and that [assignGpuChannel] returns a settled filter as it is: a
    position that holds a finite channel held by no other filter is kept. *)
Theorem assignGpuChannels_idempotent_within_capacity (MAX : nat)
    (fs : list Filter) :
  Forall (fun f => NoDup (dataId f)) fs ->
  withinCapacity MAX fs ->
  assignGpuChannels MAX (assignGpuChannels MAX fs) = assignGpuChannels MAX fs
  /\ (forall a, a ∈ assignGpuChannels MAX fs ->
        settled a (assignGpuChannels MAX fs))
  /\ (forall a accu, settled a accu -> assignGpuChannel MAX a accu = a).
Proof.
  intros Hdata Hcap.
  destruct (assignGpuChannels_settles MAX fs Hdata Hcap) as [Hset Hsame].
  split; [exact Hsame|]. split; [exact Hset|].
  intros a accu. apply settled_fixed.
Qed.

Lemma assignGpuChannels_idempotent_within_capacity_witness :
  Forall (fun f => NoDup (dataId f)) [scenarioF1; scenarioF2]
  /\ withinCapacity MAX_GPU_FILTERS_default [scenarioF1; scenarioF2]
  /\ assignGpuChannels MAX_GPU_FILTERS_default
       (assignGpuChannels MAX_GPU_FILTERS_default [scenarioF1; scenarioF2])
     = assignGpuChannels MAX_GPU_FILTERS_default [scenarioF1; scenarioF2].
Proof.
  assert (Forall (fun f => NoDup (dataId f)) [scenarioF1; scenarioF2]) as Hdata
    by (apply (bool_decide_unpack _); vm_compute; exact I).
  assert (withinCapacity MAX_GPU_FILTERS_default [scenarioF1; scenarioF2]) as Hcap
    by (apply withinCapacity_short; unfold MAX_GPU_FILTERS_default; simpl; lia).
  split; [exact Hdata|]. split; [exact Hcap|].
  exact (proj1 (assignGpuChannels_idempotent_within_capacity
                  MAX_GPU_FILTERS_default [scenarioF1; scenarioF2] Hdata Hcap)).
Defined.

(** ** Each filter of the result comes from one call of the allocator *)

Lemma assignGpuChannels_from_before (MAX : nat) (l : list Filter) :
  forall n accu j, (j < n)%nat ->
    assignGpuChannels_from MAX l n accu !! j = accu !! j.
Proof.
  induction l as [|f l IH]; intros n accu j Hj; simpl; [reflexivity|].
  rewrite IH by lia. destruct (gpu f); [|reflexivity].
  apply list_lookup_insert_ne. lia.
Qed.

Lemma assignGpuChannels_from_lookup (MAX : nat) (fs : list Filter) :
  forall l pre accu,
    fs = (pre ++ l)%list ->
    Forall2 sameShape fs accu ->
    (forall j, (length pre <= j)%nat -> accu !! j = fs !! j) ->
    forall j f, (length pre <= j)%nat -> fs !! j = Some f ->
      exists accu',
        Forall2 sameShape fs accu' /\ accu' !! j = Some f
        /\ assignGpuChannels_from MAX l (length pre) accu !! j
           = Some (if gpu f then assignGpuChannel MAX f accu' else f).
Proof.
  induction l as [|f0 l IH]; intros pre accu Hfs Hshape Hrest j f Hj Hf.
  - rewrite Hfs, app_nil_r in Hf. apply lookup_lt_Some in Hf. lia.
  - assert (fs !! length pre = Some f0) as Hf0.
    { rewrite Hfs. rewrite lookup_app_r by lia. now rewrite Nat.sub_diag. }
    assert (accu !! length pre = Some f0) as Hf0'
      by (rewrite Hrest by lia; exact Hf0).
    simpl. destruct (decide (j = length pre)) as [->|Hne].
    + assert (f = f0) as -> by congruence.
      exists accu. split; [exact Hshape|]. split; [exact Hf0'|].
      rewrite assignGpuChannels_from_before by lia.
      destruct (gpu f0); [|exact Hf0'].
      apply list_lookup_insert_eq. now apply lookup_lt_Some in Hf0'.
    + replace (Datatypes.S (length pre)) with (length (pre ++ [f0])%list)
        by (rewrite length_app; simpl; lia).
      apply IH.
      * rewrite <- app_assoc. exact Hfs.
      * destruct (gpu f0); [|exact Hshape].
        rewrite <- (list_insert_id fs (length pre) f0 Hf0).
        apply Forall2_insert; [exact Hshape|]. apply assignGpuChannel_shape.
      * intros i Hi. rewrite length_app in Hi. simpl in Hi.
        destruct (gpu f0); [|apply Hrest; lia].
        rewrite list_lookup_insert_ne by lia. apply Hrest. lia.
      * rewrite length_app. simpl. lia.
      * exact Hf.
Qed.

Lemma assignGpuChannels_lookup (MAX : nat) (fs : list Filter) (j : nat)
    (f : Filter) :
  fs !! j = Some f ->
  exists accu,
    Forall2 sameShape fs accu /\ accu !! j = Some f
    /\ assignGpuChannels MAX fs !! j
       = Some (if gpu f then assignGpuChannel MAX f accu else f).
Proof.
  intros Hf.
  apply (assignGpuChannels_from_lookup MAX fs fs [] fs eq_refl
           (sameShape_refl fs) (fun j _ => eq_refl) j f); [simpl; lia | exact Hf].
Qed.

Lemma assignGpuChannel_allocFrame (MAX : nat) (f : Filter) (accu : list Filter) :
  allocFrame f (assignGpuChannel MAX f accu).
Proof.
  unfold assignGpuChannel, allocFrame.
  destruct (gpu f) eqn:Hg; simpl.
  - destruct ((length _ =? 0)%nat || negb _); simpl;
      repeat split; auto; discriminate.
  - rewrite Hg. repeat split; auto.
Qed.

Lemma allocFrame_refl (f : Filter) : allocFrame f f.
Proof. unfold allocFrame. repeat split; auto. Qed.

Lemma assignGpuChannel_passes (MAX : nat) (f : Filter) (accu : list Filter) :
  gpu f = true -> gpu (assignGpuChannel MAX f accu) = true ->
  passesFinalTest (assignGpuChannel MAX f accu).
Proof.
  intros Hg. rewrite (assignGpuChannel_gpu_unfold MAX f accu Hg). simpl.
  set (W := placedChannels MAX f accu).
  destruct (length W =? 0)%nat eqn:Hlen; simpl; [discriminate|].
  destruct (every_isFinite W) eqn:Hfin; simpl; [|discriminate].
  intros _. exists W. split; [reflexivity|]. split.
  - intros HW. rewrite HW in Hlen. discriminate.
  - intros Hin. apply every_isFinite_false in Hin. congruence.
Qed.

Lemma assignGpuChannels_lookup_passes (MAX : nat) (fs : list Filter) (j : nat)
    (a : Filter) :
  assignGpuChannels MAX fs !! j = Some a -> gpu a = true -> passesFinalTest a.
Proof.
  intros Ha Hg.
  assert (j < length fs)%nat as Hj.
  { apply lookup_lt_Some in Ha.
    unfold assignGpuChannels in Ha.
    now rewrite length_assignGpuChannels_from in Ha. }
  destruct (lookup_lt_is_Some_2 fs j Hj) as [f Hf].
  destruct (assignGpuChannels_lookup MAX fs j f Hf) as (accu & _ & _ & Hout).
  rewrite Hout in Ha. injection Ha as <-.
  destruct (gpu f) eqn:Hgf; [|congruence].
  now apply assignGpuChannel_passes.
Qed.

(** X1. [assignGpuChannels] returns a collection of the same length and
    order in which every filter keeps its id, datasets, domain, value, field
    index, mapped values and names: only [gpu] and [gpuChannel] may change,
    [gpu] is never raised from false to true, and a filter in CPU mode comes
    back as it is. *)
Theorem assignGpuChannels_frame (MAX : nat) (fs : list Filter) :
  length (assignGpuChannels MAX fs) = length fs
  /\ Forall2 allocFrame fs (assignGpuChannels MAX fs).
Proof.
  assert (length (assignGpuChannels MAX fs) = length fs) as Hlen
    by apply length_assignGpuChannels_from.
  split; [exact Hlen|].
  apply Forall2_same_length_lookup_2; [now symmetry|].
  intros j f a Hf Ha.
  destruct (assignGpuChannels_lookup MAX fs j f Hf) as (accu & _ & _ & Hout).
  rewrite Hout in Ha. injection Ha as <-.
  destruct (gpu f) eqn:Hg.
  - apply assignGpuChannel_allocFrame.
  - apply allocFrame_refl.
Qed.

(** X2. Every filter that is in GPU mode in the result of
    [assignGpuChannels] carries a channel array that passes the final test
    of the allocator: the array is there, it is not empty, and it stores no
    value that is not a finite number. *)
Theorem assignGpuChannels_gpu_filters_pass_final_test (MAX : nat)
    (fs : list Filter) (a : Filter) :
  a ∈ assignGpuChannels MAX fs -> gpu a = true -> passesFinalTest a.
Proof.
  intros Hin Hg. apply list_elem_of_lookup in Hin. destruct Hin as [j Hj].
  exact (assignGpuChannels_lookup_passes MAX fs j a Hj Hg).
Qed.

(** ** Channel indices stay below the number of channels *)

Lemma lookup_js_set_Num (a : list slot) (i k : nat) (v : slot) (c : Z) :
  js_set a i v !! k = Some (Num c) -> a !! k = Some (Num c) \/ v = Num c.
Proof.
  unfold js_set. destruct (decide (i < length a)%nat) as [Hlt|Hge].
  - destruct (decide (i = k)) as [->|Hne].
    + rewrite list_lookup_insert_eq by exact Hlt. intros H. right. congruence.
    + rewrite list_lookup_insert_ne by exact Hne. now left.
  - destruct (decide (k < length a)%nat) as [Hk|Hk].
    + rewrite lookup_app_l by exact Hk. now left.
    + rewrite lookup_app_r by lia.
      destruct (decide (k - length a < i - length a)%nat) as [Hin|Hout].
      * rewrite lookup_app_l by (rewrite length_replicate; lia).
        rewrite lookup_replicate_2 by lia. discriminate.
      * rewrite lookup_app_r by (rewrite length_replicate; lia).
        rewrite length_replicate.
        destruct (k - length a - (i - length a))%nat as [|n]; simpl.
        -- intros H. right. congruence.
        -- discriminate.
Qed.

Lemma placeChannel_range (MAX : nat) (filter : Filter) (filters : list Filter)
    (did : string) (idx : nat) (gc : list slot) :
  (forall k c, gc !! k = Some (Num c) -> 0 <= c < Z.of_nat MAX) ->
  forall k c, placeChannel MAX filter filters did idx gc !! k = Some (Num c) ->
    0 <= c < Z.of_nat MAX.
Proof.
  intros Hgc k c. unfold placeChannel.
  destruct (match js_get gc idx with
            | Num c0 => negb (conflict filter filters did c0)
            | _ => false
            end); [apply Hgc|].
  destruct (firstFree _ 0 MAX) as [i|] eqn:Hscan; [|apply Hgc].
  intros H. apply lookup_js_set_Num in H. destruct H as [H|H]; [now apply (Hgc k)|].
  apply firstFree_Some in Hscan. destruct Hscan as (Hr & _). inversion H. lia.
Qed.

Lemma forEach_placeChannel_range (MAX : nat) (filter : Filter)
    (filters : list Filter) (l : list string) :
  forall idx gc,
    (forall k c, gc !! k = Some (Num c) -> 0 <= c < Z.of_nat MAX) ->
    forall k c,
      forEach_from (placeChannel MAX filter filters) l idx gc !! k = Some (Num c) ->
      0 <= c < Z.of_nat MAX.
Proof.
  induction l as [|d0 l IH]; intros idx gc Hgc; simpl; [exact Hgc|].
  apply IH. now apply placeChannel_range.
Qed.

Lemma assignGpuChannel_range (MAX : nat) (f : Filter) (accu : list Filter) :
  (forall k c, arrayfy (gpuChannel f) !! k = Some (Num c) -> 0 <= c < Z.of_nat MAX) ->
  forall k c,
    arrayfy (gpuChannel (assignGpuChannel MAX f accu)) !! k = Some (Num c) ->
    0 <= c < Z.of_nat MAX.
Proof.
  intros Hf k c. unfold assignGpuChannel.
  pose proof (forEach_placeChannel_range MAX f accu (dataId f) 0
                (arrayfy (gpuChannel f)) Hf) as HW.
  fold (forEach (placeChannel MAX f accu) (dataId f) (arrayfy (gpuChannel f))) in HW.
  fold (placedChannels MAX f accu) in HW.
  destruct (gpu f); simpl; [|apply Hf].
  destruct ((length _ =? 0)%nat || negb _); simpl; [|apply HW].
  destruct (gpuChannel f); simpl; [apply HW|].
  now rewrite lookup_nil.
Qed.

(** X3. If every channel index stored in a collection lies in
    [0, MAX_GPU_FILTERS), so does every channel index stored in the result
    of [assignGpuChannels]: the allocator writes only indices that its scan
    [0 .. MAX_GPU_FILTERS - 1] visits. *)
Theorem assignGpuChannels_keeps_channels_in_range (MAX : nat)
    (fs : list Filter) :
  channelsInRange MAX fs -> channelsInRange MAX (assignGpuChannels MAX fs).
Proof.
  intros Hin a k c Ha Hk.
  apply list_elem_of_lookup in Ha. destruct Ha as [j Ha].
  assert (j < length fs)%nat as Hj.
  { apply lookup_lt_Some in Ha. unfold assignGpuChannels in Ha.
    now rewrite length_assignGpuChannels_from in Ha. }
  destruct (lookup_lt_is_Some_2 fs j Hj) as [f Hf].
  assert (f ∈ fs) as Hfin by (apply list_elem_of_lookup; eauto).
  destruct (assignGpuChannels_lookup MAX fs j f Hf) as (accu & _ & _ & Hout).
  rewrite Hout in Ha. injection Ha as <-.
  destruct (gpu f).
  - apply (assignGpuChannel_range MAX f accu) with (k := k); [|exact Hk].
    intros k' c'. now apply (Hin f).
  - now apply (Hin f k c).
Qed.

(** ** resetFilterGpuMode keeps every dataset within the number of channels *)

Lemma forEach_countDataset_counter (MAX : nat) (l : list string) :
  (0 < MAX)%nat ->
  forall idx g m,
    numericCounters m ->
    (forall did, (counterValue m did <= MAX)%nat) ->
    exists g' m',
      forEach_from (countDataset MAX) l idx (g, m) = (g', m')
      /\ numericCounters m'
      /\ (forall did, (counterValue m did <= counterValue m' did <= MAX)%nat)
      /\ (g' = true ->
          g = true
          /\ forall did, did ∈ l -> inherited did = false ->
               (counterValue m did + 1 <= counterValue m' did)%nat).
Proof.
  intros Hpos. induction l as [|d0 l IH]; intros idx g m Hnum Hm;
    cbn [forEach_from].
  - exists g, m. split; [reflexivity|]. split; [exact Hnum|].
    split; [intros did; split; [lia | apply Hm]|].
    intros Hg. split; [exact Hg|]. intros did Hd. now apply not_elem_of_nil in Hd.
  - destruct (countDataset_step MAX d0 idx g m Hpos Hnum)
      as [(Hplain & Hfull & Hstep)|(m1 & Hstep & Hnum1 & Hroom & Hcv)];
      rewrite Hstep.
    + destruct (IH (Datatypes.S idx) false m Hnum Hm)
        as (g' & m' & Hrun & Hnum' & Hmono & Hg).
      exists g', m'. split; [exact Hrun|]. split; [exact Hnum'|].
      split; [exact Hmono|].
      intros Hg'. destruct (Hg Hg') as [Hf _]. discriminate.
    + assert (forall did, (counterValue m did <= counterValue m1 did <= MAX)%nat)
        as Hm1.
      { intros did. rewrite Hcv. specialize (Hm did).
        destruct (decide (did = d0)) as [->|Hne]; [|lia].
        destruct (inherited d0) eqn:Hinh; [lia|]. specialize (Hroom eq_refl). lia. }
      destruct (IH (Datatypes.S idx) g m1 Hnum1 (fun did => proj2 (Hm1 did)))
        as (g' & m' & Hrun & Hnum' & Hmono & Hg).
      exists g', m'. split; [exact Hrun|]. split; [exact Hnum'|]. split.
      * intros did. specialize (Hm1 did). specialize (Hmono did). lia.
      * intros Hg'. destruct (Hg Hg') as [Hgt Hall]. split; [exact Hgt|].
        intros did Hd Hplain. apply elem_of_cons in Hd. destruct Hd as [->|Hd].
        -- specialize (Hmono d0). rewrite (Hcv d0) in Hmono.
           rewrite decide_True, Hplain in Hmono by reflexivity. lia.
        -- specialize (Hall did Hd Hplain). specialize (Hm1 did). lia.
Qed.

Lemma resetOne_counter (MAX : nat) (f : Filter) (m : gmap string counter) :
  (0 < MAX)%nat ->
  numericCounters m ->
  (forall did, (counterValue m did <= MAX)%nat) ->
  numericCounters (snd (resetOne MAX f m))
  /\ (forall did,
        (counterValue m did <= counterValue (snd (resetOne MAX f m)) did
         <= MAX)%nat)
  /\ (gpu (fst (resetOne MAX f m)) = true ->
      forall did, did ∈ dataId f -> inherited did = false ->
        (counterValue m did + 1
         <= counterValue (snd (resetOne MAX f m)) did)%nat).
Proof.
  intros Hpos Hnum Hm. unfold resetOne. destruct (gpu f) eqn:Hg.
  - destruct (forEach_countDataset_counter MAX (dataId f) Hpos 0 true m Hnum Hm)
      as (g' & m' & Hrun & Hnum' & Hmono & Hg').
    unfold forEach. rewrite Hrun. destruct g'; simpl.
    + split; [exact Hnum'|]. split; [exact Hmono|]. intros _. now apply Hg'.
    + split; [exact Hnum'|]. split; [exact Hmono|]. discriminate.
  - simpl. split; [exact Hnum|].
    split; [intros did; split; [lia | apply Hm]|]. congruence.
Qed.

Lemma resetOne_dataId (MAX : nat) (f : Filter) (m : gmap string counter) :
  dataId (fst (resetOne MAX f m)) = dataId f.
Proof.
  destruct (resetOne_lowered MAX f m) as (_ & _ & _ & Hd & _). exact Hd.
Qed.

Lemma resetFilterGpuMode_from_capacity (MAX : nat) (rest : list Filter) :
  (0 < MAX)%nat ->
  forall m,
    numericCounters m ->
    (forall did, (counterValue m did <= MAX)%nat) ->
    forall did, inherited did = false ->
      (gpuCount (resetFilterGpuMode_from MAX rest m) did + counterValue m did
       <= MAX)%nat.
Proof.
  intros Hpos. induction rest as [|f rest IH]; intros m Hnum Hm did Hplain; simpl.
  - unfold gpuCount. simpl. apply Hm.
  - pose proof (resetOne_counter MAX f m Hpos Hnum Hm) as (Hnum' & Hmono & Hinc).
    pose proof (resetOne_dataId MAX f m) as Hd.
    destruct (resetOne MAX f m) as [f' m']. simpl in Hnum', Hmono, Hinc, Hd.
    specialize (IH m' Hnum' (fun d => proj2 (Hmono d)) did Hplain).
    unfold gpuCount in *. simpl.
    destruct (gpu f' && includes (dataId f') did) eqn:Hf'; simpl.
    + apply andb_true_iff in Hf'. destruct Hf' as [Hg Hinc'].
      rewrite Hd in Hinc'. apply includes_elem_of in Hinc'.
      specialize (Hinc Hg did Hinc' Hplain). lia.
    + specialize (Hmono did). lia.
Qed.

Lemma resetFilterGpuMode_capacity (MAX : nat) (fs : list Filter)
    (did : string) :
  (0 < MAX)%nat -> inherited did = false ->
  (gpuCount (resetFilterGpuMode MAX fs) did <= MAX)%nat.
Proof.
  intros Hpos Hplain.
  assert (forall d, (counterValue ∅ d <= MAX)%nat) as Hempty
    by (intros d; rewrite counterValue_empty; lia).
  pose proof (resetFilterGpuMode_from_capacity MAX fs Hpos ∅
                numericCounters_empty Hempty did Hplain) as H.
  unfold resetFilterGpuMode. lia.
Qed.

Lemma gpuCount_plainDatasets (fs : list Filter) (did : string) :
  plainDatasets fs -> inherited did = true -> gpuCount fs did = 0%nat.
Proof.
  intros Hplain Hinh. induction fs as [|f fs IH]; [reflexivity|].
  apply Forall_cons in Hplain. destruct Hplain as [Hf Hplain].
  unfold gpuCount in *. simpl.
  assert (includes (dataId f) did = false) as ->.
  { apply not_true_iff_false. intros H. apply includes_elem_of in H.
    rewrite Forall_forall in Hf. specialize (Hf did H). congruence. }
  rewrite andb_false_r. now apply IH.
Qed.

Lemma plainDatasets_lowered (fs out : list Filter) :
  Forall2 gpuOnlyLowered fs out -> plainDatasets fs -> plainDatasets out.
Proof.
  induction 1 as [|f a fs out (_ & _ & _ & Hd & _) _ IH]; intros Hplain;
    [constructor|].
  apply Forall_cons in Hplain. destruct Hplain as [Hf Hplain].
  constructor; [now rewrite Hd | now apply IH].
Qed.

Lemma resetFilterGpuMode_plainDatasets (MAX : nat) (fs : list Filter) :
  plainDatasets fs -> plainDatasets (resetFilterGpuMode MAX fs).
Proof.
  apply plainDatasets_lowered. apply resetFilterGpuMode_from_lowered.
Qed.

Lemma resetFilterGpuMode_plain_capacity (MAX : nat) (fs : list Filter) :
  (0 < MAX)%nat -> plainDatasets fs ->
  withinCapacity MAX (resetFilterGpuMode MAX fs).
Proof.
  intros Hpos Hplain did. destruct (inherited did) eqn:Hinh.
  - rewrite (gpuCount_plainDatasets _ did
               (resetFilterGpuMode_plainDatasets MAX fs Hplain) Hinh). lia.
  - now apply resetFilterGpuMode_capacity.
Qed.

(** X4. When [MAX_GPU_FILTERS] is positive, the result of
    [resetFilterGpuMode] respects the cap, for every collection, on every
    dataset whose id is not the name of a property of [Object.prototype]:
    no such dataset is included by more than [MAX_GPU_FILTERS] filters that
    are still in GPU mode.  When no dataset id of the collection is such a
    name, the cap holds for every dataset. *)
Theorem resetFilterGpuMode_within_capacity (MAX : nat) (fs : list Filter) :
  (0 < MAX)%nat ->
  (forall did, inherited did = false ->
     (gpuCount (resetFilterGpuMode MAX fs) did <= MAX)%nat)
  /\ (plainDatasets fs -> withinCapacity MAX (resetFilterGpuMode MAX fs)).
Proof.
  intros Hpos. split.
  - intros did Hplain. now apply resetFilterGpuMode_capacity.
  - now apply resetFilterGpuMode_plain_capacity.
Qed.

(** ** Capacity enforcement followed by allocation *)

Lemma gpuOnlyLowered_ids (fs out : list Filter) :
  Forall2 gpuOnlyLowered fs out -> id <$> out = id <$> fs.
Proof.
  induction 1 as [|f a fs out (_ & _ & Hid & _) _ IH]; [reflexivity|].
  rewrite !fmap_cons. f_equal; [exact Hid | exact IH].
Qed.

Lemma placedInjective_injectiveChannels (out : list Filter) :
  placedInjective (length out) out -> injectiveChannels out.
Proof.
  intros Hall did c f g Hf Hg Hid Hgf Hgg Hcf Hcg.
  apply list_elem_of_lookup in Hf, Hg.
  destruct Hf as [j1 H1]. destruct Hg as [j2 H2].
  assert (j1 <> j2) as Hne by (intros ->; congruence).
  apply (Hall j1 j2 f g did c); try assumption.
  - now apply lookup_lt_Some in H1.
  - now apply lookup_lt_Some in H2.
Qed.

Lemma assignGpuChannels_placedInjective (MAX : nat) (fs : list Filter) :
  NoDup (id <$> fs) -> withinCapacity MAX fs ->
  placedInjective (length (assignGpuChannels MAX fs)) (assignGpuChannels MAX fs).
Proof.
  intros Hnd Hcap.
  pose proof (assignGpuChannels_from_placedInjective MAX fs Hnd Hcap fs [] fs
                eq_refl (sameShape_refl fs) (fun j _ => eq_refl)) as Hinj.
  simpl in Hinj. fold (assignGpuChannels MAX fs) in Hinj.
  unfold assignGpuChannels at 1. rewrite length_assignGpuChannels_from.
  apply Hinj. intros j1 j2 a1 a2 did c Hj1. lia.
Qed.

(** X5. When ids are pairwise distinct, no dataset id is the name of a
    property of [Object.prototype] and [MAX_GPU_FILTERS] is positive,
    running [resetFilterGpuMode] and then [assignGpuChannels] on any
    collection gives a collection in which no two filters in GPU mode hold
    the same channel of a dataset. *)
Theorem reset_then_assign_injective (MAX : nat) (fs : list Filter) :
  NoDup (id <$> fs) -> plainDatasets fs -> (0 < MAX)%nat ->
  injectiveChannels (assignGpuChannels MAX (resetFilterGpuMode MAX fs)).
Proof.
  intros Hnd Hplain Hpos.
  apply placedInjective_injectiveChannels.
  apply assignGpuChannels_placedInjective.
  - pose proof (resetFilterGpuMode_from_lowered MAX fs ∅) as Hlow.
    fold (resetFilterGpuMode MAX fs) in Hlow.
    now rewrite (gpuOnlyLowered_ids fs _ Hlow).
  - now apply resetFilterGpuMode_plain_capacity.
Qed.

(** ** Admission does not depend on the filters that follow *)

Lemma resetFilterGpuMode_from_app (MAX : nat) (l1 l2 : list Filter) :
  forall m,
    exists m',
      resetFilterGpuMode_from MAX (l1 ++ l2) m
      = (resetFilterGpuMode_from MAX l1 m ++ resetFilterGpuMode_from MAX l2 m')%list.
Proof.
  induction l1 as [|f l1 IH]; intros m; simpl.
  - exists m. reflexivity.
  - destruct (resetOne MAX f m) as [f' counts].
    destruct (IH counts) as [m' Hm']. exists m'. simpl. now rewrite Hm'.
Qed.

(** X6. The decision of [resetFilterGpuMode] for a filter depends only on
    the filters before it: the result for a collection followed by more
    filters starts with the result for the collection alone, so a filter
    that was admitted is never evicted by filters added after it. *)
Theorem resetFilterGpuMode_prefix (MAX : nat) (l1 l2 : list Filter) :
  take (length l1) (resetFilterGpuMode MAX (l1 ++ l2))
  = resetFilterGpuMode MAX l1.
Proof.
  unfold resetFilterGpuMode.
  destruct (resetFilterGpuMode_from_app MAX l1 l2 ∅) as [m' Hm']. rewrite Hm'.
  pose proof (resetFilterGpuMode_from_lowered MAX l1 ∅) as Hlow.
  apply Forall2_length in Hlow. rewrite Hlow.
  apply take_app_length.
Qed.

(** ** A second run of resetFilterGpuMode *)

Lemma forEach_countDataset_lockstep (MAX : nat) (l : list string) :
  (0 < MAX)%nat ->
  forall idx g m1 m2 m1',
    numericCounters m1 -> numericCounters m2 ->
    (forall did, (counterValue m2 did <= counterValue m1 did <= MAX)%nat) ->
    forEach_from (countDataset MAX) l idx (g, m1) = (true, m1') ->
    exists m2',
      forEach_from (countDataset MAX) l idx (g, m2) = (true, m2')
      /\ numericCounters m1' /\ numericCounters m2'
      /\ forall did, (counterValue m2' did <= counterValue m1' did <= MAX)%nat.
Proof.
  intros Hpos. induction l as [|d0 l IH]; intros idx g m1 m2 m1' Hn1 Hn2 Hinv;
    cbn [forEach_from].
  - intros H. injection H as -> ->. exists m2.
    split; [reflexivity|]. split; [exact Hn1|]. split; [exact Hn2 | exact Hinv].
  - assert (forall did, (counterValue m1 did <= MAX)%nat) as H1
      by (intros did; specialize (Hinv did); lia).
    destruct (countDataset_step MAX d0 idx g m1 Hpos Hn1)
      as [(Hplain & Hfull & Hstep)|(m3 & Hstep & Hn3 & Hroom & Hcv)];
      rewrite Hstep.
    + intros Hrun. exfalso.
      destruct (forEach_countDataset_counter MAX l Hpos (Datatypes.S idx) false
                  m1 Hn1 H1) as (g' & m' & Hrun' & _ & _ & Hg).
      rewrite Hrun in Hrun'. injection Hrun' as <- _.
      destruct (Hg eq_refl) as [Hf _]. discriminate.
    + destruct (countDataset_step MAX d0 idx g m2 Hpos Hn2)
        as [(Hplain2 & Hfull2 & Hstep2)|(m4 & Hstep2 & Hn4 & Hroom2 & Hcv2)];
        rewrite Hstep2.
      * specialize (Hinv d0). specialize (Hroom Hplain2). lia.
      * apply IH; [exact Hn3 | exact Hn4 |].
        intros did. rewrite Hcv, Hcv2. specialize (Hinv did).
        destruct (decide (did = d0)) as [->|Hne]; [|lia].
        destruct (inherited d0) eqn:Hinh; [lia|]. specialize (Hroom eq_refl). lia.
Qed.

Lemma resetOne_again (MAX : nat) (f f' : Filter)
    (m1 m2 m1' : gmap string counter) :
  (0 < MAX)%nat ->
  numericCounters m1 -> numericCounters m2 ->
  (forall did, (counterValue m2 did <= counterValue m1 did <= MAX)%nat) ->
  resetOne MAX f m1 = (f', m1') ->
  exists m2',
    resetOne MAX f' m2 = (f', m2')
    /\ numericCounters m1' /\ numericCounters m2'
    /\ forall did, (counterValue m2' did <= counterValue m1' did <= MAX)%nat.
Proof.
  intros Hpos Hn1 Hn2 Hinv. unfold resetOne at 1.
  assert (forall did, (counterValue m1 did <= MAX)%nat) as H1
    by (intros did; specialize (Hinv did); lia).
  destruct (gpu f) eqn:Hg.
  - unfold forEach.
    destruct (forEach_from (countDataset MAX) (dataId f) 0 (true, m1))
      as [g mm] eqn:Hrun.
    destruct g; simpl; intros H; injection H as <- <-.
    + destruct (forEach_countDataset_lockstep MAX (dataId f) Hpos 0 true m1 m2
                  mm Hn1 Hn2 Hinv Hrun) as (m2' & Hrun2 & Hinv').
      exists m2'. split; [|exact Hinv'].
      unfold resetOne, forEach. now rewrite Hg, Hrun2.
    + exists m2. split; [reflexivity|].
      destruct (forEach_countDataset_counter MAX (dataId f) Hpos 0 true m1
                  Hn1 H1) as (g' & m' & Hrun' & Hn' & Hmono & _).
      rewrite Hrun in Hrun'. injection Hrun' as _ <-.
      split; [exact Hn'|]. split; [exact Hn2|].
      intros did. specialize (Hinv did). specialize (Hmono did). lia.
  - intros H. injection H as <- <-. exists m2.
    split; [unfold resetOne; now rewrite Hg|].
    split; [exact Hn1|]. split; [exact Hn2 | exact Hinv].
Qed.

Lemma resetFilterGpuMode_from_again (MAX : nat) (fs : list Filter) :
  (0 < MAX)%nat ->
  forall m1 m2,
    numericCounters m1 -> numericCounters m2 ->
    (forall did, (counterValue m2 did <= counterValue m1 did <= MAX)%nat) ->
    resetFilterGpuMode_from MAX (resetFilterGpuMode_from MAX fs m1) m2
    = resetFilterGpuMode_from MAX fs m1.
Proof.
  intros Hpos. induction fs as [|f fs IH]; intros m1 m2 Hn1 Hn2 Hinv; simpl;
    [reflexivity|].
  destruct (resetOne MAX f m1) as [f' m1'] eqn:E1. simpl.
  destruct (resetOne_again MAX f f' m1 m2 m1' Hpos Hn1 Hn2 Hinv E1)
    as (m2' & E2 & Hn1' & Hn2' & Hinv').
  rewrite E2. f_equal. now apply IH.
Qed.

(** X7. When [MAX_GPU_FILTERS] is positive, [resetFilterGpuMode] is
    idempotent on every collection: a second run returns the result of the
    first, so no filter that kept GPU mode loses it when the cap is enforced
    again. *)
Theorem resetFilterGpuMode_idempotent (MAX : nat) (fs : list Filter) :
  (0 < MAX)%nat ->
  resetFilterGpuMode MAX (resetFilterGpuMode MAX fs) = resetFilterGpuMode MAX fs.
Proof.
  intros Hpos. unfold resetFilterGpuMode.
  apply resetFilterGpuMode_from_again;
    [exact Hpos | apply numericCounters_empty | apply numericCounters_empty |].
  intros did. rewrite counterValue_empty. lia.
Qed.

(** ** resetFilterGpuMode on a collection that respects the cap *)

Lemma gpuBefore_lt_gpuCount (fs : list Filter) (i : nat) (f : Filter)
    (did : string) :
  fs !! i = Some f -> gpu f = true -> did ∈ dataId f ->
  (gpuBefore fs i did < gpuCount fs did)%nat.
Proof.
  intros Hf Hg Hd. unfold gpuBefore, gpuCount.
  rewrite <- (take_drop_middle fs i f Hf) at 2.
  rewrite List.filter_app, length_app. simpl.
  apply includes_elem_of in Hd. rewrite Hg, Hd. simpl. lia.
Qed.

(** X8. When [MAX_GPU_FILTERS] is positive, no filter lists a dataset twice
    and no dataset is included by more than [MAX_GPU_FILTERS] filters in GPU
    mode, [resetFilterGpuMode] returns the collection as it is: it turns
    down nobody when there is room for everyone. *)
Theorem resetFilterGpuMode_within_capacity_id (MAX : nat) (fs : list Filter) :
  (0 < MAX)%nat ->
  Forall (fun f => NoDup (dataId f)) fs ->
  withinCapacity MAX fs ->
  resetFilterGpuMode MAX fs = fs.
Proof.
  intros Hpos Hnd Hcap.
  pose proof (resetFilterGpuMode_admission MAX fs Hpos Hnd) as Hspec.
  pose proof (resetFilterGpuMode_from_lowered MAX fs ∅) as Hlow.
  fold (resetFilterGpuMode MAX fs) in Hlow.
  apply list_eq_same_length with (length fs);
    [reflexivity | symmetry; exact (Forall2_length _ _ _ Hlow) |].
  intros i a f Hi Ha Hf.
  destruct (Hspec i f Hf) as (f' & Hf' & Hiff).
  assert (a = f') as -> by congruence.
  destruct (Forall2_lookup_l _ _ _ _ _ Hlow Hf) as (g & Hg & Hlg).
  assert (g = f') as -> by congruence.
  destruct Hlg as ([->|[Hgf ->]] & _); [reflexivity|].
  assert (gpu (set_gpu false f) = true) as Habs; [|discriminate].
  apply Hiff. split; [exact Hgf|]. intros did Hd _.
  pose proof (gpuBefore_lt_gpuCount fs i f did Hf Hgf Hd).
  specialize (Hcap did). lia.
Qed.

(** ** The tables of getGpuFilterProps, channel by channel *)

Lemma append_cancel_l (p a b : string) : (p ++ a)%string = (p ++ b)%string -> a = b.
Proof.
  induction p as [|c p IH]; simpl; [tauto|]. intros H. injection H as H. auto.
Qed.

Lemma triggerKey_inj (i j : nat) : triggerKey i = triggerKey j -> i = j.
Proof.
  unfold triggerKey. intros H. apply append_cancel_l in H.
  assert (forall n, Nat.to_uint n <> Decimal.Nil) as Hnil.
  { intros n. rewrite <- (Unsigned.of_to n) at 1. rewrite Unsigned.to_of.
    apply unorm_nonnil. }
  apply (f_equal NilZero.uint_of_string) in H.
  rewrite !NilZero.usu in H by apply Hnil.
  injection H as H. now apply Unsigned.to_uint_inj.
Qed.

Lemma propsLoop_table (filters : list Filter) (did : string) (n : nat) :
  forall i st st',
    propsLoop filters did i n st = Ok st' ->
    (i + n <= length (stRange st))%nat ->
    length (stRange st') = length (stRange st)
    /\ (forall j, (j < i)%nat ->
          stRange st' !! j = stRange st !! j
          /\ stTriggers st' !! triggerKey j = stTriggers st !! triggerKey j)
    /\ (forall k, (forall j, (i <= j < i + n)%nat -> k <> triggerKey j) ->
          stTriggers st' !! k = stTriggers st !! k)
    /\ (forall j, (i <= j < i + n)%nat ->
          exists flt,
            findChannelFilter filters did j = Ok flt
            /\ stRange st' !! j = Some (rangeOf flt)
            /\ stTriggers st' !! triggerKey j = Some (triggerOf did flt)).
Proof.
  induction n as [|n IH]; intros i st st' H Hlen; simpl in H.
  - injection H as <-. split; [reflexivity|]. split; [now intros|].
    split; [now intros|]. intros j Hj. lia.
  - destruct (findChannelFilter filters did i) as [flt|] eqn:Hfind; [|discriminate].
    apply IH in H; [|simpl; rewrite length_insert; lia].
    destruct H as (Hl & Hold & Hother & Hnew). simpl in Hl, Hold, Hother.
    rewrite length_insert in Hl.
    split; [exact Hl|]. split; [|split].
    + intros j Hj. destruct (Hold j ltac:(lia)) as [Hr Ht]. split.
      * rewrite Hr. apply list_lookup_insert_ne. lia.
      * rewrite Ht. apply lookup_insert_ne. intros Heq.
        apply triggerKey_inj in Heq. lia.
    + intros k Hk. rewrite Hother by (intros j Hj; apply Hk; lia).
      apply lookup_insert_ne. intros Heq. apply (Hk i); [lia | now symmetry].
    + intros j Hj. destruct (decide (j = i)) as [->|Hne].
      * exists flt. split; [exact Hfind|].
        destruct (Hold i ltac:(lia)) as [Hr Ht]. split.
        -- rewrite Hr. apply list_lookup_insert_eq. lia.
        -- rewrite Ht. apply lookup_insert_eq.
      * apply Hnew. lia.
Qed.

Lemma findChannelFilter_no_holder (filters : list Filter) (did : string)
    (i : nat) (flt : option Filter) :
  (forall f, f ∈ filters -> gpu f = true ->
     ~ channelAt f did (Z.of_nat i)) ->
  findChannelFilter filters did i = Ok flt -> flt = None.
Proof.
  intros Hno Hfind. destruct flt as [f|]; [|reflexivity]. exfalso.
  destruct (findChannelFilter_found filters did i f Hfind) as (Hin & Hg & _ & Hch).
  now apply (Hno f Hin Hg).
Qed.

(** X9. Whenever [getGpuFilterProps] returns, its range table has
    [MAX_GPU_FILTERS] entries, and for every channel [i]: if the search finds
    filter [f] on the channel, entry [i] is the value range of [f] shifted by
    the lower end of its domain; if no filter in GPU mode holds channel [i]
    of the dataset, entry [i] is [[0, 0]] and the value accessor yields [0]
    at position [i] for every row. *)
Theorem getGpuFilterProps_range_table (MAX : nat) (D : Type)
    (filters : list Filter) (did : string) (props : GpuFilterProps D) (i : nat) :
  getGpuFilterProps MAX D filters did = Ok props ->
  (i < MAX)%nat ->
  length (filterRange props) = MAX
  /\ (forall f, findChannelFilter filters did i = Ok (Some f) ->
        filterRange props !! i
        = Some (fst (value f) - fst (domain f), snd (value f) - fst (domain f)))
  /\ ((forall f, f ∈ filters -> gpu f = true ->
         ~ channelAt f did (Z.of_nat i)) ->
      filterRange props !! i = Some (0, 0)
      /\ forall getIndex getData d,
           filterValueAccessor props getIndex getData d !! i = Some 0).
Proof.
  unfold getGpuFilterProps. intros Hprops Hi.
  destruct (propsLoop filters did 0 MAX _) as [st|] eqn:Hrun; [|discriminate].
  injection Hprops as <-. simpl.
  pose proof (propsLoop_channels filters did MAX 0 _ st Hrun) as (_ & _ & Hch).
  apply propsLoop_table in Hrun;
    [|simpl; unfold getEmptyFilterRange; rewrite length_replicate; lia].
  destruct Hrun as (Hlen & _ & _ & Hnew). simpl in Hlen, Hch.
  unfold getEmptyFilterRange in Hlen. rewrite length_replicate in Hlen.
  destruct (Hnew i ltac:(lia)) as (flt & Hfind & Hrange & _).
  destruct (Hch i Hi) as (flt' & Hfind' & Hlook). simpl in Hfind'.
  assert (flt' = flt) as -> by congruence.
  split; [exact Hlen|]. split.
  - intros f Hf. rewrite Hf in Hfind. injection Hfind as <-. exact Hrange.
  - intros Hno.
    pose proof (findChannelFilter_no_holder filters did i flt Hno Hfind) as ->.
    split; [exact Hrange|]. intros getIndex getData d.
    unfold getFilterValueAccessor.
    change (List.map ?g ?l) with (g <$> l).
    now rewrite list_lookup_fmap, Hlook.
Qed.

(** X10. Whenever [getGpuFilterProps] returns, its update triggers have
    exactly the keys [gpuFilter_0] .. [gpuFilter_(MAX_GPU_FILTERS - 1)],
    which are pairwise distinct; the key of a channel on which the search
    finds filter [f] maps to the name that [f] lists at the position of the
    dataset ([undefined] if it lists none there), and the key of a channel
    that no filter in GPU mode holds maps to the null marker. *)
Theorem getGpuFilterProps_triggers (MAX : nat) (D : Type)
    (filters : list Filter) (did : string) (props : GpuFilterProps D) :
  getGpuFilterProps MAX D filters did = Ok props ->
  (forall k, (forall i, (i < MAX)%nat -> k <> triggerKey i) ->
     filterValueUpdateTriggers props !! k = None)
  /\ (forall i j, triggerKey i = triggerKey j -> i = j)
  /\ (forall i, (i < MAX)%nat ->
        (forall f, findChannelFilter filters did i = Ok (Some f) ->
           filterValueUpdateTriggers props !! triggerKey i
           = Some (match name f !! Z.to_nat (indexOf (dataId f) did) with
                   | Some n => TName n
                   | None => TUndefined
                   end))
        /\ ((forall f, f ∈ filters -> gpu f = true ->
               ~ channelAt f did (Z.of_nat i)) ->
            filterValueUpdateTriggers props !! triggerKey i = Some TNull)).
Proof.
  unfold getGpuFilterProps. intros Hprops.
  destruct (propsLoop filters did 0 MAX _) as [st|] eqn:Hrun; [|discriminate].
  injection Hprops as <-. simpl.
  apply propsLoop_table in Hrun;
    [|simpl; unfold getEmptyFilterRange; rewrite length_replicate; lia].
  destruct Hrun as (_ & _ & Hother & Hnew). simpl in Hother.
  split; [|split].
  - intros k Hk. rewrite Hother; [apply lookup_empty|].
    intros j Hj. apply Hk. lia.
  - exact triggerKey_inj.
  - intros i Hi. destruct (Hnew i ltac:(lia)) as (flt & Hfind & _ & Htrig).
    split.
    + intros f Hf. rewrite Hf in Hfind. injection Hfind as <-. exact Htrig.
    + intros Hno.
      now pose proof (findChannelFilter_no_holder filters did i flt Hno Hfind) as ->.
Qed.

(** ** When getGpuFilterProps throws *)

Lemma findChannelFilter_ok (filters : list Filter) (did : string) (i : nat) :
  (forall f, f ∈ filters -> gpu f = true -> did ∈ dataId f ->
     is_Some (gpuChannel f)) ->
  exists flt, findChannelFilter filters did i = Ok flt.
Proof.
  induction filters as [|f rest IH]; intros Hall; simpl; [eauto|].
  assert (exists flt, findChannelFilter rest did i = Ok flt) as Hrest.
  { apply IH. intros g Hg. apply Hall. now right. }
  destruct (gpu f && includes (dataId f) did) eqn:Hf; [|exact Hrest].
  apply andb_true_iff in Hf. destruct Hf as [Hg Hinc].
  apply includes_elem_of in Hinc.
  destruct (Hall f ltac:(left) Hg Hinc) as [gc Hgc]. rewrite Hgc.
  destruct (strict_eq_num _ _); [eauto | exact Hrest].
Qed.

Lemma propsLoop_ok (filters : list Filter) (did : string) (n : nat) :
  (forall i, exists flt, findChannelFilter filters did i = Ok flt) ->
  forall i st, exists st', propsLoop filters did i n st = Ok st'.
Proof.
  intros Hfind. induction n as [|n IH]; intros i st; simpl; [eauto|].
  destruct (Hfind i) as [flt ->]. apply IH.
Qed.

Lemma holds_channel_channelAt (g : Filter) (did : string) (gc : list slot)
    (c : Z) :
  did ∈ dataId g -> gpuChannel g = Some gc ->
  strict_eq_num (js_get gc (Z.to_nat (indexOf (dataId g) did))) c = true ->
  channelAt g did c.
Proof.
  intros Hd Hgc Heq.
  pose proof (indexOf_lower (dataId g) did) as Hlow.
  assert (indexOf (dataId g) did <> -1) as Hpres
    by (intros Habs; apply indexOf_absent in Habs; contradiction).
  exists (Z.to_nat (indexOf (dataId g) did)). split.
  - apply indexOf_position. lia.
  - rewrite Hgc. simpl. unfold strict_eq_num in Heq.
    destruct (js_get gc _) as [| |c'] eqn:Hget; try discriminate.
    apply Z.eqb_eq in Heq. subst c'. now apply js_get_Num.
Qed.

Lemma findChannelFilter_throws (pre rest : list Filter) (f : Filter)
    (did : string) (i : nat) :
  gpu f = true -> did ∈ dataId f -> gpuChannel f = None ->
  (forall g, g ∈ pre -> gpu g = true -> did ∈ dataId g ->
     is_Some (gpuChannel g) /\ ~ channelAt g did (Z.of_nat i)) ->
  findChannelFilter (pre ++ f :: rest) did i = TypeError.
Proof.
  intros Hg Hd Hnone. apply includes_elem_of in Hd.
  induction pre as [|g pre IH]; intros Hpre; simpl.
  - now rewrite Hg, Hd, Hnone.
  - assert (findChannelFilter (pre ++ f :: rest) did i = TypeError) as Hrest.
    { apply IH. intros h Hh. apply Hpre. now right. }
    destruct (gpu g && includes (dataId g) did) eqn:Hgg; [|exact Hrest].
    apply andb_true_iff in Hgg. destruct Hgg as [Hgpu Hinc].
    apply includes_elem_of in Hinc.
    destruct (Hpre g ltac:(left) Hgpu Hinc) as [[gc Hgc] Hno]. rewrite Hgc.
    destruct (strict_eq_num _ _) eqn:Heq; [|exact Hrest].
    exfalso. apply Hno. now apply (holds_channel_channelAt g did gc).
Qed.

(** X11. [getGpuFilterProps] returns (it does not throw) whenever every
    filter in GPU mode that includes the dataset carries a channel array; in
    particular it returns on the result of [assignGpuChannels], for every
    collection and every dataset. *)
Theorem getGpuFilterProps_returns (MAX : nat) (D : Type) (did : string) :
  (forall filters,
     (forall f, f ∈ filters -> gpu f = true -> did ∈ dataId f ->
        is_Some (gpuChannel f)) ->
     exists props, getGpuFilterProps MAX D filters did = Ok props)
  /\ (forall fs,
        exists props,
          getGpuFilterProps MAX D (assignGpuChannels MAX fs) did = Ok props).
Proof.
  assert (forall filters,
            (forall f, f ∈ filters -> gpu f = true -> did ∈ dataId f ->
               is_Some (gpuChannel f)) ->
            exists props, getGpuFilterProps MAX D filters did = Ok props) as Hgen.
  { intros filters Hall. unfold getGpuFilterProps.
    destruct (propsLoop_ok filters did MAX
                (fun i => findChannelFilter_ok filters did i Hall) 0
                {| stRange := getEmptyFilterRange MAX; stTriggers := ∅;
                   stChannels := [] |}) as [st' ->].
    eauto. }
  split; [exact Hgen|].
  intros fs. apply Hgen. intros a Ha Hg _.
  apply list_elem_of_lookup in Ha. destruct Ha as [j Ha].
  destruct (assignGpuChannels_lookup_passes MAX fs j a Ha Hg) as (gc & Hgc & _).
  rewrite Hgc. eauto.
Qed.

(** X12. [getGpuFilterProps] throws when, with [MAX_GPU_FILTERS] positive,
    the collection holds a filter in GPU mode that includes the dataset and
    has no [gpuChannel], and no filter before it holds channel [0] of the
    dataset (the filters in GPU mode on the dataset before it having an
    array): the search for channel [0] reads an index of the missing
    array. *)
Theorem getGpuFilterProps_throws_on_missing_channels (MAX : nat) (D : Type)
    (pre rest : list Filter) (f : Filter) (did : string) :
  (0 < MAX)%nat ->
  gpu f = true -> did ∈ dataId f -> gpuChannel f = None ->
  (forall g, g ∈ pre -> gpu g = true -> did ∈ dataId g ->
     is_Some (gpuChannel g) /\ ~ channelAt g did 0) ->
  getGpuFilterProps MAX D (pre ++ f :: rest) did = TypeError.
Proof.
  intros Hpos Hg Hd Hnone Hpre. unfold getGpuFilterProps.
  destruct MAX as [|n]; [lia|]. simpl.
  now rewrite (findChannelFilter_throws pre rest f did 0 Hg Hd Hnone Hpre).
Qed.

(** ** What the allocator writes at one position *)

Lemma firstFree_lowest (occupied : Z -> bool) (n i : nat) :
  (i < n)%nat -> occupied (Z.of_nat i) = false ->
  (forall j, (j < i)%nat -> occupied (Z.of_nat j) = true) ->
  firstFree occupied 0 n = Some i.
Proof.
  intros Hi Hfree Hbelow.
  destruct (firstFree occupied 0 n) as [i'|] eqn:Hscan.
  - apply firstFree_Some in Hscan. destruct Hscan as (Hr & Hfree' & Hbelow').
    f_equal. destruct (lt_eq_lt_dec i i') as [[Hlt|Heq]|Hgt]; [|now symmetry|].
    + rewrite Hbelow' in Hfree by lia. discriminate.
    + rewrite Hbelow in Hfree' by lia. discriminate.
  - rewrite firstFree_None in Hscan. rewrite Hscan in Hfree by lia. discriminate.
Qed.

Lemma placeChannel_get_ext (MAX : nat) (filter : Filter) (filters : list Filter)
    (did : string) (idx : nat) (gc1 gc2 : list slot) :
  js_get gc1 idx = js_get gc2 idx ->
  js_get (placeChannel MAX filter filters did idx gc1) idx
  = js_get (placeChannel MAX filter filters did idx gc2) idx.
Proof.
  intros Heq. unfold placeChannel. rewrite Heq.
  destruct (match js_get gc2 idx with
            | Num c => negb (conflict filter filters did c)
            | _ => false
            end); [exact Heq|].
  destruct (firstFree _ 0 MAX) as [i|]; [|exact Heq].
  now rewrite !js_get_set_eq.
Qed.

Lemma forEach_placeChannel_at (MAX : nat) (filter : Filter)
    (filters : list Filter) (l : list string) :
  forall idx gc k did,
    l !! k = Some did ->
    js_get (forEach_from (placeChannel MAX filter filters) l idx gc) (idx + k)
    = js_get (placeChannel MAX filter filters did (idx + k) gc) (idx + k).
Proof.
  induction l as [|d0 l IH]; intros idx gc k did Hk; [now rewrite lookup_nil in Hk|].
  simpl. destruct k as [|k]; simpl in Hk.
  - injection Hk as ->. rewrite Nat.add_0_r.
    destruct (forEach_placeChannel MAX filter filters l (Datatypes.S idx)
                (placeChannel MAX filter filters did idx gc)) as (Hbelow & _).
    apply Hbelow. lia.
  - replace (idx + Datatypes.S k)%nat with (Datatypes.S idx + k)%nat by lia.
    rewrite (IH (Datatypes.S idx) _ k did Hk).
    apply placeChannel_get_ext. apply placeChannel_get_ne. lia.
Qed.

(** X13. For a filter that comes back from [assignGpuChannel] in GPU mode,
    position by position of [dataId]: a position that held a finite channel
    held by no other filter keeps it (stability); a position without such a
    channel receives the lowest channel below [MAX_GPU_FILTERS] that no
    other filter holds for the dataset, when there is one (first fit). *)
Theorem assignGpuChannel_stable_first_fit (MAX : nat) (filter : Filter)
    (filters : list Filter) :
  gpu filter = true ->
  gpu (assignGpuChannel MAX filter filters) = true ->
  exists W,
    gpuChannel (assignGpuChannel MAX filter filters) = Some W
    /\ forall k did, dataId filter !! k = Some did ->
         (forall c, js_get (arrayfy (gpuChannel filter)) k = Num c ->
                    conflict filter filters did c = false ->
                    W !! k = Some (Num c))
         /\ ((forall c, js_get (arrayfy (gpuChannel filter)) k = Num c ->
                        conflict filter filters did c = true) ->
             forall i, (i < MAX)%nat ->
               conflict filter filters did (Z.of_nat i) = false ->
               (forall j, (j < i)%nat ->
                  conflict filter filters did (Z.of_nat j) = true) ->
               W !! k = Some (Num (Z.of_nat i))).
Proof.
  intros Hg. rewrite (assignGpuChannel_gpu_unfold MAX filter filters Hg). simpl.
  destruct ((length _ =? 0)%nat || negb _); simpl; [discriminate|].
  intros _. exists (placedChannels MAX filter filters). split; [reflexivity|].
  intros k did Hk.
  pose proof (forEach_placeChannel_at MAX filter filters (dataId filter) 0
                (arrayfy (gpuChannel filter)) k did Hk) as Hat.
  simpl in Hat. fold (forEach (placeChannel MAX filter filters) (dataId filter)
                        (arrayfy (gpuChannel filter))) in Hat.
  fold (placedChannels MAX filter filters) in Hat.
  split.
  - intros c Hc Hfree. apply js_get_Num. rewrite Hat.
    unfold placeChannel. rewrite Hc, Hfree. simpl. exact Hc.
  - intros Hbusy i Hi Hfree Hbelow. apply js_get_Num. rewrite Hat.
    unfold placeChannel.
    rewrite (firstFree_lowest (conflict filter filters did) MAX i Hi Hfree Hbelow).
    destruct (js_get (arrayfy (gpuChannel filter)) k) as [| |c] eqn:Hcur;
      try apply js_get_set_eq.
    rewrite (Hbusy c eq_refl). simpl. apply js_get_set_eq.
Qed.

(** ** Within capacity nobody is turned down *)

Lemma assignGpuChannel_served (MAX : nat) (filter : Filter)
    (filters : list Filter) :
  gpu filter = true ->
  dataId filter <> [] ->
  (length (arrayfy (gpuChannel filter)) <= length (dataId filter))%nat ->
  (forall k did, dataId filter !! k = Some did ->
     placeable MAX filter filters did (arrayfy (gpuChannel filter)) k) ->
  gpu (assignGpuChannel MAX filter filters) = true
  /\ exists gc,
       gpuChannel (assignGpuChannel MAX filter filters) = Some gc
       /\ length gc = length (dataId filter)
       /\ forall k, (k < length (dataId filter))%nat ->
            exists c, gc !! k = Some (Num c).
Proof.
  intros Hg Hne Hlen Hserve.
  rewrite (assignGpuChannel_gpu_unfold MAX filter filters Hg). simpl.
  set (W := placedChannels MAX filter filters).
  destruct (forEach_placeChannel MAX filter filters (dataId filter) 0
              (arrayfy (gpuChannel filter))) as (_ & HlenW & Hplaced).
  fold (forEach (placeChannel MAX filter filters) (dataId filter)
          (arrayfy (gpuChannel filter))) in HlenW, Hplaced.
  fold (placedChannels MAX filter filters) in HlenW, Hplaced.
  fold W in HlenW, Hplaced. simpl in HlenW, Hplaced.
  assert (forall k, (k < length (dataId filter))%nat ->
            exists c, W !! k = Some (Num c)) as Hall.
  { intros k Hk. destruct (lookup_lt_is_Some_2 (dataId filter) k Hk) as [did Hd].
    destruct (Hplaced k did Hd (Hserve k did Hd)) as (c & Hc & _).
    exists c. now apply js_get_Num. }
  assert (length W = length (dataId filter)) as HlenEq.
  { apply Nat.le_antisymm; [lia|].
    destruct (length (dataId filter)) as [|n] eqn:Hn.
    - destruct (dataId filter); [contradiction | discriminate].
    - destruct (Hall n ltac:(lia)) as (c & Hc). apply lookup_lt_Some in Hc. lia. }
  assert (every_isFinite W = true) as Hevery.
  { apply every_isFinite_all_Num. intros k Hk. apply Hall. lia. }
  assert ((length W =? 0)%nat = false) as Hnz.
  { apply Nat.eqb_neq. rewrite HlenEq.
    destruct (dataId filter); [contradiction | discriminate]. }
  rewrite Hnz, Hevery. simpl. split; [exact Hg|].
  exists W. split; [reflexivity|]. split; [exact HlenEq | exact Hall].
Qed.

(** X14. When no dataset is included by more than [MAX_GPU_FILTERS] filters
    in GPU mode, [assignGpuChannels] turns down no filter that asks for GPU
    mode on at least one dataset with a channel array no longer than its
    [dataId]: the filter stays in GPU mode and comes back with exactly one
    finite channel for every position of [dataId]. *)
Theorem assignGpuChannels_serves_within_capacity (MAX : nat)
    (fs : list Filter) (j : nat) (f : Filter) :
  withinCapacity MAX fs ->
  fs !! j = Some f -> gpu f = true -> dataId f <> [] ->
  (length (arrayfy (gpuChannel f)) <= length (dataId f))%nat ->
  exists a gc,
    assignGpuChannels MAX fs !! j = Some a
    /\ gpu a = true /\ gpuChannel a = Some gc
    /\ length gc = length (dataId f)
    /\ forall k, (k < length (dataId f))%nat -> exists c, gc !! k = Some (Num c).
Proof.
  intros Hcap Hf Hg Hne Hlen.
  destruct (assignGpuChannels_lookup MAX fs j f Hf) as (accu & Hshape & Hacc & Hout).
  rewrite Hg in Hout.
  destruct (assignGpuChannel_served MAX f accu Hg Hne Hlen) as (Hga & gc & Hgc & Hl & Hall).
  { intros k did Hk. right. apply free_channel.
    - pose proof (gpuCount_sameShape fs accu did Hshape). specialize (Hcap did). lia.
    - apply list_elem_of_lookup. eauto.
    - exact Hg.
    - apply list_elem_of_lookup. eauto. }
  exists (assignGpuChannel MAX f accu), gc.
  split; [exact Hout|]. split; [exact Hga|]. split; [exact Hgc|].
  split; [exact Hl | exact Hall].
Qed.

(** ** The table entry of the filter that holds a channel *)

Lemma channelAt_holds (g : Filter) (did : string) (gc : list slot) (c : Z) :
  gpuChannel g = Some gc -> channelAt g did c ->
  strict_eq_num (js_get gc (Z.to_nat (indexOf (dataId g) did))) c = true.
Proof.
  intros Hgc (k & Hk & Hc). apply indexOf_position in Hk.
  rewrite Hk, Nat2Z.id. rewrite Hgc in Hc. simpl in Hc.
  apply js_get_Num in Hc. rewrite Hc. simpl. apply Z.eqb_refl.
Qed.

Lemma findChannelFilter_None (filters : list Filter) (did : string) (i : nat) :
  findChannelFilter filters did i = Ok None ->
  forall f, f ∈ filters -> gpu f = true -> ~ channelAt f did (Z.of_nat i).
Proof.
  induction filters as [|g rest IH]; simpl; intros Hfind f Hin Hgpu Hch.
  - now apply not_elem_of_nil in Hin.
  - destruct (gpu g && includes (dataId g) did) eqn:Hg.
    + destruct (gpuChannel g) as [gc|] eqn:Hgc; [|discriminate].
      destruct (strict_eq_num _ _) eqn:Heq; [discriminate|].
      apply elem_of_cons in Hin. destruct Hin as [->|Hin].
      * rewrite (channelAt_holds g did gc _ Hgc Hch) in Heq. discriminate.
      * now apply (IH Hfind f Hin Hgpu).
    + apply elem_of_cons in Hin. destruct Hin as [->|Hin].
      * apply channelAt_includes, includes_elem_of in Hch.
        rewrite Hgpu, Hch in Hg. discriminate.
      * now apply (IH Hfind f Hin Hgpu).
Qed.

Lemma same_id_same_filter (l : list Filter) (f g : Filter) :
  NoDup (id <$> l) -> f ∈ l -> g ∈ l -> id f = id g -> f = g.
Proof.
  intros Hnd Hf Hg Hid.
  apply list_elem_of_lookup in Hf, Hg.
  destruct Hf as [j1 H1]. destruct Hg as [j2 H2].
  assert (j1 = j2) as ->.
  { apply (NoDup_lookup (id <$> l) j1 j2 (id f) Hnd).
    - now rewrite list_lookup_fmap, H1.
    - rewrite list_lookup_fmap, H2. simpl. congruence. }
  congruence.
Qed.

(** X15. In a collection with pairwise distinct ids in which no two filters
    in GPU mode hold the same channel of a dataset, the filter in GPU mode
    that holds channel [i] of a dataset is the one [getGpuFilterProps] finds
    for that channel, and entry [i] of the range table is its value range
    shifted by the lower end of its domain. *)
Theorem getGpuFilterProps_entry_of_holder (MAX : nat) (D : Type)
    (filters : list Filter) (did : string) (props : GpuFilterProps D)
    (i : nat) (f : Filter) :
  NoDup (id <$> filters) -> injectiveChannels filters ->
  f ∈ filters -> gpu f = true -> channelAt f did (Z.of_nat i) ->
  (i < MAX)%nat ->
  getGpuFilterProps MAX D filters did = Ok props ->
  findChannelFilter filters did i = Ok (Some f)
  /\ filterRange props !! i
     = Some (fst (value f) - fst (domain f), snd (value f) - fst (domain f)).
Proof.
  intros Hnd Hinj Hin Hg Hch Hi. unfold getGpuFilterProps. intros Hprops.
  destruct (propsLoop filters did 0 MAX _) as [st|] eqn:Hrun; [|discriminate].
  injection Hprops as <-. simpl.
  apply propsLoop_table in Hrun;
    [|simpl; unfold getEmptyFilterRange; rewrite length_replicate; lia].
  destruct Hrun as (_ & _ & _ & Hnew).
  destruct (Hnew i ltac:(lia)) as (flt & Hfind & Hrange & _).
  assert (flt = Some f) as ->.
  { destruct flt as [g|].
    - destruct (findChannelFilter_found filters did i g Hfind)
        as (Hgin & Hgg & _ & Hgch).
      f_equal. apply (same_id_same_filter filters g f Hnd Hgin Hin).
      destruct (String.eqb_spec (id g) (id f)) as [Heq|Hne]; [exact Heq|].
      exfalso. exact (Hinj did (Z.of_nat i) g f Hgin Hin Hne Hgg Hg Hgch Hch).
    - exfalso. exact (findChannelFilter_None filters did i Hfind f Hin Hg Hch). }
  split; [exact Hfind | exact Hrange].
Qed.

(** ** The properties above on the scenario and on the crowded collections *)

Lemma scenario_within_capacity :
  withinCapacity MAX_GPU_FILTERS_default [scenarioF1; scenarioF2].
Proof.
  apply withinCapacity_short. unfold MAX_GPU_FILTERS_default. simpl. lia.
Qed.

Lemma scenario_no_holder_of_channel_2 (f : Filter) :
  f ∈ scenarioAssigned -> gpu f = true -> ~ channelAt f "d1" 2.
Proof.
  intros Hin _ (k & _ & Hc).
  assert (scenarioAssigned = [ set_gpuChannel (Some [Num 0]) scenarioF1;
                               set_gpuChannel (Some [Num 1]) scenarioF2 ]) as Hs
    by reflexivity.
  rewrite Hs in Hin.
  apply elem_of_cons in Hin. destruct Hin as [->|Hin].
  - destruct k as [|[|k]]; simpl in Hc; discriminate.
  - apply list_elem_of_singleton in Hin. subst f.
    destruct k as [|[|k]]; simpl in Hc; discriminate.
Qed.

Lemma assignGpuChannels_gpu_filters_pass_final_test_witness :
  let a := set_gpuChannel (Some [Num 0]) scenarioF1 in
  a ∈ assignGpuChannels MAX_GPU_FILTERS_default [scenarioF1; scenarioF2]
  /\ gpu a = true /\ passesFinalTest a.
Proof.
  intros a.
  assert (a ∈ assignGpuChannels MAX_GPU_FILTERS_default [scenarioF1; scenarioF2])
    as H1 by (apply list_elem_of_lookup; exists 0%nat; reflexivity).
  assert (gpu a = true) as H2 by reflexivity.
  split; [exact H1|]. split; [exact H2|].
  exact (assignGpuChannels_gpu_filters_pass_final_test MAX_GPU_FILTERS_default
           [scenarioF1; scenarioF2] a H1 H2).
Defined.

Lemma assignGpuChannels_keeps_channels_in_range_witness :
  channelsInRange MAX_GPU_FILTERS_default [scenarioF1; scenarioF2]
  /\ channelsInRange MAX_GPU_FILTERS_default
       (assignGpuChannels MAX_GPU_FILTERS_default [scenarioF1; scenarioF2]).
Proof.
  assert (channelsInRange MAX_GPU_FILTERS_default [scenarioF1; scenarioF2]) as H1.
  { intros f k c Hf Hk.
    apply elem_of_cons in Hf. destruct Hf as [->|Hf];
      [simpl in Hk; now rewrite lookup_nil in Hk|].
    apply list_elem_of_singleton in Hf. subst f.
    simpl in Hk. now rewrite lookup_nil in Hk. }
  split; [exact H1|].
  exact (assignGpuChannels_keeps_channels_in_range MAX_GPU_FILTERS_default
           [scenarioF1; scenarioF2] H1).
Defined.

Lemma resetFilterGpuMode_within_capacity_witness :
  (0 < 2)%nat
  /\ (forall did, inherited did = false ->
        (gpuCount (resetFilterGpuMode 2 repeatedDataset) did <= 2)%nat)
  /\ (plainDatasets repeatedDataset ->
      withinCapacity 2 (resetFilterGpuMode 2 repeatedDataset)).
Proof.
  assert (0 < 2)%nat as H1 by lia.
  split; [exact H1|].
  exact (resetFilterGpuMode_within_capacity 2 repeatedDataset H1).
Defined.

Lemma reset_then_assign_injective_witness :
  NoDup (id <$> crowdedDataset)
  /\ plainDatasets crowdedDataset
  /\ (0 < MAX_GPU_FILTERS_default)%nat
  /\ injectiveChannels
       (assignGpuChannels MAX_GPU_FILTERS_default
          (resetFilterGpuMode MAX_GPU_FILTERS_default crowdedDataset)).
Proof.
  assert (NoDup (id <$> crowdedDataset)) as H1
    by (apply (bool_decide_unpack _); vm_compute; exact I).
  assert (plainDatasets crowdedDataset) as Hplain by (repeat constructor).
  assert (0 < MAX_GPU_FILTERS_default)%nat as H2
    by (unfold MAX_GPU_FILTERS_default; lia).
  split; [exact H1|]. split; [exact Hplain|]. split; [exact H2|].
  exact (reset_then_assign_injective MAX_GPU_FILTERS_default crowdedDataset
           H1 Hplain H2).
Defined.

Lemma resetFilterGpuMode_idempotent_witness :
  (0 < 2)%nat
  /\ resetFilterGpuMode 2 (resetFilterGpuMode 2 repeatedDataset)
     = resetFilterGpuMode 2 repeatedDataset.
Proof.
  assert (0 < 2)%nat as H1 by lia.
  split; [exact H1|].
  exact (resetFilterGpuMode_idempotent 2 repeatedDataset H1).
Defined.

Lemma resetFilterGpuMode_within_capacity_id_witness :
  (0 < MAX_GPU_FILTERS_default)%nat
  /\ Forall (fun f => NoDup (dataId f)) [scenarioF1; scenarioF2]
  /\ withinCapacity MAX_GPU_FILTERS_default [scenarioF1; scenarioF2]
  /\ resetFilterGpuMode MAX_GPU_FILTERS_default [scenarioF1; scenarioF2]
     = [scenarioF1; scenarioF2].
Proof.
  assert (0 < MAX_GPU_FILTERS_default)%nat as H1
    by (unfold MAX_GPU_FILTERS_default; lia).
  assert (Forall (fun f => NoDup (dataId f)) [scenarioF1; scenarioF2]) as H2
    by (apply (bool_decide_unpack _); vm_compute; exact I).
  pose proof scenario_within_capacity as H3.
  split; [exact H1|]. split; [exact H2|]. split; [exact H3|].
  exact (resetFilterGpuMode_within_capacity_id MAX_GPU_FILTERS_default
           [scenarioF1; scenarioF2] H1 H2 H3).
Defined.

Lemma getGpuFilterProps_range_table_witness :
  getGpuFilterProps MAX_GPU_FILTERS_default datum scenarioAssigned "d1"
    = Ok scenarioProps
  /\ (2 < MAX_GPU_FILTERS_default)%nat
  /\ length (filterRange scenarioProps) = MAX_GPU_FILTERS_default
  /\ filterRange scenarioProps !! 2%nat = Some (0, 0)
  /\ forall getIndex getData d,
       filterValueAccessor scenarioProps getIndex getData d !! 2%nat = Some 0.
Proof.
  assert (getGpuFilterProps MAX_GPU_FILTERS_default datum scenarioAssigned "d1"
            = Ok scenarioProps) as H1 by (vm_compute; reflexivity).
  assert (2 < MAX_GPU_FILTERS_default)%nat as H2
    by (unfold MAX_GPU_FILTERS_default; lia).
  destruct (getGpuFilterProps_range_table MAX_GPU_FILTERS_default datum
              scenarioAssigned "d1" scenarioProps 2 H1 H2) as (Hlen & _ & Hempty).
  split; [exact H1|]. split; [exact H2|]. split; [exact Hlen|].
  apply Hempty. exact scenario_no_holder_of_channel_2.
Defined.

Lemma getGpuFilterProps_triggers_witness :
  getGpuFilterProps MAX_GPU_FILTERS_default datum scenarioAssigned "d1"
    = Ok scenarioProps
  /\ filterValueUpdateTriggers scenarioProps !! triggerKey 0 = Some (TName "price")
  /\ filterValueUpdateTriggers scenarioProps !! triggerKey 2 = Some TNull
  /\ filterValueUpdateTriggers scenarioProps !! "gpuFilter_4" = None.
Proof.
  assert (getGpuFilterProps MAX_GPU_FILTERS_default datum scenarioAssigned "d1"
            = Ok scenarioProps) as H1 by (vm_compute; reflexivity).
  destruct (getGpuFilterProps_triggers MAX_GPU_FILTERS_default datum
              scenarioAssigned "d1" scenarioProps H1) as (Hother & _ & Hkeys).
  split; [exact H1|]. split; [|split].
  - destruct (Hkeys 0%nat ltac:(unfold MAX_GPU_FILTERS_default; lia)) as [Hfound _].
    exact (Hfound (set_gpuChannel (Some [Num 0]) scenarioF1) eq_refl).
  - destruct (Hkeys 2%nat ltac:(unfold MAX_GPU_FILTERS_default; lia)) as [_ Hnull].
    apply Hnull. exact scenario_no_holder_of_channel_2.
  - apply Hother. intros i Hi. unfold MAX_GPU_FILTERS_default in Hi.
    destruct i as [|[|[|[|i]]]]; try lia; discriminate.
Defined.

Lemma getGpuFilterProps_throws_on_missing_channels_witness :
  (0 < MAX_GPU_FILTERS_default)%nat
  /\ gpu scenarioF1 = true /\ "d1" ∈ dataId scenarioF1
  /\ gpuChannel scenarioF1 = None
  /\ getGpuFilterProps MAX_GPU_FILTERS_default datum
       ([] ++ scenarioF1 :: [scenarioF2]) "d1" = TypeError.
Proof.
  assert (0 < MAX_GPU_FILTERS_default)%nat as H1
    by (unfold MAX_GPU_FILTERS_default; lia).
  assert ("d1" ∈ dataId scenarioF1) as H3 by (simpl; left).
  split; [exact H1|]. split; [reflexivity|]. split; [exact H3|].
  split; [reflexivity|].
  apply (getGpuFilterProps_throws_on_missing_channels MAX_GPU_FILTERS_default
           datum [] [scenarioF2] scenarioF1 "d1" H1 eq_refl H3 eq_refl).
  intros g Hg. now apply not_elem_of_nil in Hg.
Defined.

Lemma assignGpuChannel_stable_first_fit_witness :
  let placed := set_gpuChannel (Some [Num 0]) scenarioF1 in
  gpu scenarioF2 = true
  /\ gpu (assignGpuChannel MAX_GPU_FILTERS_default scenarioF2 [placed; scenarioF2])
     = true
  /\ exists W,
       gpuChannel (assignGpuChannel MAX_GPU_FILTERS_default scenarioF2
                     [placed; scenarioF2]) = Some W
       /\ W !! 0%nat = Some (Num 1).
Proof.
  intros placed.
  assert (gpu scenarioF2 = true) as H1 by reflexivity.
  assert (gpu (assignGpuChannel MAX_GPU_FILTERS_default scenarioF2
                 [placed; scenarioF2]) = true) as H2 by reflexivity.
  destruct (assignGpuChannel_stable_first_fit MAX_GPU_FILTERS_default scenarioF2
              [placed; scenarioF2] H1 H2) as (W & HW & Hall).
  split; [exact H1|]. split; [exact H2|]. exists W. split; [exact HW|].
  destruct (Hall 0%nat "d1" eq_refl) as [_ Hfit].
  apply (Hfit ltac:(intros c Hc; discriminate Hc) 1%nat).
  - unfold MAX_GPU_FILTERS_default. lia.
  - reflexivity.
  - intros j Hj. assert (j = 0%nat) as -> by lia. reflexivity.
Defined.

Lemma assignGpuChannels_serves_within_capacity_witness :
  withinCapacity MAX_GPU_FILTERS_default [scenarioF1; scenarioF2]
  /\ exists a gc,
       assignGpuChannels MAX_GPU_FILTERS_default [scenarioF1; scenarioF2] !! 1%nat
         = Some a
       /\ gpu a = true /\ gpuChannel a = Some gc
       /\ length gc = length (dataId scenarioF2)
       /\ forall k, (k < length (dataId scenarioF2))%nat ->
            exists c, gc !! k = Some (Num c).
Proof.
  pose proof scenario_within_capacity as H1.
  split; [exact H1|].
  apply (assignGpuChannels_serves_within_capacity MAX_GPU_FILTERS_default
           [scenarioF1; scenarioF2] 1 scenarioF2 H1 eq_refl eq_refl).
  - simpl. discriminate.
  - simpl. lia.
Defined.

Lemma getGpuFilterProps_entry_of_holder_witness :
  let a := set_gpuChannel (Some [Num 0]) scenarioF1 in
  NoDup (id <$> scenarioAssigned)
  /\ injectiveChannels scenarioAssigned
  /\ findChannelFilter scenarioAssigned "d1" 0 = Ok (Some a)
  /\ filterRange scenarioProps !! 0%nat = Some (10, 20).
Proof.
  intros a.
  assert (NoDup (id <$> scenarioAssigned)) as H1
    by (apply (bool_decide_unpack _); vm_compute; exact I).
  assert (injectiveChannels scenarioAssigned) as H2.
  { apply placedInjective_injectiveChannels.
    apply assignGpuChannels_placedInjective.
    - apply (bool_decide_unpack _). vm_compute. exact I.
    - exact scenario_within_capacity. }
  assert (a ∈ scenarioAssigned) as H3
    by (apply list_elem_of_lookup; exists 0%nat; reflexivity).
  assert (channelAt a "d1" (Z.of_nat 0)) as H4 by now apply channelAt_single.
  assert (0 < MAX_GPU_FILTERS_default)%nat as H5
    by (unfold MAX_GPU_FILTERS_default; lia).
  assert (getGpuFilterProps MAX_GPU_FILTERS_default datum scenarioAssigned "d1"
            = Ok scenarioProps) as H6 by (vm_compute; reflexivity).
  split; [exact H1|]. split; [exact H2|].
  exact (getGpuFilterProps_entry_of_holder MAX_GPU_FILTERS_default datum
           scenarioAssigned "d1" scenarioProps 0 a H1 H2 H3 eq_refl H4 H5 H6).
Defined.

Lemma assignGpuChannels_injective_within_capacity_witness :
  NoDup (id <$> [scenarioF1; scenarioF2])
  /\ withinCapacity MAX_GPU_FILTERS_default [scenarioF1; scenarioF2]
  /\ injectiveChannels
       (assignGpuChannels MAX_GPU_FILTERS_default [scenarioF1; scenarioF2]).
Proof.
  assert (NoDup (id <$> [scenarioF1; scenarioF2])) as H1
    by (apply (bool_decide_unpack _); vm_compute; exact I).
  pose proof scenario_within_capacity as H2.
  split; [exact H1|]. split; [exact H2|].
  exact (assignGpuChannels_injective_within_capacity MAX_GPU_FILTERS_default
           [scenarioF1; scenarioF2] H1 H2).
Defined.

(** ** Capacity enforcement followed by allocation serves every filter kept *)

(** X17. When [MAX_GPU_FILTERS] is positive, every filter that
    [resetFilterGpuMode] leaves in GPU mode, on at least one dataset, with
    no dataset id that is the name of a property of [Object.prototype] and
    with a channel array no longer than its [dataId], is still in GPU mode
    after [assignGpuChannels] and holds exactly one finite channel for every
    position of its [dataId]. *)
Theorem reset_then_assign_serves (MAX : nat) (fs : list Filter) (j : nat)
    (a : Filter) :
  (0 < MAX)%nat ->
  resetFilterGpuMode MAX fs !! j = Some a ->
  gpu a = true -> dataId a <> [] ->
  Forall (fun did => inherited did = false) (dataId a) ->
  (length (arrayfy (gpuChannel a)) <= length (dataId a))%nat ->
  exists b gc,
    assignGpuChannels MAX (resetFilterGpuMode MAX fs) !! j = Some b
    /\ gpu b = true /\ gpuChannel b = Some gc
    /\ length gc = length (dataId a)
    /\ forall k, (k < length (dataId a))%nat -> exists c, gc !! k = Some (Num c).
Proof.
  intros Hpos Ha Hg Hne Hplain Hlen.
  set (out := resetFilterGpuMode MAX fs) in *.
  destruct (assignGpuChannels_lookup MAX out j a Ha) as (accu & Hshape & Hacc & Hout).
  rewrite Hg in Hout.
  destruct (assignGpuChannel_served MAX a accu Hg Hne Hlen)
    as (Hga & gc & Hgc & Hl & Hall).
  { intros k did Hk. right. apply free_channel.
    - pose proof (gpuCount_sameShape out accu did Hshape) as Hsame.
      assert (inherited did = false) as Hdid.
      { rewrite Forall_forall in Hplain. apply Hplain.
        apply list_elem_of_lookup. eauto. }
      pose proof (resetFilterGpuMode_capacity MAX fs did Hpos Hdid) as Hcap.
      fold out in Hcap. lia.
    - apply list_elem_of_lookup. eauto.
    - exact Hg.
    - apply list_elem_of_lookup. eauto. }
  exists (assignGpuChannel MAX a accu), gc.
  split; [exact Hout|]. split; [exact Hga|]. split; [exact Hgc|].
  split; [exact Hl | exact Hall].
Qed.

Lemma reset_then_assign_serves_witness :
  let C := sampleFilter "c" ["d1"] true (Some [Num 2]) in
  (0 < MAX_GPU_FILTERS_default)%nat
  /\ resetFilterGpuMode MAX_GPU_FILTERS_default crowdedDataset !! 2%nat = Some C
  /\ Forall (fun did => inherited did = false) (dataId C)
  /\ exists b gc,
       assignGpuChannels MAX_GPU_FILTERS_default
         (resetFilterGpuMode MAX_GPU_FILTERS_default crowdedDataset) !! 2%nat
         = Some b
       /\ gpu b = true /\ gpuChannel b = Some gc
       /\ length gc = length (dataId C)
       /\ forall k, (k < length (dataId C))%nat -> exists c, gc !! k = Some (Num c).
Proof.
  intros C.
  assert (0 < MAX_GPU_FILTERS_default)%nat as H1
    by (unfold MAX_GPU_FILTERS_default; lia).
  assert (resetFilterGpuMode MAX_GPU_FILTERS_default crowdedDataset !! 2%nat
            = Some C) as H2 by reflexivity.
  assert (Forall (fun did => inherited did = false) (dataId C)) as H3
    by (repeat constructor).
  split; [exact H1|]. split; [exact H2|]. split; [exact H3|].
  apply (reset_then_assign_serves MAX_GPU_FILTERS_default crowdedDataset 2 C
           H1 H2 eq_refl).
  - simpl. discriminate.
  - exact H3.
  - simpl. lia.
Defined.

(** ** resetFilterGpuMode with no channel at all *)

Lemma forEach_countDataset_zero (l : list string) :
  forall idx g m,
    (forall did, readCounter m did <> Some (CountNum 0)) ->
    exists m',
      forEach_from (countDataset 0) l idx (g, m) = (g, m')
      /\ forall did, readCounter m' did <> Some (CountNum 0).
Proof.
  induction l as [|d0 l IH]; intros idx g m Hm; cbn [forEach_from].
  - exists m. split; [reflexivity | exact Hm].
  - assert (exists v, countDataset 0 d0 idx (g, m) = (g, writeCounter d0 v m)
                      /\ v <> CountNum 0) as (v & -> & Hv).
    { unfold countDataset. rewrite decide_False by apply Hm.
      eexists. split; [reflexivity|].
      destruct (readCounter m d0) as [[[|c]|]|]; discriminate. }
    apply IH. intros did. rewrite readCounter_write.
    destruct (decide (did = d0)) as [->|_]; [|apply Hm].
    destruct (String.eqb d0 "__proto__"); [apply Hm | congruence].
Qed.

Lemma resetFilterGpuMode_from_zero (fs : list Filter) :
  forall m, (forall did, readCounter m did <> Some (CountNum 0)) ->
    resetFilterGpuMode_from 0 fs m = fs.
Proof.
  induction fs as [|f fs IH]; intros m Hm; simpl; [reflexivity|].
  unfold resetOne. destruct (gpu f).
  - unfold forEach.
    destruct (forEach_countDataset_zero (dataId f) 0 true m Hm) as (m' & -> & Hm').
    simpl. f_equal. now apply IH.
  - f_equal. now apply IH.
Qed.

(** X18. With [MAX_GPU_FILTERS] zero, [resetFilterGpuMode] turns down
    nobody: a counter is missing before its first use and at least one
    afterwards, so it never equals zero, and the collection comes back as
    it is. *)
Theorem resetFilterGpuMode_zero_channels (fs : list Filter) :
  resetFilterGpuMode 0 fs = fs.
Proof.
  unfold resetFilterGpuMode. apply resetFilterGpuMode_from_zero.
  intros did. unfold readCounter. rewrite lookup_empty.
  destruct (inherited did); discriminate.
Qed.

(** ** getGpuFilterProps for a dataset that no GPU filter includes *)

Lemma findChannelFilter_unknown_dataset (filters : list Filter) (did : string)
    (i : nat) :
  (forall f, f ∈ filters -> gpu f = true -> did ∉ dataId f) ->
  findChannelFilter filters did i = Ok None.
Proof.
  induction filters as [|f rest IH]; intros Hall; simpl; [reflexivity|].
  assert (gpu f && includes (dataId f) did = false) as ->.
  { destruct (gpu f) eqn:Hg; [|reflexivity]. simpl.
    apply not_true_iff_false. intros Hinc. apply includes_elem_of in Hinc.
    exact (Hall f ltac:(left) Hg Hinc). }
  apply IH. intros g Hg. apply Hall. now right.
Qed.

Lemma propsLoop_ext (filters1 filters2 : list Filter) (did : string) (n : nat) :
  (forall i, findChannelFilter filters1 did i = findChannelFilter filters2 did i) ->
  forall i st, propsLoop filters1 did i n st = propsLoop filters2 did i n st.
Proof.
  intros Hext. induction n as [|n IH]; intros i st; simpl; [reflexivity|].
  rewrite Hext. destruct (findChannelFilter filters2 did i); [apply IH | reflexivity].
Qed.

(** X19. For a dataset that no filter in GPU mode includes,
    [getGpuFilterProps] returns what it returns for the empty collection: a
    range table of [[0, 0]] entries, null triggers and an accessor that
    yields zeros; it does not throw, whatever the filters hold. *)
Theorem getGpuFilterProps_unknown_dataset (MAX : nat) (D : Type)
    (filters : list Filter) (did : string) :
  (forall f, f ∈ filters -> gpu f = true -> did ∉ dataId f) ->
  getGpuFilterProps MAX D filters did = getGpuFilterProps MAX D [] did
  /\ exists props,
       getGpuFilterProps MAX D filters did = Ok props
       /\ filterRange props = replicate MAX (0, 0)
       /\ forall getIndex getData d,
            filterValueAccessor props getIndex getData d = replicate MAX 0.
Proof.
  intros Hall.
  assert (getGpuFilterProps MAX D filters did = getGpuFilterProps MAX D [] did)
    as Heq.
  { unfold getGpuFilterProps. rewrite (propsLoop_ext filters [] did MAX); [reflexivity|].
    intros i. now rewrite findChannelFilter_unknown_dataset. }
  split; [exact Heq|]. rewrite Heq. unfold getGpuFilterProps.
  destruct (propsLoop_no_filters did MAX 0
              {| stRange := getEmptyFilterRange MAX; stTriggers := ∅;
                 stChannels := [] |})
    as (st' & Hrun & Hch & Hlen & Hzero & _).
  rewrite Hrun. simpl in *. eexists. split; [reflexivity|]. simpl.
  unfold getEmptyFilterRange in *. rewrite length_replicate in Hlen. split.
  - symmetry. apply replicate_as_Forall. split; [exact Hlen|].
    specialize (Hzero (Forall_replicate _ _ _ eq_refl)).
    eapply Forall_impl; [exact Hzero|]. intros r Hr. now symmetry.
  - intros getIndex getData d. rewrite Hch. apply accessor_no_filters.
Qed.

Lemma getGpuFilterProps_unknown_dataset_witness :
  getGpuFilterProps MAX_GPU_FILTERS_default datum [scenarioF1; scenarioF2] "d9"
  = getGpuFilterProps MAX_GPU_FILTERS_default datum [] "d9"
  /\ exists props,
       getGpuFilterProps MAX_GPU_FILTERS_default datum [scenarioF1; scenarioF2] "d9"
         = Ok props
       /\ filterRange props = replicate MAX_GPU_FILTERS_default (0, 0)
       /\ forall getIndex getData d,
            filterValueAccessor props getIndex getData d
            = replicate MAX_GPU_FILTERS_default 0.
Proof.
  apply (getGpuFilterProps_unknown_dataset MAX_GPU_FILTERS_default datum
           [scenarioF1; scenarioF2] "d9").
  intros f Hf _ Hd.
  apply elem_of_cons in Hf. destruct Hf as [->|Hf].
  - simpl in Hd. apply list_elem_of_singleton in Hd. discriminate.
  - apply list_elem_of_singleton in Hf. subst f.
    simpl in Hd. apply list_elem_of_singleton in Hd. discriminate.
Defined.

(** ** From the collection to the layer properties *)

Lemma positionOf_exists (l : list string) (did : string) :
  did ∈ l -> exists k, positionOf l did k.
Proof.
  induction l as [|x l IH]; intros Hin; [inversion Hin|].
  destruct (decide (x = did)) as [->|Hne].
  - exists 0%nat. split; [reflexivity | intros j Hj; lia].
  - apply elem_of_cons in Hin. destruct Hin as [Heq|Hin]; [congruence|].
    destruct (IH Hin) as (k & Hk & Hlt). exists (Datatypes.S k).
    split; [exact Hk|]. intros [|j] Hj; simpl; [congruence | apply Hlt; lia].
Qed.

Lemma assignGpuChannels_ids (MAX : nat) (fs : list Filter) :
  id <$> assignGpuChannels MAX fs = id <$> fs.
Proof.
  apply list_eq. intros j. rewrite !list_lookup_fmap.
  destruct (fs !! j) as [f|] eqn:Hf.
  - destruct (assignGpuChannels_lookup MAX fs j f Hf) as (accu & _ & _ & ->).
    simpl. f_equal. destruct (gpu f); [|reflexivity].
    now destruct (assignGpuChannel_shape MAX f accu) as (H & _).
  - apply lookup_ge_None in Hf.
    rewrite (proj2 (lookup_ge_None (assignGpuChannels MAX fs) j)); [reflexivity|].
    unfold assignGpuChannels. now rewrite length_assignGpuChannels_from.
Qed.

Lemma findChannelFilter_holder (filters : list Filter) (did : string) (i : nat)
    (f : Filter) (flt : option Filter) :
  NoDup (id <$> filters) -> injectiveChannels filters ->
  f ∈ filters -> gpu f = true -> channelAt f did (Z.of_nat i) ->
  findChannelFilter filters did i = Ok flt -> flt = Some f.
Proof.
  intros Hnd Hinj Hin Hg Hch Hfind. destruct flt as [g|].
  - destruct (findChannelFilter_found filters did i g Hfind)
      as (Hgin & Hgg & _ & Hgch).
    f_equal. apply (same_id_same_filter filters g f Hnd Hgin Hin).
    destruct (String.eqb_spec (id g) (id f)) as [Heq|Hne]; [exact Heq|].
    exfalso. exact (Hinj did (Z.of_nat i) g f Hgin Hin Hne Hgg Hg Hgch Hch).
  - exfalso. exact (findChannelFilter_None filters did i Hfind f Hin Hg Hch).
Qed.

(** X20. Take a collection with pairwise distinct ids, with no dataset id
    that is the name of a property of [Object.prototype] and whose stored
    channels all lie in [0, MAX_GPU_FILTERS), with [MAX_GPU_FILTERS]
    positive, and run [resetFilterGpuMode] and then [assignGpuChannels] on
    it.  Then for
    every filter left in GPU mode and every dataset it includes,
    [getGpuFilterProps] returns, and the filter is the one found on some
    channel [i] below [MAX_GPU_FILTERS]: it holds channel [i] of the
    dataset and entry [i] of the range table is its value range shifted by
    the lower end of its domain.  No filter in GPU mode is left out of the
    properties of its layers. *)
Theorem pipeline_gpu_filter_has_slot (MAX : nat) (D : Type)
    (fs : list Filter) (did : string) (a : Filter) :
  NoDup (id <$> fs) -> plainDatasets fs ->
  (0 < MAX)%nat -> channelsInRange MAX fs ->
  a ∈ assignGpuChannels MAX (resetFilterGpuMode MAX fs) ->
  gpu a = true -> did ∈ dataId a ->
  exists props i,
    getGpuFilterProps MAX D
      (assignGpuChannels MAX (resetFilterGpuMode MAX fs)) did = Ok props
    /\ (i < MAX)%nat
    /\ channelAt a did (Z.of_nat i)
    /\ findChannelFilter
         (assignGpuChannels MAX (resetFilterGpuMode MAX fs)) did i = Ok (Some a)
    /\ filterRange props !! i
       = Some (fst (value a) - fst (domain a), snd (value a) - fst (domain a)).
Proof.
  intros Hnd Hplain Hpos Hrange Hin Hg Hd.
  pose proof (resetFilterGpuMode_from_lowered MAX fs ∅) as Hlow.
  fold (resetFilterGpuMode MAX fs) in Hlow.
  pose proof (resetFilterGpuMode_plain_capacity MAX fs Hpos Hplain) as Hcap.
  set (out0 := resetFilterGpuMode MAX fs) in *.
  assert (NoDup (id <$> out0)) as Hnd0
    by now rewrite (gpuOnlyLowered_ids fs _ Hlow).
  set (out := assignGpuChannels MAX out0) in *.
  assert (NoDup (id <$> out)) as Hnd1
    by (unfold out; now rewrite assignGpuChannels_ids).
  assert (injectiveChannels out) as Hinj.
  { apply placedInjective_injectiveChannels.
    now apply assignGpuChannels_placedInjective. }
  (* the filter [a] is the allocation of a filter [f0] of the capped
     collection *)
  pose proof Hin as Hj. apply list_elem_of_lookup in Hj. destruct Hj as [j Hj].
  assert (exists f0, out0 !! j = Some f0) as [f0 Hf0].
  { apply lookup_lt_is_Some_2. apply lookup_lt_Some in Hj.
    unfold out, assignGpuChannels in Hj.
    now rewrite length_assignGpuChannels_from in Hj. }
  destruct (assignGpuChannels_lookup MAX out0 j f0 Hf0)
    as (accu & Hshape & Hacc & Hout).
  fold out in Hout. rewrite Hj in Hout. injection Hout as Ha.
  destruct (gpu f0) eqn:Hg0; [|congruence].
  destruct (Forall2_lookup_r _ _ _ _ _ Hlow Hf0) as (f & Hf & Hlf).
  destruct Hlf as (_ & _ & _ & _ & Hgc0 & _).
  assert (dataId a = dataId f0) as Hda.
  { rewrite Ha. now destruct (assignGpuChannel_shape MAX f0 accu) as (_ & H & _). }
  rewrite Hda in Hd.
  destruct (positionOf_exists _ _ Hd) as (k & Hk).
  pose proof Hk as [Hkl _].
  (* its position for the dataset receives a channel *)
  destruct (forEach_placeChannel MAX f0 accu (dataId f0) 0
              (arrayfy (gpuChannel f0))) as (_ & _ & Hplaced).
  fold (forEach (placeChannel MAX f0 accu) (dataId f0)
          (arrayfy (gpuChannel f0))) in Hplaced.
  fold (placedChannels MAX f0 accu) in Hplaced. simpl in Hplaced.
  destruct (Hplaced k did Hkl) as (c & Hc & _).
  { right. apply free_channel.
    - pose proof (gpuCount_sameShape out0 accu did Hshape).
      specialize (Hcap did). lia.
    - apply list_elem_of_lookup. eauto.
    - exact Hg0.
    - exact Hd. }
  apply js_get_Num in Hc.
  assert (0 <= c < Z.of_nat MAX) as Hcr.
  { apply (forEach_placeChannel_range MAX f0 accu (dataId f0) 0
             (arrayfy (gpuChannel f0))) with (k := k).
    - intros k' c' Hk'. apply (Hrange f k' c').
      + apply list_elem_of_lookup. eauto.
      + now rewrite <- Hgc0.
    - exact Hc. }
  rewrite (assignGpuChannel_gpu_unfold MAX f0 accu Hg0) in Ha. cbv zeta in Ha.
  destruct ((length (placedChannels MAX f0 accu) =? 0)%nat
            || negb (every_isFinite (placedChannels MAX f0 accu))) eqn:Htest.
  { rewrite Ha in Hg. simpl in Hg. discriminate. }
  assert (channelAt a did (Z.of_nat (Z.to_nat c))) as Hch.
  { exists k. split; [now rewrite Hda|].
    rewrite Ha. simpl. rewrite Z2Nat.id by lia. exact Hc. }
  (* the search of [getGpuFilterProps] meets no missing array *)
  assert (forall i, exists flt, findChannelFilter out did i = Ok flt) as Hok.
  { intros i. apply findChannelFilter_ok. intros g Hgin Hgg _.
    apply list_elem_of_lookup in Hgin. destruct Hgin as [jg Hjg].
    destruct (assignGpuChannels_lookup_passes MAX out0 jg g Hjg Hgg)
      as (gc & -> & _).
    eauto. }
  destruct (propsLoop_ok out did MAX Hok 0
              {| stRange := getEmptyFilterRange MAX; stTriggers := ∅;
                 stChannels := [] |}) as [st Hrun].
  eexists _, (Z.to_nat c).
  split; [unfold getGpuFilterProps; rewrite Hrun; reflexivity|].
  split; [lia|]. split; [exact Hch|]. simpl.
  apply propsLoop_table in Hrun;
    [|simpl; unfold getEmptyFilterRange; rewrite length_replicate; lia].
  destruct Hrun as (_ & _ & _ & Hnew).
  destruct (Hnew (Z.to_nat c) ltac:(lia)) as (flt & Hfind & Hrng & _).
  pose proof (findChannelFilter_holder out did (Z.to_nat c) a flt
                Hnd1 Hinj Hin Hg Hch Hfind) as Hflt.
  subst flt. split; [exact Hfind | exact Hrng].
Qed.

Lemma pipeline_gpu_filter_has_slot_witness :
  let C := sampleFilter "c" ["d1"] true (Some [Num 2]) in
  let out := assignGpuChannels MAX_GPU_FILTERS_default
               (resetFilterGpuMode MAX_GPU_FILTERS_default crowdedDataset) in
  NoDup (id <$> crowdedDataset)
  /\ plainDatasets crowdedDataset
  /\ (0 < MAX_GPU_FILTERS_default)%nat
  /\ channelsInRange MAX_GPU_FILTERS_default crowdedDataset
  /\ C ∈ out /\ gpu C = true /\ "d1" ∈ dataId C
  /\ exists props i,
       getGpuFilterProps MAX_GPU_FILTERS_default datum out "d1" = Ok props
       /\ (i < MAX_GPU_FILTERS_default)%nat
       /\ channelAt C "d1" (Z.of_nat i)
       /\ findChannelFilter out "d1" i = Ok (Some C)
       /\ filterRange props !! i
          = Some (fst (value C) - fst (domain C), snd (value C) - fst (domain C)).
Proof.
  intros C out.
  assert (NoDup (id <$> crowdedDataset)) as H1
    by (apply (bool_decide_unpack _); vm_compute; exact I).
  assert (plainDatasets crowdedDataset) as Hplain by (repeat constructor).
  assert (0 < MAX_GPU_FILTERS_default)%nat as H2
    by (unfold MAX_GPU_FILTERS_default; lia).
  assert (channelsInRange MAX_GPU_FILTERS_default crowdedDataset) as H3.
  { intros f k c Hf Hk. unfold MAX_GPU_FILTERS_default.
    unfold crowdedDataset, fullDataset in Hf. simpl in Hf.
    repeat (apply elem_of_cons in Hf; destruct Hf as [->|Hf];
            [destruct k as [|k]; simpl in Hk;
             [injection Hk as <-; lia | now rewrite lookup_nil in Hk]|]).
    inversion Hf. }
  assert (C ∈ out) as H4
    by (apply list_elem_of_lookup; exists 2%nat; reflexivity).
  assert (gpu C = true) as H5 by reflexivity.
  assert ("d1" ∈ dataId C) as H6 by (simpl; left).
  split; [exact H1|]. split; [exact Hplain|]. split; [exact H2|].
  split; [exact H3|]. split; [exact H4|]. split; [exact H5|].
  split; [exact H6|].
  exact (pipeline_gpu_filter_has_slot MAX_GPU_FILTERS_default datum
           crowdedDataset "d1" C H1 Hplain H2 H3 H4 H5 H6).
Defined.

(** ** Dataset ids that are names of properties of Object.prototype *)

Lemma forEach_countDataset_inherited (MAX : nat) (l : list string) :
  (0 < MAX)%nat ->
  Forall (fun did => inherited did = true) l ->
  forall idx g m,
    numericCounters m ->
    exists m', forEach_from (countDataset MAX) l idx (g, m) = (g, m').
Proof.
  intros Hpos Hl. induction Hl as [|d0 l Hd0 _ IH]; intros idx g m Hnum;
    cbn [forEach_from].
  - now exists m.
  - destruct (countDataset_step MAX d0 idx g m Hpos Hnum)
      as [(Hplain & _)|(m1 & -> & Hnum1 & _)]; [congruence|].
    now apply IH.
Qed.

Lemma resetFilterGpuMode_from_inherited (MAX : nat) (rest : list Filter) :
  (0 < MAX)%nat ->
  forall m,
    numericCounters m ->
    (forall did, (counterValue m did <= MAX)%nat) ->
    forall j f, rest !! j = Some f ->
      Forall (fun did => inherited did = true) (dataId f) ->
      resetFilterGpuMode_from MAX rest m !! j = Some f.
Proof.
  intros Hpos. induction rest as [|f0 rest IH]; intros m Hnum Hm j f Hj Hf.
  - now rewrite lookup_nil in Hj.
  - simpl. pose proof (resetOne_counter MAX f0 m Hpos Hnum Hm) as (Hnum' & Hmono & _).
    destruct j as [|j]; simpl in Hj.
    + injection Hj as ->. unfold resetOne. destruct (gpu f) eqn:Hg; [|reflexivity].
      unfold forEach.
      destruct (forEach_countDataset_inherited MAX (dataId f) Hpos Hf 0 true m
                  Hnum) as (m' & ->).
      reflexivity.
    + destruct (resetOne MAX f0 m) as [f0' m']. simpl in Hnum', Hmono. simpl.
      apply IH; [exact Hnum' | | exact Hj | exact Hf].
      intros did. apply (Hmono did).
Qed.

(** X21. The cap is not enforced on a dataset whose id is the name of a
    property of [Object.prototype]: with [MAX_GPU_FILTERS] positive, a
    filter all of whose dataset ids are such names comes back from
    [resetFilterGpuMode] as it is, whatever the collection holds.  The
    counter read for such an id is a function, an object or a string, which
    never equals [MAX_GPU_FILTERS]. *)
Theorem resetFilterGpuMode_prototype_names_never_full (MAX : nat)
    (fs : list Filter) (j : nat) (f : Filter) :
  (0 < MAX)%nat ->
  fs !! j = Some f ->
  Forall (fun did => inherited did = true) (dataId f) ->
  resetFilterGpuMode MAX fs !! j = Some f.
Proof.
  intros Hpos Hj Hf. unfold resetFilterGpuMode.
  apply resetFilterGpuMode_from_inherited;
    [exact Hpos | apply numericCounters_empty | | exact Hj | exact Hf].
  intros did. rewrite counterValue_empty. lia.
Qed.

Lemma resetFilterGpuMode_prototype_names_never_full_witness :
  let F := fun i => sampleFilter i ["constructor"] true None in
  let fs := [F "a"; F "b"; F "c"; F "d"] in
  (0 < 2)%nat
  /\ fs !! 3%nat = Some (F "d")
  /\ Forall (fun did => inherited did = true) (dataId (F "d"))
  /\ resetFilterGpuMode 2 fs !! 3%nat = Some (F "d")
  /\ gpuCount (resetFilterGpuMode 2 fs) "constructor" = 4%nat.
Proof.
  intros F fs.
  assert (0 < 2)%nat as H1 by lia.
  assert (fs !! 3%nat = Some (F "d")) as H2 by reflexivity.
  assert (Forall (fun did => inherited did = true) (dataId (F "d"))) as H3
    by (repeat constructor).
  split; [exact H1|]. split; [exact H2|]. split; [exact H3|].
  split; [|reflexivity].
  exact (resetFilterGpuMode_prototype_names_never_full 2 fs 3 (F "d") H1 H2 H3).
Defined.
